(** * Auralia MetaPet: the deterministic generative engine and the
      autonomous behaviour machine, embedded from the TypeScript sources.

    Definitions, one module per source unit:
    - [Js]        : the JavaScript primitives the sources rely on
                    (UTF-16 strings, Number, BigInt conversions, Math).
    - [MossPrime] : mossPrimeSeed (mix64, base10ToHex, fibFast, initField,
                    prng, hash, fib, lucas).
    - [Evolution] : auralia/evolution.ts.
    - [Genome]    : computeGenome and the partner genome of breedGuardian.
    - [Emotion]   : calculateEmotionalResponse of the consciousness engine.
    - [Behavior]  : useGuardianAI of guardianBehaviorStubs.tsx, with the
                    effect of the hook and its timers as an explicit runtime.
    - [Scenarios] : concrete inputs and reference notions for the statements.
    - [ArrayOps]  : array helpers shared by the modules below.
    - [Stubs]     : the helpers of guardianBehaviorStubs.tsx (lore, drives,
                    comfort, emotional state) and useGuardianInteraction.
    - [Component] : handlers of the main component (stat changes, bond
                    history, pattern game).
    - [Invariants]: the invariant of the behaviour machine while idle.
    - [Mind]      : emotionToStyle of the consciousness engine.
    - [Consciousness] : auralia/consciousness.ts (genetic modulation,
                    memory, personality drift, effective personality).

    Properties: [FieldProofs], [FibProofs], [GenomeProofs], [EmotionProofs],
    [BehaviorProofs] and [TransitionProofs]; then [SeedProofs], [HexProofs],
    [StreamProofs], [GrowthProofs], [FibDomain], [StubsProofs], [GbspProofs],
    [InteractionProofs], [ComponentProofs], [IdleProofs], [EvolutionProofs],
    [PowerProofs], [BreedingProofs], [GenomeShape], [MemoryProofs],
    [ModulationProofs] and [MindProofs]. *)

From Stdlib Require Import ZArith QArith Qabs Qround Qminmax List Bool String Ascii Lia Lqa.
Import ListNotations.

Local Open Scope Z_scope.

(* ================================================================== *)
(** * JavaScript primitives *)
(* ================================================================== *)

Module Js.

(** A JavaScript string is a sequence of UTF-16 code units; [charCodeAt]
    reads one of them. *)
Definition jsstring := list Z.

Fixpoint codes (s : string) : jsstring :=
  match s with
  | EmptyString => []
  | String c s' => Z.of_nat (nat_of_ascii c) :: codes s'
  end.

(** Finite values of the Number type are modelled by exact rationals; the
    three non-finite values are kept apart because [BigInt] rejects them. *)
Inductive number : Type :=
  | Fin (q : Q)
  | NaN
  | PInf
  | NInf.

Definition Math_floor (x : number) : number :=
  match x with
  | Fin q => Fin (inject_Z (Qfloor q))
  | other => other
  end.

(** [Math.max(a, b)]: NaN is contagious, the infinities are absorbing. *)
Definition Math_max (a b : number) : number :=
  match a, b with
  | NaN, _ | _, NaN => NaN
  | PInf, _ | _, PInf => PInf
  | NInf, y => y
  | x, NInf => x
  | Fin p, Fin q => Fin (Qmax p q)
  end.

(** [x === 0] on numbers. *)
Definition is_zero (x : number) : bool :=
  match x with
  | Fin q => Qeq_bool q 0
  | _ => false
  end.

(** [BigInt(x)] on a number: a RangeError ([None]) unless [x] is an
    integer. *)
Definition BigInt_of_number (x : number) : option Z :=
  match x with
  | Fin q => if Qeq_bool (inject_Z (Qfloor q)) q then Some (Qfloor q) else None
  | _ => None
  end.

(** ToUint32 and ToInt32 on an integer-valued number. *)
Definition ToUint32 (x : Z) : Z := x mod 2 ^ 32.
Definition ToInt32 (x : Z) : Z :=
  let u := ToUint32 x in if u <? 2 ^ 31 then u else u - 2 ^ 32.

(** [a >>> 0], [a & b] and [a ^ b] on numbers: 32-bit operands, and for
    the last two a signed 32-bit result. *)
Definition ushr0 (a : Z) : Z := ToUint32 a.
Definition and32 (a b : Z) : Z := ToInt32 (Z.land (ToInt32 a) (ToInt32 b)).
Definition xor32 (a b : Z) : Z := ToInt32 (Z.lxor (ToInt32 a) (ToInt32 b)).

(** [Number(b)] for a BigInt [b] below 2^1024: the nearest double, ties to
    even.  The double is returned as the integer it denotes. *)
Definition Number_of_bigint (b : Z) : Z :=
  let a := Z.abs b in
  let n := Z.log2 a + 1 in
  if n <=? 53 then b
  else
    let e := n - 53 in
    let q := Z.shiftr a e in
    let r := Z.land a (Z.ones e) in
    let h := Z.shiftl 1 (e - 1) in
    let q' := if (h <? r) || ((r =? h) && Z.odd q) then q + 1 else q in
    Z.sgn b * Z.shiftl q' e.

(** Value of one hexadecimal digit character. *)
Definition hexval (c : Z) : option Z :=
  if (48 <=? c) && (c <=? 57) then Some (c - 48)
  else if (97 <=? c) && (c <=? 102) then Some (c - 87)
  else if (65 <=? c) && (c <=? 70) then Some (c - 55)
  else None.

Fixpoint parse_hex (acc : Z) (h : jsstring) : option Z :=
  match h with
  | [] => Some acc
  | c :: h' =>
      match hexval c with
      | Some d => parse_hex (acc * 16 + d) h'
      | None => None
      end
  end.

(** [BigInt('0x' + h)]: a SyntaxError ([None]) when [h] is empty or holds
    a character that is no hexadecimal digit. *)
Definition BigInt_of_hex (h : jsstring) : option Z :=
  match h with
  | [] => None
  | _ => parse_hex 0 h
  end.

(** [a % m] on finite numbers: the remainder has the sign of the
    dividend. *)
Definition rem (a m : Q) : Q :=
  let t := (a / m)%Q in
  let k := if Qle_bool 0 t then Qfloor t else Qceiling t in
  (a - m * inject_Z k)%Q.

(** [Math.round]: the nearest integer, halves rounded up. *)
Definition Math_round (x : Q) : Q := inject_Z (Qfloor (x + (1 # 2))%Q).

(** Comparisons of finite numbers, as booleans. *)
Definition ltb (a b : Q) : bool := negb (Qle_bool b a).
Definition gtb (a b : Q) : bool := ltb b a.
Definition geb (a b : Q) : bool := Qle_bool b a.

(** [a < b] and [a > b] on all numbers: false as soon as one side is
    NaN. *)
Definition lt (a b : number) : bool :=
  match a, b with
  | NaN, _ | _, NaN => false
  | PInf, _ => false
  | NInf, NInf => false
  | NInf, _ => true
  | Fin _, PInf => true
  | Fin _, NInf => false
  | Fin p, Fin q => ltb p q
  end.
Definition gt (a b : number) : bool := lt b a.

(** [a[i]]: [None] stands for [undefined]. *)
Definition index {A : Type} (a : list A) (i : Z) : option A :=
  if i <? 0 then None else nth_error a (Z.to_nat i).

(** [a.reduce(f)] without an initial value: a TypeError ([None]) on the
    empty array. *)
Definition reduce {A : Type} (f : A -> A -> A) (a : list A) : option A :=
  match a with
  | [] => None
  | x :: rest => Some (fold_left f rest x)
  end.

End Js.

(* ================================================================== *)
(** * mossPrimeSeed: the seeded field generator *)
(* ================================================================== *)

Module MossPrime.
Import Js.

Definition RED : jsstring :=
  codes "113031491493585389543778774590997079619617525721567332336510".
Definition BLACK : jsstring :=
  codes "011235831459437077415617853819099875279651673033695493257291".
Definition BLUE : jsstring :=
  codes "012776329785893036118967145479098334781325217074992143965631".

(** [toDigits]: throws ([None]) on the first character that is no decimal
    digit. *)
Fixpoint toDigits (s : jsstring) : option (list Z) :=
  match s with
  | [] => Some []
  | ch :: s' =>
      let d := ch - 48 in
      if (d <? 0) || (9 <? d) then None
      else match toDigits s' with
           | Some ds => Some (d :: ds)
           | None => None
           end
  end.

(** [mix64]: BigInt arithmetic is unbounded, only the result is masked. *)
Definition mix64 (x0 : Z) : Z :=
  let x := Z.lxor x0 0x9e3779b97f4a7c15 in
  let x := Z.lxor x (Z.shiftr x 30) in
  let x := x * 0xbf58476d1ce4e5b9 in
  let x := Z.lxor x (Z.shiftr x 27) in
  let x := x * 0x94d049bb133111eb in
  let x := Z.lxor x (Z.shiftr x 31) in
  Z.land x (Z.shiftl 1 64 - 1).

Fixpoint interleave3 (a b c : jsstring) : jsstring :=
  match a, b, c with
  | x :: a', y :: b', z :: c' => x :: y :: z :: interleave3 a' b' c'
  | _, _, _ => []
  end.

Definition table : jsstring := codes "0123456789abcdef".

(** The loop of [base10ToHex], from index [i] with accumulator [acc]. *)
Fixpoint base10ToHex_from (i acc : Z) (digitStr : jsstring) : jsstring :=
  match digitStr with
  | [] => []
  | ch :: rest =>
      let acc' := and32 (ushr0 (acc * 17 + (ch - 48))) 0xffffffff in
      nth (Z.to_nat (and32 (xor32 acc' (i * 7)) 15)) table 0
        :: base10ToHex_from (i + 1) acc' rest
  end.

Definition base10ToHex (digitStr : jsstring) : jsstring :=
  base10ToHex_from 0 0 digitStr.

(** The inner [fn] of [fibFast] on a positive index: [k >> 1] is the tail
    of the binary numeral and [k & 1] its last bit. *)
Fixpoint fn_pos (p : positive) : Z * Z :=
  let '(a, b) :=
    match p with
    | xH => (0, 1)
    | xO q | xI q => fn_pos q
    end in
  let c := a * (Z.shiftl b 1 - a) in
  let d := a * a + b * b in
  match p with
  | xO _ => (c, d)
  | _ => (d, c + d)
  end.

(** On a negative index the recursion never reaches [0n]; it has no
    result. *)
Definition fn (k : Z) : option (Z * Z) :=
  match k with
  | Z0 => Some (0, 1)
  | Zpos p => Some (fn_pos p)
  | Zneg _ => None
  end.

Inductive Bigish : Type :=
  | BigI (z : Z)
  | Num (x : number).

Definition fibFast (n : Bigish) : option (Z * Z) :=
  match
    match n with
    | BigI z => Some (if z <? 0 then 0 else z)
    | Num x => BigInt_of_number (Math_max (Fin 0) (Math_floor x))
    end
  with
  | Some index => fn index
  | None => None
  end.

(** The object returned by [initField], with the variables captured by
    its closures ([seedBI], and the mutable [s0], [s1]). *)
Record Field : Type := mkField {
  seed : jsstring;
  red : jsstring;
  black : jsstring;
  blue : jsstring;
  ring : list Z;
  pulse : list Z;
  seedBI : Z;
  s0 : Z;
  s1 : Z
}.

Fixpoint mapi_from {A B : Type} (i : Z) (f : A -> Z -> B) (l : list A) : list B :=
  match l with
  | [] => []
  | x :: l' => f x i :: mapi_from (i + 1) f l'
  end.

Definition mapi {A B : Type} (f : A -> Z -> B) (l : list A) : list B :=
  mapi_from 0 f l.

(** [a[i]] on a digit array; the indices used below are all in range. *)
Definition at_ (a : list Z) (i : Z) : Z := nth (Z.to_nat i) a 0.

Definition initField (seedName : jsstring) : option Field :=
  match toDigits RED, toDigits BLACK, toDigits BLUE with
  | Some r, Some k, Some b =>
      let pulse :=
        mapi (fun rv i =>
                Z.rem (xor32 (xor32 rv (at_ k (Z.rem (i * 7) 60)))
                             (at_ b (Z.rem (i * 13) 60))) 10) r in
      let ring :=
        map (fun i => Z.rem (at_ r i + at_ k i + at_ b i) 10)
            (map Z.of_nat (seq 0 60)) in
      let seedStr := interleave3 RED BLACK BLUE in
      match BigInt_of_hex (base10ToHex (seedStr ++ seedName)) with
      | Some seedBI =>
          Some {| seed := seedName; red := RED; black := BLACK; blue := BLUE;
                  ring := ring; pulse := pulse; seedBI := seedBI;
                  s0 := mix64 seedBI;
                  s1 := mix64 (Z.lxor seedBI 0xa5a5a5a5a5a5a5a5) |}
      | None => None
      end
  | _, _, _ => None
  end.

(** One call of [prng], up to its last line: the masked sum and the field
    with its two state words updated. *)
Definition prng_sum (F : Field) : Z * Field :=
  let x := s0 F in
  let y := s1 F in
  let s0' := y in
  let x := Z.lxor x (Z.shiftl x 23) in
  let x := Z.lxor x (Z.shiftr x 17) in
  let x := Z.lxor x (Z.lxor y (Z.shiftr y 26)) in
  let s1' := x in
  let sum := Z.land (s0' + s1') (Z.shiftl 1 64 - 1) in
  (sum,
   {| seed := seed F; red := red F; black := black F; blue := blue F;
      ring := ring F; pulse := pulse F; seedBI := seedBI F;
      s0 := s0'; s1 := s1' |}).

(** [prng]: [Number(sum)] is a double that is an integer of at most 2^64,
    so dividing it by 2^64 is exact. *)
Definition prng (F : Field) : Q * Field :=
  let '(sum, F') := prng_sum F in
  ((inject_Z (Number_of_bigint sum) / inject_Z 18446744073709551616)%Q, F').

(** The field after [n] calls of [prng]. *)
Fixpoint draws (n : nat) (F : Field) : Field :=
  match n with
  | O => F
  | S n' => draws n' (snd (prng F))
  end.

(** The loop of [hash], from index [i] with accumulator [h]. *)
Fixpoint hash_from (i h : Z) (msg : jsstring) : Z :=
  match msg with
  | [] => h
  | ch :: rest =>
      hash_from (i + 1) (mix64 (Z.lxor h (ch + i * 1315423911))) rest
  end.

(** [hash] reads the captured [seedBI] and nothing else; it is returned
    together with the field it leaves behind. *)
Definition hash (F : Field) (msg : jsstring) : Z * Field :=
  (hash_from 0 (seedBI F) msg, F).

Definition fib (n : number) : option Z :=
  match fibFast (Num n) with
  | Some (a, _) => Some a
  | None => None
  end.

Definition lucas (n : number) : option Z :=
  if is_zero n then Some 2
  else
    let N := Math_max (Fin 0) n in
    match fibFast (Num N) with
    | Some (Fn, Fnp1) => Some (2 * Fnp1 - Fn)
    | None => None
    end.

(** The Fibonacci and Lucas sequences by their recurrences. *)
Fixpoint Fibonacci (n : nat) : Z :=
  match n with
  | O => 0
  | S m => match m with
           | O => 1
           | S p => Fibonacci m + Fibonacci p
           end
  end.

Fixpoint Lucas (n : nat) : Z :=
  match n with
  | O => 2
  | S m => match m with
           | O => 1
           | S p => Lucas m + Lucas p
           end
  end.

End MossPrime.

(* ================================================================== *)
(** * auralia/evolution.ts *)
(* ================================================================== *)

Module Evolution.
Import Js.
Local Open Scope Q_scope.

Inductive TrinityAspect : Type := sun | shadow | void.
Inductive EvolutionTrait : Type := radiant | umbral | cosmic | balanced | chaotic.

Record BreedingGenome : Type := mkGenome {
  red60 : Q;
  blue60 : Q;
  black60 : Q
}.

Record EvolutionState : Type := mkEvolution {
  primaryAspect : TrinityAspect;
  secondaryAspect : option TrinityAspect;
  trait : EvolutionTrait;
  power : Q;
  mutations : list string
}.

Definition aspect_eqb (a b : TrinityAspect) : bool :=
  match a, b with
  | sun, sun | shadow, shadow | void, void => true
  | _, _ => false
  end.

Definition calculateTrinityAspect (genome : BreedingGenome) : TrinityAspect :=
  let r := red60 genome in
  let b := blue60 genome in
  let k := black60 genome in
  if gtb r b && gtb r k then sun
  else if gtb b r && gtb b k then shadow
  else if gtb k r && gtb k b then void
  else if geb r (Qmax b k) then sun
  else if geb b (Qmax r k) then shadow
  else void.

(** [Object.entries(values)], in insertion order. *)
Definition entries (genome : BreedingGenome) : list (TrinityAspect * Q) :=
  [(sun, red60 genome); (shadow, blue60 genome); (void, black60 genome)].

Definition value_of (genome : BreedingGenome) (a : TrinityAspect) : Q :=
  match a with
  | sun => red60 genome
  | shadow => blue60 genome
  | void => black60 genome
  end.

(** [others] always holds two entries, so the [reduce] never throws; the
    [None] of that branch is shared with the [null] result. *)
Definition calculateSecondaryAspect (genome : BreedingGenome)
    (primary : TrinityAspect) : option TrinityAspect :=
  let primaryValue := value_of genome primary in
  let others :=
    filter (fun kv => negb (aspect_eqb (fst kv) primary)) (entries genome) in
  match reduce (fun max curr => if gtb (snd curr) (snd max) then curr else max)
               others with
  | Some (secondaryKey, secondaryValue) =>
      if geb secondaryValue (primaryValue * (8 # 10)) then Some secondaryKey
      else None
  | None => None
  end.

Definition max3 (a b c : Q) : Q := Qmax (Qmax a b) c.

Definition calculateEvolutionTrait (genome : BreedingGenome)
    (primary : TrinityAspect) (secondary : option TrinityAspect)
    : EvolutionTrait :=
  let r := red60 genome in
  let b := blue60 genome in
  let k := black60 genome in
  let avg := (r + b + k) / 3 in
  let variance := max3 (Qabs (r - avg)) (Qabs (b - avg)) (Qabs (k - avg)) in
  if gtb variance 30 then chaotic
  else if ltb variance 15 then balanced
  else match secondary with
       | Some _ => cosmic
       | None =>
           match primary with
           | sun => radiant
           | shadow => umbral
           | void => cosmic
           end
       end.

Definition calculateEvolutionPower (genome : BreedingGenome) : Q :=
  let r := red60 genome in
  let b := blue60 genome in
  let k := black60 genome in
  let total := r + b + k in
  let max := max3 r b k in
  let strength := total / 3 in
  let focus := (max / 100) * 100 in
  Math_round (strength * (6 # 10) + focus * (4 # 10)).

Definition generateMutations (genome : BreedingGenome) : list string :=
  let r := red60 genome in
  let b := blue60 genome in
  let k := black60 genome in
  (if gtb r 90 then ["Solar Flare - Enhanced vitality regeneration"%string] else [])
  ++ (if ltb r 10 then ["Dim Ember - Requires less energy to sustain"%string] else [])
  ++ (if gtb b 90 then ["Crystal Form - Rigid structure, high defense"%string] else [])
  ++ (if ltb b 10 then ["Fluid Shape - Adaptive form, high flexibility"%string] else [])
  ++ (if gtb k 90 then ["Void Touch - Deep cosmic connection"%string] else [])
  ++ (if ltb k 10 then ["Clear Light - Reduced mystery, increased clarity"%string] else [])
  ++ (if gtb r 85 && gtb k 85 then ["Supernova - Explosive energy release"%string] else [])
  ++ (if gtb b 85 && gtb k 85 then ["Dark Matter - Hidden mass and presence"%string] else [])
  ++ (if gtb r 85 && gtb b 85 then ["Plasma Core - Structured energy form"%string] else []).

Definition calculateEvolution (genome : BreedingGenome) : EvolutionState :=
  let primary := calculateTrinityAspect genome in
  let secondary := calculateSecondaryAspect genome primary in
  let trait := calculateEvolutionTrait genome primary secondary in
  let power := calculateEvolutionPower genome in
  let mutations := generateMutations genome in
  {| primaryAspect := primary; secondaryAspect := secondary; trait := trait;
     power := power; mutations := mutations |}.

Section Breeding.
(** [randomFn] is a stateful generator: a call returns a number and
    leaves a new generator state. *)
Variable G : Type.
Variable randomFn : G -> Q * G.

Definition mutate (value : Q) (g : G) : Q * G :=
  let '(x, g') := randomFn g in
  let variance := (x - (1 # 2)) * 30 in
  (Qmax 0 (Qmin 100 (value + variance)), g').

Definition breedGenomes (parent1 parent2 : BreedingGenome) (g : G)
    : BreedingGenome * G :=
  let inheritRed := (red60 parent1 + red60 parent2) / 2 in
  let inheritBlue := (blue60 parent1 + blue60 parent2) / 2 in
  let inheritBlack := (black60 parent1 + black60 parent2) / 2 in
  let '(red, g1) := mutate inheritRed g in
  let '(blue, g2) := mutate inheritBlue g1 in
  let '(black, g3) := mutate inheritBlack g2 in
  let '(roll, g4) := randomFn g3 in
  let '(red, blue, black) :=
    if ltb roll (5 # 100) then
      let maxParent1 := max3 (red60 parent1) (blue60 parent1) (black60 parent1) in
      let maxParent2 := max3 (red60 parent2) (blue60 parent2) (black60 parent2) in
      if Qeq_bool maxParent1 (red60 parent1) || Qeq_bool maxParent2 (red60 parent2)
      then (Qmin 100 (red + 10), blue, black)
      else if Qeq_bool maxParent1 (blue60 parent1) || Qeq_bool maxParent2 (blue60 parent2)
      then (red, Qmin 100 (blue + 10), black)
      else (red, blue, Qmin 100 (black + 10))
    else (red, blue, black) in
  ({| red60 := Math_round red; blue60 := Math_round blue;
      black60 := Math_round black |}, g4).
End Breeding.

End Evolution.

(* ================================================================== *)
(** * Genome derivation of the main component *)
(* ================================================================== *)

Module Genome.
Import Js MossPrime Evolution.
Local Open Scope Q_scope.

(** [a.slice(0, n).reduce((a, b) => a + b, 0)] on a digit array. *)
Definition sum_slice (n : nat) (a : list Z) : Z :=
  fold_left Z.add (firstn n a) 0%Z.

(** [computeGenome], with the component state it reads as arguments. *)
Definition computeGenome (field : Field) (energy curiosity bond health : Q)
    : BreedingGenome :=
  let pulseSum := inject_Z (sum_slice 20 (pulse field)) in
  let ringSum := inject_Z (sum_slice 20 (ring field)) in
  {| red60 := Qmin 100 (rem (pulseSum * (12 # 10) + energy * (7 # 10)
                              + (100 - health) * (3 # 10)) 100);
     blue60 := Qmin 100 (rem (ringSum * (11 # 10) + curiosity * (6 # 10)
                               + bond * (5 # 10)) 100);
     black60 := Qmin 100 (rem ((pulseSum + ringSum) * (8 # 10)
                                + energy * (4 # 10) + bond * (6 # 10)) 100) |}.

(** The partner genome [breedGuardian] derives from the partner's field. *)
Definition partnerGenome (partnerField : Field) : BreedingGenome :=
  {| red60 := Qmin 100 (Math_round
                (rem (inject_Z (sum_slice 20 (pulse partnerField)) * (15 # 10)) 100));
     blue60 := Qmin 100 (Math_round
                (rem (inject_Z (sum_slice 20 (ring partnerField)) * (13 # 10)) 100));
     black60 := Qmin 100 (Math_round
                (rem (inject_Z (sum_slice 10 (pulse partnerField)
                                + sum_slice 10 (ring partnerField)) * (11 # 10)) 100)) |}.

End Genome.

(* ================================================================== *)
(** * Emotional response of the consciousness engine *)
(* ================================================================== *)

Module Emotion.
Import Js.

Inductive ExpandedEmotionalState : Type :=
  | serene | calm | curious | playful | contemplative | affectionate
  | restless | yearning | overwhelmed | withdrawn | ecstatic | melancholic
  | mischievous | protective | transcendent.

Record PersonalityTraits : Type := mkTraits {
  t_energy : number;
  t_curiosity : number;
  t_affection : number;
  t_independence : number;
  t_discipline : number;
  t_playfulness : number;
  t_social : number;
  t_temperament : string
}.

Record GuardianStats : Type := mkStats {
  mood : number;
  energy : number;
  hunger : number;
  hygiene : number
}.

Definition n (z : Z) : number := Fin (inject_Z z).

Definition calculateEmotionalResponse (vitals : GuardianStats)
    (traits : PersonalityTraits) : ExpandedEmotionalState :=
  let mood := mood vitals in
  let energy := energy vitals in
  let hunger := hunger vitals in
  let hygiene := hygiene vitals in
  let energyTrait := t_energy traits in
  let affection := t_affection traits in
  let curiosity := t_curiosity traits in
  if gt hunger (n 80) then yearning
  else if lt hygiene (n 30) then overwhelmed
  else if lt energy (n 20) then withdrawn
  else if gt mood (n 85) && gt energy (n 70) then ecstatic
  else if gt mood (n 75) && gt energyTrait (n 60) then playful
  else if gt mood (n 75) && gt curiosity (n 60) then curious
  else if gt mood (n 60) && gt affection (n 60) then affectionate
  else if gt mood (n 50) && lt mood (n 70) then calm
  else if gt mood (n 50) && gt curiosity (n 70) then contemplative
  else if lt mood (n 40) then melancholic
  else if gt energy (n 60) && lt mood (n 50) then restless
  else serene.

End Emotion.

(* ================================================================== *)
(** * useGuardianAI: the behaviour state machine *)
(* ================================================================== *)

Module Behavior.
Import Js.
Local Open Scope Q_scope.

Inductive GuardianAIMode : Type := idle | observing | focusing | playing | dreaming.

Record Range : Type := mkRange { min : Q; max : Q }.

Record Timings : Type := mkTimings {
  t_idle : Range;
  t_observing : Range;
  t_focusing : Range;
  t_playing : Range;
  t_dreaming : Range
}.

Record Probabilities : Type := mkProbabilities {
  idleToDream : Q;
  idleToObserve : Q;
  idleToFocus : Q
}.

Record AIBehaviorConfig : Type := mkConfig {
  timings : Timings;
  probabilities : Probabilities
}.

Record GuardianStats : Type := mkStats {
  energy : Q;
  curiosity : Q;
  bond : Q;
  health : Q
}.

Record GuardianSigilPoint : Type := mkSigil {
  id : Z;
  x : Q;
  y : Q;
  angle : Q;
  radius : Q
}.

(** The [options] argument; [onPlay] is optional and only its presence
    matters here. *)
Record Options : Type := mkOptions {
  config : AIBehaviorConfig;
  stats : GuardianStats;
  onPlay : bool
}.

Definition DEFAULT_AI_CONFIG : AIBehaviorConfig :=
  {| timings :=
       {| t_idle := mkRange 3000 8000;
          t_observing := mkRange 5000 12000;
          t_focusing := mkRange 2000 4000;
          t_playing := mkRange 3000 6000;
          t_dreaming := mkRange 8000 15000 |};
     probabilities :=
       {| idleToDream := 15 # 100;
          idleToObserve := 5 # 10;
          idleToFocus := 25 # 100 |} |}.

(** Calls of the callbacks handed to the hook. *)
Inductive Event : Type :=
  | DreamComplete
  | FocusChange (sigilId : option Z)
  | Play.

(** The closures handed to [setTimeout], in order of appearance.  [Retry m]
    is [() => transitionToNextMode()] of the render whose [mode] is [m]. *)
Inductive Callback : Type :=
  | DreamEnd
  | ObserveEnd
  | FocusEnd
  | PlayEnd
  | Retry (m : GuardianAIMode).

Record Timer : Type := mkTimer {
  tid : nat;
  callback : Callback;
  delay : Q
}.

(** The state of one hook instance and of its environment.  [since] and
    [gbspTimestamp] are left out: nothing below reads them. *)
Record Hook : Type := mkHook {
  mode : GuardianAIMode;         (* useState *)
  focusedSigil : option Z;       (* useState *)
  timerRef : option nat;         (* timerRef.current, None for null *)
  rendered : GuardianAIMode;     (* mode of the render whose effect ran last *)
  timers : list Timer;           (* timeouts pending in the environment *)
  next_id : nat;                 (* the id the next setTimeout returns *)
  cursor : nat;                  (* calls of Math.random so far *)
  log : list Event               (* latest first *)
}.

Definition mode_eqb (a b : GuardianAIMode) : bool :=
  match a, b with
  | idle, idle | observing, observing | focusing, focusing
  | playing, playing | dreaming, dreaming => true
  | _, _ => false
  end.

(** Hook code runs in a state monad over [Hook]. *)
Definition M (A : Type) : Type := Hook -> A * Hook.
Definition ret {A : Type} (a : A) : M A := fun h => (a, h).
Definition bind {A B : Type} (c : M A) (k : A -> M B) : M B :=
  fun h => let '(a, h') := c h in k a h'.

Declare Scope hook_scope.
Delimit Scope hook_scope with hook.
Notation "x <- c ;; k" := (bind c (fun x => k))
  (at level 61, c at next level, right associativity) : hook_scope.
Notation "c ;; k" := (bind c (fun _ => k))
  (at level 61, right associativity) : hook_scope.
Local Open Scope hook_scope.

Definition setMode (m : GuardianAIMode) : M unit := fun h =>
  (tt, mkHook m (focusedSigil h) (timerRef h) (rendered h) (timers h)
              (next_id h) (cursor h) (log h)).

Definition setFocusedSigil (s : option Z) : M unit := fun h =>
  (tt, mkHook (mode h) s (timerRef h) (rendered h) (timers h)
              (next_id h) (cursor h) (log h)).

Definition set_timerRef (i : nat) : M unit := fun h =>
  (tt, mkHook (mode h) (focusedSigil h) (Some i) (rendered h) (timers h)
              (next_id h) (cursor h) (log h)).

Definition set_rendered (m : GuardianAIMode) : M unit := fun h =>
  (tt, mkHook (mode h) (focusedSigil h) (timerRef h) m (timers h)
              (next_id h) (cursor h) (log h)).

Definition set_timers (ts : list Timer) : M unit := fun h =>
  (tt, mkHook (mode h) (focusedSigil h) (timerRef h) (rendered h) ts
              (next_id h) (cursor h) (log h)).

Definition setTimeout (cb : Callback) (d : Q) : M nat := fun h =>
  (next_id h,
   mkHook (mode h) (focusedSigil h) (timerRef h) (rendered h)
          (timers h ++ [mkTimer (next_id h) cb d])
          (S (next_id h)) (cursor h) (log h)).

(** [clearTimeout] of an id that is no longer pending does nothing. *)
Definition clearTimeout (i : nat) : M unit := fun h =>
  set_timers (filter (fun t => negb (Nat.eqb (tid t) i)) (timers h)) h.

Definition emit (e : Event) : M unit := fun h =>
  (tt, mkHook (mode h) (focusedSigil h) (timerRef h) (rendered h) (timers h)
              (next_id h) (cursor h) (e :: log h)).

Definition initial : Hook :=
  {| mode := idle; focusedSigil := None; timerRef := None; rendered := idle;
     timers := []; next_id := 1%nat; cursor := O; log := [] |}.

Section Machine.
(** The arguments of the hook, which keep their values during a run, and
    the values the successive calls of [Math.random] return. *)
Variable sigilPoints : list GuardianSigilPoint.
Variable options : Options.
Variable random : nat -> Q.

Definition Math_random : M Q := fun h =>
  (random (cursor h),
   mkHook (mode h) (focusedSigil h) (timerRef h) (rendered h) (timers h)
          (next_id h) (S (cursor h)) (log h)).

(** [r.min + Math.random() * (r.max - r.min)] *)
Definition duration (r : Range) : M Q :=
  u <- Math_random ;; ret (min r + u * (max r - min r)).

(** [timerRef.current = setTimeout(cb, d)] *)
Definition arm (cb : Callback) (r : Range) : M unit :=
  d <- duration r ;; i <- setTimeout cb d ;; set_timerRef i.

(** [transitionToNextMode] as created by the render whose [mode] is
    [m]. *)
Definition transitionToNextMode (m : GuardianAIMode) : M unit :=
  let t := timings (config options) in
  let p := probabilities (config options) in
  match m with
  | idle =>
      rand <- Math_random ;;
      if ltb (energy (stats options)) 30 && ltb rand (idleToDream p) then
        setMode dreaming ;; arm DreamEnd (t_dreaming t)
      else if ltb rand (idleToObserve p) then
        setMode observing ;; arm ObserveEnd (t_observing t)
      else if gtb (curiosity (stats options)) 40
              && ltb rand (idleToFocus p + idleToObserve p) then
        setMode focusing ;; arm FocusEnd (t_focusing t)
      else
        arm (Retry m) (t_idle t)
  | _ => arm (Retry m) (t_idle t)
  end.

(** The body of each timer callback. *)
Definition run (cb : Callback) : M unit :=
  let t := timings (config options) in
  match cb with
  | DreamEnd => setMode idle ;; emit DreamComplete
  | ObserveEnd => setMode idle
  | FocusEnd =>
      setMode playing ;;
      u <- Math_random ;;
      match Js.index sigilPoints
              (Qfloor (u * inject_Z (Z.of_nat (List.length sigilPoints)))) with
      | Some randomSigil =>
          setFocusedSigil (Some (id randomSigil)) ;;
          emit (FocusChange (Some (id randomSigil))) ;;
          if onPlay options then emit Play else ret tt
      | None => ret tt
      end ;;
      arm PlayEnd (t_playing t)
  | PlayEnd =>
      setFocusedSigil None ;; emit (FocusChange None) ;; setMode idle
  | Retry m => transitionToNextMode m
  end.

(** The effect of the render with mode [m], and its cleanup. *)
Definition effect (m : GuardianAIMode) : M unit :=
  match m with
  | idle => transitionToNextMode m
  | _ => ret tt
  end.

Definition cleanup : M unit := fun h =>
  match timerRef h with
  | Some i => clearTimeout i h
  | None => (tt, h)
  end.

(** State set inside a timer callback or an effect is applied once that
    function has returned: the component renders again and, [mode] being
    a dependency of the effect, the cleanup of the previous render runs,
    then the effect of the new one.  Timeouts last seconds, so this render
    is over before any of them fires. *)
Definition commit : M unit := fun h =>
  if mode_eqb (mode h) (rendered h) then (tt, h)
  else (cleanup ;; set_rendered (mode h) ;; effect (mode h)) h.

(** The effect of a render can set the mode once more; a second render
    settles it. *)
Definition flush : M unit := commit ;; commit.

(** First render. *)
Definition mount : Hook := snd ((effect idle ;; flush) initial).

(** A pending timeout fires. *)
Definition fire (t : Timer) : M unit := fun h =>
  (set_timers (filter (fun t' => negb (Nat.eqb (tid t') (tid t))) (timers h)) ;;
   run (callback t) ;; flush) h.

(** The component renders again with a new [transitionToNextMode]
    because a dependency other than [mode] has a new identity. *)
Definition rerender : M unit := fun h =>
  (cleanup ;; effect (mode h) ;; flush) h.

Inductive step : Hook -> Hook -> Prop :=
  | step_fire : forall h t, In t (timers h) -> step h (snd (fire t h))
  | step_rerender : forall h, step h (snd (rerender h)).

Inductive reachable : Hook -> Prop :=
  | reach_mount : reachable mount
  | reach_step : forall h h', reachable h -> step h h' -> reachable h'.

End Machine.

End Behavior.

(* ================================================================== *)
(** * Concrete inputs and reference definitions used by the statements *)
(* ================================================================== *)

Module Scenarios.
Import Js.

(** The two digit sequences every field carries. *)
Definition PULSE : list Z :=
  [1; 1; 1; 5; 6; 2; 3; 9; 1; 0; 4; 3; 0; 8; 4; 3; 6; 3; 4; 5;
   4; 2; 7; 8; 9; 6; 4; 0; 9; 1; 9; 5; 1; 3; 8; 8; 1; 1; 9; 0;
   6; 7; 4; 2; 2; 7; 0; 3; 6; 9; 0; 6; 3; 2; 5; 0; 6; 0; 1; 7].

Definition RING : list Z :=
  [1; 3; 6; 9; 3; 2; 5; 4; 1; 5; 2; 7; 7; 0; 5; 3; 8; 2; 0; 6;
   6; 2; 4; 2; 6; 6; 2; 7; 7; 8; 9; 7; 4; 1; 7; 8; 5; 6; 9; 5;
   8; 3; 3; 0; 5; 7; 2; 8; 0; 4; 4; 8; 6; 8; 4; 4; 8; 3; 3; 2].

(** A 38-letter name whose field returns 1 on the first call of [prng]. *)
Definition unit_seed : jsstring := codes "DGGGGGGFFNKFMHNNPBJBELDIKHNLPMHOFOMANL".

(** The genome of the trinity scenario. *)
Definition trinity_genome : Evolution.BreedingGenome :=
  Evolution.mkGenome 90 40 30.

(** The vitals of the emotion scenario. *)
Definition cascade_vitals : Emotion.GuardianStats :=
  Emotion.mkStats (Emotion.n 90) (Emotion.n 80) (Emotion.n 20) (Emotion.n 90).

(** A first-match cascade over an ordered list of rules: the first rule
    whose predicate holds decides, the default answers when none does. *)
Fixpoint first_match {A B : Type} (rules : list ((A -> bool) * B)) (default : B)
    (a : A) : B :=
  match rules with
  | [] => default
  | (p, b) :: rest => if p a then b else first_match rest default a
  end.

(** The rules of [calculateEmotionalResponse] as an ordered list of
    predicate and result, to be tried first to last. *)
Definition emotion_rules
  : list ((Emotion.GuardianStats * Emotion.PersonalityTraits -> bool)
          * Emotion.ExpandedEmotionalState) :=
  let n := Emotion.n in
  let mood := fun vt => Emotion.mood (fst vt) in
  let energy := fun vt => Emotion.energy (fst vt) in
  let hunger := fun vt => Emotion.hunger (fst vt) in
  let hygiene := fun vt => Emotion.hygiene (fst vt) in
  let energyTrait := fun vt => Emotion.t_energy (snd vt) in
  let affection := fun vt => Emotion.t_affection (snd vt) in
  let curiosity := fun vt => Emotion.t_curiosity (snd vt) in
  [ (fun vt => gt (hunger vt) (n 80), Emotion.yearning);
    (fun vt => lt (hygiene vt) (n 30), Emotion.overwhelmed);
    (fun vt => lt (energy vt) (n 20), Emotion.withdrawn);
    (fun vt => gt (mood vt) (n 85) && gt (energy vt) (n 70), Emotion.ecstatic);
    (fun vt => gt (mood vt) (n 75) && gt (energyTrait vt) (n 60), Emotion.playful);
    (fun vt => gt (mood vt) (n 75) && gt (curiosity vt) (n 60), Emotion.curious);
    (fun vt => gt (mood vt) (n 60) && gt (affection vt) (n 60), Emotion.affectionate);
    (fun vt => gt (mood vt) (n 50) && lt (mood vt) (n 70), Emotion.calm);
    (fun vt => gt (mood vt) (n 50) && gt (curiosity vt) (n 70), Emotion.contemplative);
    (fun vt => lt (mood vt) (n 40), Emotion.melancholic);
    (fun vt => gt (energy vt) (n 60) && lt (mood vt) (n 50), Emotion.restless) ].

(** A generator whose first three draws sit just below 1 (mutations just
    below +15) and whose later draws sit below the 5% threshold. *)
Definition high_draws (c : nat) : Q * nat :=
  (if Nat.ltb c 3 then 999 # 1000 else 1 # 100, S c).

(** Both parents of the breeding example, at the top of every axis. *)
Definition full_genome : Evolution.BreedingGenome :=
  Evolution.mkGenome 100 100 100.

(** A tired guardian under the default configuration, with [onPlay]. *)
Definition tired : Behavior.Options :=
  Behavior.mkOptions Behavior.DEFAULT_AI_CONFIG
    (Behavior.mkStats 10 50 50 50) true.

Definition three_sigils : list Behavior.GuardianSigilPoint :=
  [Behavior.mkSigil 0 0 0 0 0; Behavior.mkSigil 1 0 0 0 0;
   Behavior.mkSigil 2 0 0 0 0].

(** [Math.random] returning the same value at every call. *)
Definition always (u : Q) : nat -> Q := fun _ => u.

(** A hook at rest between two events: the last render has seen the
    current mode, and the only timeout that can be pending is the idle
    retry held in [timerRef]. *)
Definition settled (h : Behavior.Hook) : Prop :=
  Behavior.rendered h = Behavior.mode h /\
  (Behavior.timers h = [] \/
   (Behavior.mode h = Behavior.idle /\
    exists i d,
      Behavior.timers h
      = [Behavior.mkTimer i (Behavior.Retry Behavior.idle) d] /\
      Behavior.timerRef h = Some i)).

(** A settled hook none of whose callbacks has been called. *)
Definition quiet (h : Behavior.Hook) : Prop :=
  settled h /\ Behavior.log h = [] /\ Behavior.focusedSigil h = None /\
  Behavior.mode h <> Behavior.playing.

End Scenarios.

(* ================================================================== *)
(** * Array helpers *)
(* ================================================================== *)

Module ArrayOps.

(** [a.slice(-k)] for a positive [k]: the last [k] elements, all of them
    when there are fewer. *)
Definition slice_last {A : Type} (k : nat) (a : list A) : list A :=
  skipn (List.length a - k) a.

End ArrayOps.

(* ================================================================== *)
(** * guardianBehaviorStubs.tsx: helpers, drives, comfort, interaction *)
(* ================================================================== *)

Module Stubs.
Import Js.
Local Open Scope Q_scope.

Definition getUnlockedLore (dreamCount : Q) : list string :=
  (if geb dreamCount 1
   then ["The Guardian awakens to sacred geometry..."%string] else [])
  ++ (if geb dreamCount 3
      then ["Fibonacci sequences dance in the quantum foam..."%string] else [])
  ++ (if geb dreamCount 5
      then ["The MossPrimeSeed reveals ancient patterns..."%string] else [])
  ++ (if geb dreamCount 10
      then ["Unity emerges from deterministic chaos..."%string] else [])
  ++ (if geb dreamCount 20
      then ["Consciousness transcends the code boundary..."%string] else []).

Record GuardianPosition : Type := mkPosition {
  x : Q;
  y : Q;
  vx : Q;
  vy : Q
}.

Record GuardianField : Type := mkGuardianField {
  width : Q;
  height : Q;
  centerX : Q;
  centerY : Q
}.

(** The drive object [calculateDrives] builds: its four keys, in the
    order they are written. *)
Record GuardianDrive : Type := mkDrive {
  explore : Q;
  rest : Q;
  play : Q;
  focus : Q
}.

Record ComfortState : Type := mkComfort {
  physical : Q;
  mental : Q;
  emotional : Q;
  overall : Q;
  source : string;
  unmetNeeds : list string
}.

Record GBSPState : Type := mkGBSP {
  drives : GuardianDrive;
  comfort : ComfortState;
  emotionalState : string;
  awareness : Q;
  sentiment : Q;
  position : GuardianPosition
}.

Definition calculateDrives (position : GuardianPosition) (field : GuardianField)
    (vitals : Behavior.GuardianStats) (awareness timestamp : Q)
    : GuardianDrive :=
  let energy := Behavior.energy vitals in
  let curiosity := Behavior.curiosity vitals in
  {| explore := Qmin 100 (curiosity * (8 # 10) + awareness * (2 # 10));
     rest := Qmax 0 (100 - energy);
     play := Qmin 100 (energy * (6 # 10) + curiosity * (4 # 10));
     focus := Qmin 100 (curiosity * (7 # 10)
                        + Behavior.bond vitals * (3 # 10)) |}.

(** [calculateComfort] on an object of [calculateDrives]:
    [Object.values] lists its four values. *)
Definition calculateComfort (drives : GuardianDrive) : ComfortState :=
  let driveValues := [explore drives; rest drives; play drives; focus drives] in
  let avgDrive :=
    fold_left Qplus driveValues 0
    / inject_Z (Z.of_nat (List.length driveValues)) in
  let physical := Qmin 100 (rest drives * (5 # 10) + 50) in
  let mental := Qmin 100 (focus drives * (6 # 10) + 40) in
  let emotional := Qmin 100 (play drives * (7 # 10) + 30) in
  let overall := Qmin 100 avgDrive in
  let unmetNeeds :=
    (if ltb physical 50 then ["rest"%string] else [])
    ++ (if ltb mental 50 then ["focus"%string] else [])
    ++ (if ltb emotional 50 then ["play"%string] else []) in
  let source :=
    if gtb physical mental && gtb physical emotional then "physical"%string
    else if gtb mental emotional then "mental"%string
    else if gtb emotional 50 then "emotional"%string
    else "balanced"%string in
  {| physical := physical; mental := mental; emotional := emotional;
     overall := overall; source := source; unmetNeeds := unmetNeeds |}.

Definition getExpandedEmotionalState (drives : GuardianDrive)
    (comfort : ComfortState) (vitals : Behavior.GuardianStats)
    (aiMode : Behavior.GuardianAIMode) : string :=
  if Behavior.mode_eqb aiMode Behavior.dreaming then "dreaming"%string
  else if Behavior.mode_eqb aiMode Behavior.focusing then "focused"%string
  else if gtb (play drives) 70 then "playful"%string
  else if ltb (Behavior.energy vitals) 30 then "tired"%string
  else if gtb (explore drives) 70 then "curious"%string
  else if gtb (Behavior.bond vitals) 70 then "joyful"%string
  else if gtb (overall comfort) 60 then "content"%string
  else if ltb (overall comfort) 40 then "anxious"%string
  else "neutral"%string.

Definition calculateGBSPState (position : GuardianPosition)
    (field : GuardianField) (vitals : Behavior.GuardianStats)
    (aiMode : Behavior.GuardianAIMode) (timestamp : Q) : GBSPState :=
  let awareness :=
    Qmin 100 ((Behavior.curiosity vitals + Behavior.energy vitals) / 2) in
  let drives := calculateDrives position field vitals awareness timestamp in
  let comfort := calculateComfort drives in
  let emotionalState := getExpandedEmotionalState drives comfort vitals aiMode in
  let sentiment := overall comfort in
  {| drives := drives; comfort := comfort; emotionalState := emotionalState;
     awareness := awareness; sentiment := sentiment; position := position |}.

(** ** useGuardianInteraction *)

Inductive InteractionType : Type :=
  | poke | pet | tickle | shake | drag | grab | release.

Record InteractionResponse : Type := mkResponse {
  type : InteractionType;
  intensity : Q;
  message : option string
}.

(** [Partial<GuardianStats>]: [None] for a key that is not set. *)
Record StatChanges : Type := mkChanges {
  c_energy : option Q;
  c_curiosity : option Q;
  c_bond : option Q;
  c_health : option Q
}.

Definition no_change : StatChanges := mkChanges None None None None.

(** The calls a handler makes on the [handlers] it was given, in order. *)
Inductive Call : Type :=
  | onReaction (response : InteractionResponse)
  | onStatChange (changes : StatChanges).

(** The three refs of the hook. *)
Record Refs : Type := mkRefs {
  lastInteraction : Q;
  pokeCount : Z;
  lastPokeTime : Q
}.

Definition initial_refs : Refs := mkRefs 0 0 0.

(** Each handler, with the [stats] its closure holds and the value
    [Date.now()] returns: the calls it makes and the refs it leaves. *)
Definition handlePoke (stats : Behavior.GuardianStats) (now : Q) (r : Refs)
    : list Call * Refs :=
  let count :=
    if ltb (now - lastPokeTime r) 500 then (pokeCount r + 1)%Z else 1%Z in
  if (3 <=? count)%Z then
    ([onReaction (mkResponse tickle 1 (Some "Hehe!"%string));
      onStatChange
        (mkChanges (Some (Qmin 100 (Behavior.energy stats + 5))) None None None)],
     mkRefs now 0 now)
  else
    ([onReaction (mkResponse poke (5 # 10) (Some "Hey!"%string));
      onStatChange
        (mkChanges None (Some (Qmin 100 (Behavior.curiosity stats + 2))) None None)],
     mkRefs now count now).

Definition handlePet (stats : Behavior.GuardianStats) (now : Q) (r : Refs)
    : list Call * Refs :=
  ([onReaction (mkResponse pet (7 # 10) (Some "Purr~"%string));
    onStatChange
      (mkChanges None None (Some (Qmin 100 (Behavior.bond stats + 3))) None)],
   mkRefs now (pokeCount r) (lastPokeTime r)).

Definition handleGrab (now : Q) (r : Refs) : list Call * Refs :=
  ([onReaction (mkResponse grab (6 # 10) (Some "Hey!"%string))],
   mkRefs now (pokeCount r) (lastPokeTime r)).

Definition handleShake (stats : Behavior.GuardianStats) (intensity now : Q)
    (r : Refs) : list Call * Refs :=
  ([onReaction (mkResponse shake intensity (Some "Whoa!"%string));
    onStatChange
      (mkChanges
         (Some (Qmax 0 (Behavior.energy stats
                        - inject_Z (Qfloor (intensity * 3)))))
         None None None)],
   mkRefs now (pokeCount r) (lastPokeTime r)).

Definition handleRelease (now : Q) (r : Refs) : list Call * Refs :=
  ([onReaction (mkResponse release (3 # 10) (Some "Free!"%string))],
   mkRefs now (pokeCount r) (lastPokeTime r)).

Definition handleTickle (stats : Behavior.GuardianStats) (now : Q) (r : Refs)
    : list Call * Refs :=
  ([onReaction (mkResponse tickle (8 # 10) (Some "Hehe!"%string));
    onStatChange
      (mkChanges (Some (Qmin 100 (Behavior.energy stats + 5))) None None None)],
   mkRefs now (pokeCount r) (lastPokeTime r)).

(** The reaction types among the calls of one handler run. *)
Definition reactions (calls : list Call) : list InteractionType :=
  flat_map (fun c => match c with
                     | onReaction response => [type response]
                     | onStatChange _ => []
                     end) calls.

(** The values a handler run passes to [onStatChange]. *)
Definition sent (calls : list Call) : list Q :=
  flat_map (fun c => match c with
                     | onReaction _ => []
                     | onStatChange ch =>
                         let opt o := match o with Some v => [v] | None => [] end in
                         opt (c_energy ch) ++ opt (c_curiosity ch)
                         ++ opt (c_bond ch) ++ opt (c_health ch)
                     end) calls.

(** Times that each come less than 500 ms after the one before,
    [last] being the time before the first. *)
Fixpoint rapid (last : Q) (times : list Q) : Prop :=
  match times with
  | [] => True
  | t :: ts => t - last < 500 /\ rapid t ts
  end.

(** A run of pokes at the given times, the closure data unchanged. *)
Fixpoint pokes (stats : Behavior.GuardianStats) (times : list Q) (r : Refs)
    : list (list Call) * Refs :=
  match times with
  | [] => ([], r)
  | now :: rest =>
      let '(calls, r1) := handlePoke stats now r in
      let '(more, r2) := pokes stats rest r1 in
      (calls :: more, r2)
  end.

End Stubs.

(* ================================================================== *)
(** * The main component: stat changes, bond history, pattern game *)
(* ================================================================== *)

Module Component.
Import Js ArrayOps.
Local Open Scope Q_scope.

Record BondHistoryEntry : Type := mkEntry {
  timestamp : Q;
  bond : Q;
  event : string
}.

(** The slice of component state the handlers below write. *)
Record Vitals : Type := mkVitals {
  energy : Q;
  curiosity : Q;
  bondLevel : Q;
  bondHistory : list BondHistoryEntry
}.

Definition clamp100 (v : Q) : Q := Qmax 0 (Qmin 100 v).

(** [handleInteractionStatChange], with the value of [Date.now()]. *)
Definition handleInteractionStatChange (changes : Stubs.StatChanges) (now : Q)
    (st : Vitals) : Vitals :=
  let energy' :=
    match Stubs.c_energy changes with
    | Some d => clamp100 (energy st + d)
    | None => energy st
    end in
  let curiosity' :=
    match Stubs.c_curiosity changes with
    | Some d => clamp100 (curiosity st + d)
    | None => curiosity st
    end in
  match Stubs.c_bond changes with
  | Some d =>
      let newBond := clamp100 (bondLevel st + d) in
      let history :=
        if gtb d 0
        then slice_last 50 (bondHistory st) ++ [mkEntry now newBond "Interaction"]
        else bondHistory st in
      mkVitals energy' curiosity' newBond history
  | None => mkVitals energy' curiosity' (bondLevel st) (bondHistory st)
  end.

(** [addToBondHistory], with the [bond] its closure holds. *)
Definition addToBondHistory (bond : Q) (event : string) (now : Q)
    (prev : list BondHistoryEntry) : list BondHistoryEntry :=
  slice_last 29 prev ++ [mkEntry now bond event].




End Component.

(* ================================================================== *)
(** * Invariants of the behaviour machine *)
(* ================================================================== *)

Module Invariants.
Import Js.
Local Open Scope Q_scope.

(** A hook that keeps evaluating while idle: the last render has seen the
    current mode; in idle mode exactly the latest timeout is pending, it
    is the idle retry held in [timerRef] and its delay lies in the idle
    range; in any other mode nothing is pending; and two draws of
    [Math.random] have been made for every timeout ever set. *)
Definition evaluating (options : Behavior.Options) (h : Behavior.Hook) : Prop :=
  let range := Behavior.t_idle (Behavior.timings (Behavior.config options)) in
  Behavior.rendered h = Behavior.mode h /\
  (Behavior.mode h = Behavior.idle ->
   exists i d,
     Behavior.timers h = [Behavior.mkTimer i (Behavior.Retry Behavior.idle) d] /\
     Behavior.timerRef h = Some i /\ Behavior.next_id h = S i /\
     Behavior.min range <= d <= Behavior.max range) /\
  (Behavior.mode h <> Behavior.idle -> Behavior.timers h = []) /\
  (2 <= Behavior.next_id h)%nat /\
  Behavior.cursor h = (2 * (Behavior.next_id h - 1))%nat.

(** The states a run of events leads to from [h]: [h] itself, and any
    state one more step after such a state. *)
Inductive follows (sigilPoints : list Behavior.GuardianSigilPoint)
    (options : Behavior.Options) (random : nat -> Q) (h : Behavior.Hook)
    : Behavior.Hook -> Prop :=
  | follows_here : follows sigilPoints options random h h
  | follows_step : forall h1 h2,
      follows sigilPoints options random h h1 ->
      Behavior.step sigilPoints options random h1 h2 ->
      follows sigilPoints options random h h2.

(** [Math.random] returning 0.9 at its first two calls and 0.1 from
    then on: the first evaluation keeps a tired guardian idle, the
    second one sends it dreaming. *)
Definition dream_on_second (n : nat) : Q :=
  if (n <? 2)%nat then 9 # 10 else 1 # 10.

End Invariants.

(* ================================================================== *)
(** * The consciousness engine: styles *)
(* ================================================================== *)

Module Mind.
Import Js Emotion.

(** [styleMap[emotion] || 'neutral']: the map has a key for each of the
    fifteen states and none of its values is the empty string, so the
    fallback is never taken. *)
Definition emotionToStyle (emotion : ExpandedEmotionalState) : string :=
  match emotion with
  | serene => "peaceful"
  | calm => "neutral"
  | curious => "engaged"
  | playful => "joyful"
  | contemplative => "thoughtful"
  | affectionate => "loving"
  | restless => "active"
  | yearning => "longing"
  | overwhelmed => "distressed"
  | withdrawn => "introspective"
  | ecstatic => "euphoric"
  | melancholic => "sorrowful"
  | mischievous => "playful"
  | protective => "vigilant"
  | transcendent => "enlightened"
  end%string.

End Mind.

(* ================================================================== *)
(** * auralia/consciousness.ts: modulation, memory, personality drift *)
(* ================================================================== *)

Module Consciousness.
Import Js ArrayOps.
Local Open Scope Q_scope.

Record PersonalityTraits : Type := mkPersonality {
  temperament : string;
  energy : Q;
  playfulness : Q;
  independence : Q;
  affection : Q;
  social : Q;
  curiosity : Q;
  discipline : Q
}.

(** [Partial<PersonalityTraits>]: [None] for a key that is not set. *)
Record PartialTraits : Type := mkPartial {
  p_temperament : option string;
  p_energy : option Q;
  p_playfulness : option Q;
  p_independence : option Q;
  p_affection : option Q;
  p_social : option Q;
  p_curiosity : option Q;
  p_discipline : option Q
}.

(** The object [{}]. *)
Definition no_drift : PartialTraits :=
  mkPartial None None None None None None None None.

Record GuardianDrive : Type := mkDrive {
  resonance : Q;
  exploration : Q;
  connection : Q;
  rest : Q;
  expression : Q
}.

Definition clamp (value min max : Q) : Q := Qmax min (Qmin max value).

Definition applyGeneticModulation (baseDrives : GuardianDrive)
    (personality : PersonalityTraits) : GuardianDrive :=
  let energyMod := (energy personality - 50) / 100 in
  let curiosityMod := (curiosity personality - 50) / 100 in
  let socialMod :=
    ((social personality + affection personality) / 2 - 50) / 100 in
  let independenceMod := (independence personality - 50) / 100 in
  let disciplineMod := (discipline personality - 50) / 100 in
  let playfulnessMod := (playfulness personality - 50) / 150 in
  {| resonance :=
       clamp (resonance baseDrives * (1 + disciplineMod * (3 # 10))) 0 1;
     exploration :=
       clamp (exploration baseDrives
              * (1 + energyMod * (4 # 10) + curiosityMod * (6 # 10))) 0 1;
     connection :=
       clamp (connection baseDrives
              * (1 + socialMod * (5 # 10) - independenceMod * (3 # 10))) 0 1;
     rest :=
       clamp (rest baseDrives
              * (1 - energyMod * (3 # 10) - disciplineMod * (2 # 10))) 0 1;
     expression :=
       clamp (expression baseDrives * (1 + playfulnessMod * (4 # 10))) 0 1 |}.

(** Drives within [0, 1], the range the type is documented with. *)
Definition unit_drives (d : GuardianDrive) : Prop :=
  0 <= resonance d <= 1 /\ 0 <= exploration d <= 1 /\
  0 <= connection d <= 1 /\ 0 <= rest d <= 1 /\ 0 <= expression d <= 1.

Record ActionMemory : Type := mkMemory {
  action : string;
  emotion : string;
  timestamp : Q;
  impact : Q
}.

(** A [Map] from strings to counts: its entries in insertion order.
    [get] is [None] for a missing key; [set] on a key already present
    replaces its value where it stands. *)
Definition CountMap : Type := list (string * Z).

Fixpoint get (m : CountMap) (k : string) : option Z :=
  match m with
  | [] => None
  | (k', v) :: rest => if String.eqb k' k then Some v else get rest k
  end.

Fixpoint set (m : CountMap) (k : string) (v : Z) : CountMap :=
  match m with
  | [] => [(k, v)]
  | (k', v') :: rest =>
      if String.eqb k' k then (k', v) :: rest else (k', v') :: set rest k v
  end.

(** [m.get(k) || 0] *)
Definition get_or_0 (m : CountMap) (k : string) : Z :=
  match get m k with
  | Some v => if (v =? 0)%Z then 0%Z else v
  | None => 0%Z
  end.

(** The loop of [calculatePersonalityDrift] over the recent history. *)
Definition count_actions (recentHistory : list ActionMemory) : CountMap :=
  fold_left
    (fun actionCounts memory =>
       set actionCounts (action memory)
           (get_or_0 actionCounts (action memory) + 1)%Z)
    recentHistory [].

(** [Math.floor(count / d)] of a count. *)
Definition floor_div (count : Z) (d : Q) : Q :=
  inject_Z (Qfloor (inject_Z count / d)).

Definition calculatePersonalityDrift (history : list ActionMemory)
    (baseTraits : PersonalityTraits) : PartialTraits :=
  if (List.length history <? 20)%nat then no_drift
  else
    let recentHistory := slice_last 50 history in
    let actionCounts := count_actions recentHistory in
    let playCount :=
      (get_or_0 actionCounts "play"
       + get_or_0 actionCounts "minigame_victory")%Z in
    let feedCount := get_or_0 actionCounts "feed" in
    let socialCount :=
      (get_or_0 actionCounts "play" + get_or_0 actionCounts "breeding")%Z in
    let exploreCount :=
      (get_or_0 actionCounts "exploration_discovery"
       + get_or_0 actionCounts "exploration_anomaly")%Z in
    let positiveCount :=
      Z.of_nat (List.length
                  (filter (fun m => gtb (impact m) (3 # 10)) recentHistory)) in
    let negativeCount :=
      Z.of_nat (List.length
                  (filter (fun m => ltb (impact m) (- (3 # 10))) recentHistory)) in
    {| p_temperament := None;
       p_energy :=
         if (negativeCount + 5 <? positiveCount)%Z
         then Some (Qmin (energy baseTraits + 5) (energy baseTraits + 10))
         else if (positiveCount + 5 <? negativeCount)%Z
         then Some (Qmax (energy baseTraits - 5) (energy baseTraits - 10))
         else None;
       p_playfulness :=
         if (5 <? playCount)%Z
         then Some (Qmin (playfulness baseTraits + floor_div playCount 3)
                         (playfulness baseTraits + 10))
         else None;
       p_independence := None;
       p_affection := None;
       p_social :=
         if (8 <? socialCount)%Z
         then Some (Qmin (social baseTraits + floor_div socialCount 4)
                         (social baseTraits + 10))
         else None;
       p_curiosity :=
         if (3 <? exploreCount)%Z
         then Some (Qmin (curiosity baseTraits + floor_div exploreCount 2)
                         (curiosity baseTraits + 12))
         else None;
       p_discipline :=
         if (5 <? feedCount)%Z
         then Some (Qmin (discipline baseTraits + floor_div feedCount 4)
                         (discipline baseTraits + 8))
         else None |}.

Record Memory : Type := mkMemoryState {
  actionHistory : list ActionMemory;
  emotionalPatterns : CountMap;
  personalityDrift : PartialTraits
}.

(** The state; [recordExperience] and [getEffectivePersonality] carry its
    [expression] and [context] along without reading them. *)
Record ConsciousnessState (Expression Surroundings : Type) : Type := mkState {
  traits : PersonalityTraits;
  essence : string;
  expressed : Expression;
  memory : Memory;
  context : Surroundings
}.

Arguments mkState {Expression Surroundings}.
Arguments traits {Expression Surroundings}.
Arguments essence {Expression Surroundings}.
Arguments expressed {Expression Surroundings}.
Arguments memory {Expression Surroundings}.
Arguments context {Expression Surroundings}.

Section Experience.
Context {Expression Surroundings : Type}.

(** [recordExperience], with the value of [Date.now()]. *)
Definition recordExperience (consciousness : ConsciousnessState Expression Surroundings)
    (action emotion : string) (impact now : Q)
    : ConsciousnessState Expression Surroundings :=
  let newMemory := mkMemory action emotion now impact in
  let actionHistory :=
    slice_last 100 (actionHistory (memory consciousness) ++ [newMemory]) in
  let emotionalPatterns :=
    set (emotionalPatterns (memory consciousness)) emotion
        (get_or_0 (emotionalPatterns (memory consciousness)) emotion + 1)%Z in
  let personalityDrift :=
    calculatePersonalityDrift actionHistory (traits consciousness) in
  mkState (traits consciousness) (essence consciousness)
          (expressed consciousness)
          (mkMemoryState actionHistory emotionalPatterns personalityDrift)
          (context consciousness).

Definition getEffectivePersonality
    (consciousness : ConsciousnessState Expression Surroundings)
    : PersonalityTraits :=
  let t := traits consciousness in
  let d := personalityDrift (memory consciousness) in
  let over {A : Type} (o : option A) (v : A) : A :=
    match o with Some w => w | None => v end in
  {| temperament := over (p_temperament d) (temperament t);
     energy := over (p_energy d) (energy t);
     playfulness := over (p_playfulness d) (playfulness t);
     independence := over (p_independence d) (independence t);
     affection := over (p_affection d) (affection t);
     social := over (p_social d) (social t);
     curiosity := over (p_curiosity d) (curiosity t);
     discipline := over (p_discipline d) (discipline t) |}.

(** The experiences of a list, recorded one after the other; each comes
    with its action, its emotion, its impact and its time. *)
Fixpoint record_all (consciousness : ConsciousnessState Expression Surroundings)
    (experiences : list ActionMemory)
    : ConsciousnessState Expression Surroundings :=
  match experiences with
  | [] => consciousness
  | e :: rest =>
      record_all (recordExperience consciousness (action e) (emotion e)
                                   (impact e) (timestamp e)) rest
  end.
End Experience.

End Consciousness.

(* ================================================================== *)
(** * Properties of the seeded field generator *)
(* ================================================================== *)

Module FieldProofs.
Import Js MossPrime Scenarios.

Lemma and32_15_range (a : Z) : 0 <= and32 a 15 < 16.
Proof.
  unfold and32.
  change (ToInt32 15) with (Z.ones 4).
  rewrite Z.land_ones by lia.
  set (v := ToInt32 a mod 2 ^ 4).
  assert (Hv : 0 <= v < 2 ^ 4) by (apply Z.mod_pos_bound; lia).
  change (2 ^ 4) with 16 in Hv.
  unfold ToInt32, ToUint32.
  rewrite Z.mod_small by (change (2 ^ 32) with 4294967296; lia).
  destruct (v <? 2 ^ 31) eqn:E; [lia|].
  apply Z.ltb_ge in E. change (2 ^ 31) with 2147483648 in E. lia.
Qed.

Lemma hexval_table (k : nat) :
  (k < 16)%nat -> exists d, hexval (nth k table 0) = Some d.
Proof.
  intros Hk.
  do 16 (destruct k as [|k]; [eexists; reflexivity|]).
  lia.
Qed.

(** Every string [base10ToHex] builds parses as a hexadecimal numeral. *)
Lemma parse_base10ToHex (s : jsstring) :
  forall i acc a, exists z, parse_hex a (base10ToHex_from i acc s) = Some z.
Proof.
  induction s as [|ch s IH]; intros i acc a; cbn [base10ToHex_from parse_hex].
  - eexists; reflexivity.
  - set (acc' := and32 (ushr0 (acc * 17 + (ch - 48))) 4294967295).
    destruct (hexval_table (Z.to_nat (and32 (xor32 acc' (i * 7)) 15))) as [d Hd].
    + pose proof (and32_15_range (xor32 acc' (i * 7))). lia.
    + rewrite Hd. apply IH.
Qed.

Lemma initField_unfold (name : jsstring) :
  initField name =
  match BigInt_of_hex (base10ToHex (interleave3 RED BLACK BLUE ++ name)) with
  | Some sb =>
      Some {| seed := name; red := RED; black := BLACK; blue := BLUE;
              ring := RING; pulse := PULSE; seedBI := sb;
              s0 := mix64 sb;
              s1 := mix64 (Z.lxor sb 0xa5a5a5a5a5a5a5a5) |}
  | None => None
  end.
Proof.
  unfold initField.
  replace (toDigits RED) with (Some (map (fun c => c - 48) RED))
    by (vm_compute; reflexivity).
  replace (toDigits BLACK) with (Some (map (fun c => c - 48) BLACK))
    by (vm_compute; reflexivity).
  replace (toDigits BLUE) with (Some (map (fun c => c - 48) BLUE))
    by (vm_compute; reflexivity).
  cbv iota beta.
  destruct (BigInt_of_hex _); reflexivity.
Qed.

(** [initField] never throws. *)
Lemma initField_total (name : jsstring) : exists F, initField name = Some F.
Proof.
  rewrite initField_unfold.
  change (interleave3 RED BLACK BLUE ++ name)
    with (nth 0 RED 0 :: (tl (interleave3 RED BLACK BLUE) ++ name)).
  unfold base10ToHex.
  cbn [base10ToHex_from BigInt_of_hex].
  destruct (parse_base10ToHex
              (nth 0 RED 0 :: (tl (interleave3 RED BLACK BLUE) ++ name)) 0 0 0)
    as [z Hz].
  cbn [base10ToHex_from] in Hz.
  rewrite Hz. eexists; reflexivity.
Qed.

Lemma initField_pulse_ring (name : jsstring) (F : Field) :
  initField name = Some F -> pulse F = PULSE /\ ring F = RING.
Proof.
  rewrite initField_unfold.
  destruct (BigInt_of_hex _); [|discriminate].
  intros H; injection H as <-. split; reflexivity.
Qed.

(** A call of [prng] leaves everything but the two state words alone. *)
Lemma prng_seedBI (F : Field) : seedBI (snd (prng F)) = seedBI F.
Proof. reflexivity. Qed.

Lemma draws_seedBI (n : nat) : forall F, seedBI (draws n F) = seedBI F.
Proof.
  induction n as [|n IH]; intros F; cbn [draws].
  - reflexivity.
  - rewrite IH. apply prng_seedBI.
Qed.

Lemma draws_pulse_ring (n : nat) :
  forall F, pulse (draws n F) = pulse F /\ ring (draws n F) = ring F.
Proof.
  induction n as [|n IH]; intros F; cbn [draws].
  - split; reflexivity.
  - destruct (IH (snd (prng F))) as [E1 E2]. rewrite E1, E2.
    split; reflexivity.
Qed.

(** C1. Two fields built from the same name exist, carry the same pulse
    and ring arrays and give the same hash of every message, whatever the
    number of [prng] draws taken from either of them; [hash] hands the
    field back as it received it, and works on integers only (its result
    is the [Z] computed by [hash_from] with xor, shift, product, sum and
    mask). *)
Theorem field_determinism (name : jsstring) :
  (exists F, initField name = Some F) /\
  forall F1 F2, initField name = Some F1 -> initField name = Some F2 ->
    pulse F1 = pulse F2 /\ ring F1 = ring F2 /\
    (forall msg n1 n2,
        fst (hash (draws n1 F1) msg) = fst (hash (draws n2 F2) msg) /\
        pulse (draws n1 F1) = pulse (draws n2 F2) /\
        ring (draws n1 F1) = ring (draws n2 F2)) /\
    (forall msg F, snd (hash F msg) = F /\
                   fst (hash F msg) = hash_from 0 (seedBI F) msg).
Proof.
  split; [apply initField_total|].
  intros F1 F2 H1 H2.
  assert (E : F1 = F2) by congruence. subst F2.
  repeat split; try reflexivity.
  - unfold hash; simpl. now rewrite !draws_seedBI.
  - destruct (draws_pulse_ring n1 F1) as [-> _].
    destruct (draws_pulse_ring n2 F1) as [-> _]. reflexivity.
  - destruct (draws_pulse_ring n1 F1) as [_ ->].
    destruct (draws_pulse_ring n2 F1) as [_ ->]. reflexivity.
Qed.

Lemma field_determinism_witness :
  exists F, initField (codes "AURALIA") = Some F /\
            fst (hash (draws 3 F) (codes "X")) = fst (hash (draws 0 F) (codes "X")).
Proof.
  destruct (initField (codes "AURALIA")) as [F|] eqn:E.
  - exists F. split; [reflexivity|].
    exact (proj1 (proj1 (proj2 (proj2
             (proj2 (field_determinism (codes "AURALIA")) F F E E)))
             (codes "X") 3%nat 0%nat)).
  - exfalso. vm_compute in E. discriminate.
Defined.

(** C10. The pulse and ring arrays are the same for every name, and so
    are the genome of a breeding partner and the genome computed for any
    vitals. *)
Theorem pulse_ring_ignore_name (name1 name2 : jsstring) (F1 F2 : Field) :
  initField name1 = Some F1 -> initField name2 = Some F2 ->
  pulse F1 = pulse F2 /\ ring F1 = ring F2 /\
  pulse F1 = PULSE /\ ring F1 = RING /\
  Genome.partnerGenome F1 = Genome.partnerGenome F2 /\
  forall energy curiosity bond health,
    Genome.computeGenome F1 energy curiosity bond health
    = Genome.computeGenome F2 energy curiosity bond health.
Proof.
  intros H1 H2.
  destruct (initField_pulse_ring _ _ H1) as [P1 R1].
  destruct (initField_pulse_ring _ _ H2) as [P2 R2].
  unfold Genome.partnerGenome, Genome.computeGenome.
  rewrite P1, P2, R1, R2. repeat split; reflexivity.
Qed.

Lemma pulse_ring_ignore_name_witness :
  exists F1 F2,
    initField (codes "AURALIA") = Some F1 /\ initField (codes "ZED") = Some F2 /\
    Genome.partnerGenome F1 = Genome.partnerGenome F2.
Proof.
  destruct (initField (codes "AURALIA")) as [F1|] eqn:E1;
    [|exfalso; vm_compute in E1; discriminate].
  destruct (initField (codes "ZED")) as [F2|] eqn:E2;
    [|exfalso; vm_compute in E2; discriminate].
  exists F1, F2. split; [reflexivity|]. split; [reflexivity|].
  exact (proj1 (proj2 (proj2 (proj2 (proj2
           (pulse_ring_ignore_name (codes "AURALIA") (codes "ZED") F1 F2 E1 E2)))))).
Defined.


(** ** The range of [prng] *)

Lemma mask64 (x : Z) : 0 <= Z.land x (Z.shiftl 1 64 - 1) < 2 ^ 64.
Proof.
  change (Z.shiftl 1 64 - 1) with (Z.ones 64).
  rewrite Z.land_ones by lia. apply Z.mod_pos_bound. lia.
Qed.

(** On 64-bit values [Number] stays within [0, 2^64], and it rounds up to
    2^64 exactly on the top 1024 of them. *)
Lemma Number_of_bigint_64 (b : Z) :
  0 <= b < 2 ^ 64 ->
  0 <= Number_of_bigint b <= 2 ^ 64 /\
  (Number_of_bigint b = 2 ^ 64 <-> 2 ^ 64 - 1024 <= b).
Proof.
  intros Hb. unfold Number_of_bigint.
  rewrite Z.abs_eq by lia.
  destruct (Z.eq_dec b 0) as [->|Hnz].
  { cbn. split; [lia|]. split; intros; lia. }
  assert (Hpos : 0 < b) by lia.
  pose proof (Z.log2_spec b Hpos) as [Hlo Hhi].
  assert (Hl64 : Z.log2 b < 64) by (apply Z.log2_lt_pow2; lia).
  pose proof (Z.log2_nonneg b) as Hl0.
  destruct (Z.log2 b + 1 <=? 53) eqn:E.
  - apply Z.leb_le in E.
    assert (2 ^ Z.succ (Z.log2 b) <= 2 ^ 53) by (apply Z.pow_le_mono_r; lia).
    change (2 ^ 53) with 9007199254740992 in *.
    change (2 ^ 64) with 18446744073709551616 in *.
    lia.
  - apply Z.leb_gt in E.
    rewrite Z.shiftr_div_pow2, Z.land_ones, Z.shiftl_mul_pow2 by lia.
    rewrite (Z.shiftl_mul_pow2 1) by lia.
    rewrite Z.sgn_pos by lia.
    remember (Z.log2 b) as l eqn:El.
    assert (Hcase : l = 53 \/ l = 54 \/ l = 55 \/ l = 56 \/ l = 57 \/ l = 58 \/
                    l = 59 \/ l = 60 \/ l = 61 \/ l = 62 \/ l = 63) by lia.
    clear El E Hl64 Hl0.
    repeat (destruct Hcase as [Hcase|Hcase]); subst l.
    all: cbn [Z.add Z.sub Z.opp Z.succ Pos.add Pos.succ Z.pos_sub
              Pos.pred_double Z.double Z.succ_double Z.pred_double
              Pos.add_carry] in *.
    all: repeat match goal with
         | |- context [2 ^ ?k] =>
             let v := eval vm_compute in (2 ^ k) in change (2 ^ k) with v
         | H : context [2 ^ ?k] |- _ =>
             let v := eval vm_compute in (2 ^ k) in change (2 ^ k) with v in H
         end.
    all: match goal with
         | |- context [?B / ?N] =>
             pose proof (Z.div_mod B N ltac:(lia)) as Hdm;
             pose proof (Z.mod_pos_bound B N ltac:(lia)) as Hr;
             remember (B / N) as q eqn:Eq; remember (B mod N) as r eqn:Er;
             clear Eq Er
         end.
    all: destruct (Z.eq_dec q 9007199254740991) as [Hq|Hq];
         [subst q; cbn [Z.odd]|].
    all: repeat match goal with
         | |- context [?x <? ?y] => destruct (Z.ltb_spec x y)
         | |- context [?x =? ?y] => destruct (Z.eqb_spec x y)
         | |- context [Z.odd ?x] => destruct (Z.odd x)
         end; cbn [orb andb].
    all: try lia.
    all: split; [lia|split; lia].
Qed.

Lemma prng_as_sum (F : Field) :
  fst (prng F)
  = (inject_Z (Number_of_bigint (fst (prng_sum F)))
     / inject_Z 18446744073709551616)%Q.
Proof. reflexivity. Qed.

Lemma ratio_le_1 (a : Z) :
  0 <= a <= 2 ^ 64 ->
  (0 <= inject_Z a / inject_Z 18446744073709551616 <= 1)%Q.
Proof.
  intros Ha. change (2 ^ 64) with 18446744073709551616 in Ha. split.
  - apply Qle_shift_div_l; [reflexivity|].
    rewrite Qmult_0_l. change 0%Q with (inject_Z 0). rewrite <- Zle_Qle. lia.
  - apply Qle_shift_div_r; [reflexivity|].
    rewrite Qmult_1_l. rewrite <- Zle_Qle. lia.
Qed.



(** C2. The field seeded with [unit_seed] starts from the two state words
    below, and its first call of [prng] returns exactly 1: the masked sum
    is 2^64 - 896, which [Number] rounds up to 2^64. *)
Theorem prng_returns_one :
  exists F,
    initField unit_seed = Some F /\
    s0 F = 0xee061920ffb3a56f /\ s1 F = 0xc55ed5f42beb003a /\
    fst (prng_sum F) = 2 ^ 64 - 896 /\
    (fst (prng F) == 1)%Q /\ ~ (fst (prng F) < 1)%Q.
Proof.
  destruct (initField unit_seed) as [F|] eqn:E;
    [|exfalso; vm_compute in E; discriminate].
  exists F. split; [reflexivity|].
  vm_compute in E. injection E as <-.
  split; [reflexivity|]. split; [reflexivity|].
  split; [vm_compute; reflexivity|].
  split; [vm_compute; reflexivity|].
  vm_compute. discriminate.
Qed.

End FieldProofs.

(* ================================================================== *)
(** * Fibonacci and Lucas numbers by fast doubling *)
(* ================================================================== *)

Module FibProofs.
Import Js MossPrime.

Lemma Fibonacci_SS (n : nat) :
  Fibonacci (S (S n)) = Fibonacci (S n) + Fibonacci n.
Proof. reflexivity. Qed.

Lemma Lucas_SS (n : nat) : Lucas (S (S n)) = Lucas (S n) + Lucas n.
Proof. reflexivity. Qed.

(** The addition law, proved for [m] and [S m] together. *)
Lemma Fibonacci_add (n m : nat) :
  Fibonacci (m + S n)
  = Fibonacci (S m) * Fibonacci (S n) + Fibonacci m * Fibonacci n
  /\ Fibonacci (S m + S n)
     = Fibonacci (S (S m)) * Fibonacci (S n) + Fibonacci (S m) * Fibonacci n.
Proof.
  induction m as [|m [IH1 IH2]].
  - split.
    + change (Fibonacci 1) with 1. change (Fibonacci 0) with 0.
      rewrite Nat.add_0_l. lia.
    + change (1 + S n)%nat with (S (S n)). rewrite Fibonacci_SS.
      change (Fibonacci 2) with 1. change (Fibonacci 1) with 1. lia.
  - split; [exact IH2|].
    change (S (S m) + S n)%nat with (S (S (m + S n))).
    rewrite Fibonacci_SS.
    change (S (m + S n)) with (S m + S n)%nat.
    rewrite IH1, IH2, (Fibonacci_SS (S m)), (Fibonacci_SS m). lia.
Qed.

Lemma Fibonacci_double (n : nat) :
  Fibonacci (2 * n) = Fibonacci n * (2 * Fibonacci (S n) - Fibonacci n)
  /\ Fibonacci (S (2 * n)) = Fibonacci n * Fibonacci n
                             + Fibonacci (S n) * Fibonacci (S n).
Proof.
  split.
  - destruct n as [|n]; [reflexivity|].
    replace (2 * S n)%nat with (S n + S n)%nat by lia.
    rewrite (proj2 (Fibonacci_add n n)), (Fibonacci_SS n). lia.
  - replace (S (2 * n)) with (n + S n)%nat by lia.
    rewrite (proj1 (Fibonacci_add n n)). lia.
Qed.

Lemma fn_pos_correct (p : positive) :
  fn_pos p = (Fibonacci (Pos.to_nat p), Fibonacci (S (Pos.to_nat p))).
Proof.
  induction p as [q IH|q IH|]; cbn [fn_pos].
  - rewrite IH, Pos2Nat.inj_xI, Z.shiftl_mul_pow2 by lia.
    destruct (Fibonacci_double (Pos.to_nat q)) as [E0 E1].
    rewrite Fibonacci_SS, E1, E0. f_equal; lia.
  - rewrite IH, Pos2Nat.inj_xO, Z.shiftl_mul_pow2 by lia.
    destruct (Fibonacci_double (Pos.to_nat q)) as [E0 E1].
    rewrite E1, E0. f_equal; lia.
  - reflexivity.
Qed.

(** [fn] obeys the recursion it is written with in the source. *)
Lemma fn_equation (k : Z) :
  0 <= k ->
  fn k =
  if k =? 0 then Some (0, 1)
  else match fn (Z.shiftr k 1) with
       | Some (a, b) =>
           let c := a * (Z.shiftl b 1 - a) in
           let d := a * a + b * b in
           if Z.land k 1 =? 0 then Some (c, d) else Some (d, c + d)
       | None => None
       end.
Proof.
  intros Hk. destruct k as [|p|p]; [reflexivity| |lia].
  destruct p as [q|q|]; cbn [fn Z.eqb]; try reflexivity.
  - change (Z.shiftr (Z.pos q~1) 1) with (Z.pos q). cbn [fn fn_pos].
    destruct (fn_pos q); reflexivity.
  - change (Z.shiftr (Z.pos q~0) 1) with (Z.pos q). cbn [fn fn_pos].
    destruct (fn_pos q); reflexivity.
Qed.

Lemma fn_nat (k : nat) :
  fn (Z.of_nat k) = Some (Fibonacci k, Fibonacci (S k)).
Proof.
  destruct k as [|k]; [reflexivity|].
  cbn [Z.of_nat fn]. rewrite fn_pos_correct, SuccNat2Pos.id_succ. reflexivity.
Qed.

Lemma Lucas_Fibonacci (n : nat) :
  Lucas n = 2 * Fibonacci (S n) - Fibonacci n
  /\ Lucas (S n) = 2 * Fibonacci (S (S n)) - Fibonacci (S n).
Proof.
  induction n as [|n [IH1 IH2]].
  - split; reflexivity.
  - split; [exact IH2|].
    rewrite Lucas_SS, IH1, IH2, (Fibonacci_SS (S n)), (Fibonacci_SS n). lia.
Qed.

Lemma BigInt_of_integer (m : Q) (z : Z) :
  (m == inject_Z z)%Q -> BigInt_of_number (Fin m) = Some z.
Proof.
  intros E. unfold BigInt_of_number.
  assert (Ef : Qfloor m = z) by (rewrite (Qfloor_comp _ _ E); apply Qfloor_Z).
  rewrite Ef.
  assert (Eb : Qeq_bool (inject_Z z) m = true)
    by (apply Qeq_bool_iff; symmetry; exact E).
  rewrite Eb. reflexivity.
Qed.

Lemma Qmax_0_inject (z : Z) : (Qmax 0 (inject_Z z) == inject_Z (Z.max 0 z))%Q.
Proof.
  destruct (Z.le_ge_cases 0 z) as [H|H].
  - rewrite Z.max_r by lia. apply Q.max_r.
    change 0%Q with (inject_Z 0). rewrite <- Zle_Qle. lia.
  - rewrite Z.max_l by lia. apply Q.max_l.
    change 0%Q with (inject_Z 0). rewrite <- Zle_Qle. lia.
Qed.

(** The index [fibFast] derives from a finite number. *)
Lemma fibFast_finite (q : Q) :
  fibFast (Num (Fin q)) = fn (Z.max 0 (Qfloor q)).
Proof.
  unfold fibFast. cbn [Math_floor Math_max].
  rewrite (BigInt_of_integer _ _ (Qmax_0_inject (Qfloor q))). reflexivity.
Qed.

Lemma Qfloor_nonpos (q : Q) : (q <= 0)%Q -> Qfloor q <= 0.
Proof.
  intros H. change 0 with (Qfloor 0). apply Qfloor_resp_le. exact H.
Qed.

Lemma fibFast_nonpos (q : Q) :
  (q <= 0)%Q -> fibFast (Num (Fin q)) = Some (0, 1).
Proof.
  intros H. rewrite fibFast_finite.
  rewrite Z.max_l by (apply Qfloor_nonpos; exact H). reflexivity.
Qed.

Lemma fibFast_nat (k : nat) :
  fibFast (Num (Fin (inject_Z (Z.of_nat k))))
  = Some (Fibonacci k, Fibonacci (S k)).
Proof.
  rewrite fibFast_finite, Qfloor_Z, Z.max_r by lia. apply fn_nat.
Qed.

Lemma lucas_nonpos (q : Q) : (q <= 0)%Q -> lucas (Fin q) = Some 2.
Proof.
  intros H. unfold lucas. cbn [is_zero Math_max].
  destruct (Qeq_bool q 0); [reflexivity|].
  rewrite fibFast_nonpos; [reflexivity|].
  apply Q.max_lub; [apply Qle_refl|exact H].
Qed.

Lemma lucas_nat (k : nat) :
  lucas (Fin (inject_Z (Z.of_nat k))) = Some (Lucas k).
Proof.
  destruct k as [|k]; [reflexivity|].
  unfold lucas. cbn [is_zero Math_max].
  replace (Qeq_bool (inject_Z (Z.of_nat (S k))) 0) with false by reflexivity.
  rewrite fibFast_finite.
  assert (E : (Qmax 0 (inject_Z (Z.of_nat (S k))) == inject_Z (Z.of_nat (S k)))%Q).
  { apply Q.max_r. change 0%Q with (inject_Z 0). rewrite <- Zle_Qle. lia. }
  rewrite (Qfloor_comp _ _ E), Qfloor_Z, Z.max_r by lia.
  rewrite fn_nat. rewrite (proj1 (Lucas_Fibonacci (S k))). reflexivity.
Qed.

(** C3. [fib] and [lucas] return the Fibonacci and Lucas numbers on every
    natural index, in particular the listed values; on every input that
    is at most zero (a finite number, minus infinity, or a BigInt)
    [fibFast] returns the pair (0, 1), so [fib] returns 0 and [lucas]
    returns 2, none of them throwing. *)
Theorem fib_lucas_correct :
  (fib (Fin 0) = Some 0 /\ fib (Fin 1) = Some 1 /\ fib (Fin 2) = Some 1 /\
   fib (Fin 10) = Some 55 /\ fib (Fin 20) = Some 6765 /\
   lucas (Fin 0) = Some 2 /\ lucas (Fin 1) = Some 1 /\
   lucas (Fin 6) = Some 18 /\ lucas (Fin 8) = Some 47) /\
  (forall k : nat,
      fib (Fin (inject_Z (Z.of_nat k))) = Some (Fibonacci k) /\
      lucas (Fin (inject_Z (Z.of_nat k))) = Some (Lucas k)) /\
  (forall q : Q, (q <= 0)%Q ->
      fibFast (Num (Fin q)) = Some (0, 1) /\
      fib (Fin q) = Some 0 /\ lucas (Fin q) = Some 2) /\
  (fibFast (Num NInf) = Some (0, 1) /\
   fib NInf = Some 0 /\ lucas NInf = Some 2) /\
  (forall z : Z, z <= 0 -> fibFast (BigI z) = Some (0, 1)).
Proof.
  split; [repeat split; reflexivity|].
  split.
  { intros k. split; [|apply lucas_nat].
    unfold fib. rewrite fibFast_nat. reflexivity. }
  split.
  { intros q H. split; [apply fibFast_nonpos; exact H|].
    split; [|apply lucas_nonpos; exact H].
    unfold fib. rewrite fibFast_nonpos by exact H. reflexivity. }
  split; [repeat split; reflexivity|].
  intros z Hz. unfold fibFast.
  destruct (Z.ltb_spec z 0); [reflexivity|].
  replace z with 0 by lia. reflexivity.
Qed.

Lemma fib_lucas_correct_witness :
  (-7 # 2 <= 0)%Q /\
  fibFast (Num (Fin (-7 # 2))) = Some (0, 1) /\
  fib (Fin (-7 # 2)) = Some 0 /\ lucas (Fin (-7 # 2)) = Some 2.
Proof.
  split; [discriminate|].
  apply (proj1 (proj2 (proj2 fib_lucas_correct)) (-7 # 2)%Q).
  discriminate.
Defined.

End FibProofs.

(* ================================================================== *)
(** * Genome, evolution and emotion *)
(* ================================================================== *)

Module GenomeProofs.
Import Js MossPrime Evolution Genome Scenarios.
Local Open Scope Q_scope.

Lemma ltb_lt (a b : Q) : ltb a b = true <-> a < b.
Proof.
  unfold ltb. rewrite negb_true_iff. split; intros H.
  - apply Qnot_le_lt. intros L. apply Qle_bool_iff in L. congruence.
  - destruct (Qle_bool b a) eqn:E; [|reflexivity].
    apply Qle_bool_iff in E. exfalso. exact (Qlt_not_le _ _ H E).
Qed.

Lemma ltb_ge (a b : Q) : ltb a b = false <-> b <= a.
Proof.
  unfold ltb. rewrite negb_false_iff. apply Qle_bool_iff.
Qed.

(** The remainder by 100 of a number that is not negative. *)
Lemma rem_100_range (a : Q) : 0 <= a -> 0 <= rem a 100 /\ rem a 100 < 100.
Proof.
  intros Ha. unfold rem.
  assert (Ht : 0 <= a / 100).
  { apply Qle_shift_div_l; [reflexivity|]. rewrite Qmult_0_l. exact Ha. }
  assert (Eb : Qle_bool 0 (a / 100) = true) by (apply Qle_bool_iff; exact Ht).
  rewrite Eb.
  pose proof (Qfloor_le (a / 100)) as Hlo.
  pose proof (Qlt_floor (a / 100)) as Hhi.
  rewrite inject_Z_plus in Hhi.
  assert (Ea : a == 100 * (a / 100)) by (field).
  set (k := inject_Z (Qfloor (a / 100))) in *.
  set (t := a / 100) in *.
  change (inject_Z 1) with 1 in Hhi.
  split; lra.
Qed.

Lemma Qmin_100_range (x : Q) : 0 <= x -> 0 <= Qmin 100 x <= 100.
Proof.
  intros Hx. split.
  - apply Q.min_glb; [discriminate|exact Hx].
  - apply Q.le_min_l.
Qed.

Lemma sum_slice_PULSE : sum_slice 20 PULSE = 69%Z /\ sum_slice 20 RING = 79%Z.
Proof. split; reflexivity. Qed.

(** C4. For the field of any name and vitals within [0, 100], the three
    genome scalars of [computeGenome] lie within [0, 100]. *)
Theorem genome_bounds (name : jsstring) (F : Field)
    (energy curiosity bond health : Q) :
  initField name = Some F ->
  0 <= energy <= 100 -> 0 <= curiosity <= 100 ->
  0 <= bond <= 100 -> 0 <= health <= 100 ->
  let g := computeGenome F energy curiosity bond health in
  0 <= red60 g <= 100 /\ 0 <= blue60 g <= 100 /\ 0 <= black60 g <= 100.
Proof.
  intros HF He Hc Hb Hh g.
  destruct (FieldProofs.initField_pulse_ring _ _ HF) as [EP ER].
  subst g. unfold computeGenome. rewrite EP, ER.
  destruct sum_slice_PULSE as [-> ->].
  cbn [red60 blue60 black60].
  change (inject_Z 69) with 69. change (inject_Z 79) with 79.
  repeat split; try apply Q.le_min_l.
  all: apply Q.min_glb; [discriminate|apply rem_100_range; lra].
Qed.

Lemma genome_bounds_witness :
  exists F, initField (codes "AURALIA") = Some F /\
    0 <= red60 (computeGenome F 100 100 100 0) <= 100.
Proof.
  destruct (initField (codes "AURALIA")) as [F|] eqn:E;
    [|exfalso; vm_compute in E; discriminate].
  exists F. split; [reflexivity|].
  apply (genome_bounds (codes "AURALIA") F 100 100 100 0 E);
    split; discriminate.
Defined.

(** C7. The trinity scenario: primary aspect sun, no secondary aspect
    because 40 is below 0.8 x 90, and trait chaotic because the largest
    deviation from the mean, 110/3, exceeds 30. *)
Theorem trinity_scenario :
  primaryAspect (calculateEvolution trinity_genome) = sun /\
  secondaryAspect (calculateEvolution trinity_genome) = None /\
  trait (calculateEvolution trinity_genome) = chaotic /\
  40 < 90 * (8 # 10) /\
  (let avg := (90 + 40 + 30) / 3 in
   max3 (Qabs (90 - avg)) (Qabs (40 - avg)) (Qabs (30 - avg)) == 110 # 3) /\
  30 < 110 # 3.
Proof.
  repeat split.
Qed.

Lemma Math_round_range (x : Q) : 0 <= x <= 100 -> 0 <= Math_round x <= 100.
Proof.
  intros [H0 H1]. unfold Math_round.
  change 0 with (inject_Z 0). change 100 with (inject_Z 100).
  rewrite <- !Zle_Qle. split.
  - change 0%Z with (Qfloor 0). apply Qfloor_resp_le. lra.
  - change 100%Z with (Qfloor (201 # 2)). apply Qfloor_resp_le. lra.
Qed.

Lemma clamp_range (x : Q) : 0 <= Qmax 0 (Qmin 100 x) <= 100.
Proof.
  split.
  - apply Q.le_max_l.
  - apply Q.max_lub; [discriminate|apply Q.le_min_l].
Qed.

Lemma boost_range (x : Q) : 0 <= x <= 100 -> 0 <= Qmin 100 (x + 10) <= 100.
Proof.
  intros [H0 H1]. split.
  - apply Q.min_glb; [discriminate|lra].
  - apply Q.le_min_l.
Qed.

Section BreedingBounds.
Variable G : Type.
Variable randomFn : G -> Q * G.

Lemma mutate_range (value : Q) (g : G) :
  0 <= fst (mutate G randomFn value g) <= 100.
Proof.
  unfold mutate. destruct (randomFn g) as [u g']. cbn [fst].
  apply clamp_range.
Qed.

(** Whatever the parents and the draws, every axis of the child ends
    within [0, 100]. *)
Lemma breedGenomes_range (parent1 parent2 : BreedingGenome) (g : G) :
  let child := fst (breedGenomes G randomFn parent1 parent2 g) in
  0 <= red60 child <= 100 /\ 0 <= blue60 child <= 100 /\
  0 <= black60 child <= 100.
Proof.
  unfold breedGenomes.
  pose proof (mutate_range ((red60 parent1 + red60 parent2) / 2) g) as Hr.
  destruct (mutate G randomFn ((red60 parent1 + red60 parent2) / 2) g)
    as [r g1].
  pose proof (mutate_range ((blue60 parent1 + blue60 parent2) / 2) g1) as Hb.
  destruct (mutate G randomFn ((blue60 parent1 + blue60 parent2) / 2) g1)
    as [b g2].
  pose proof (mutate_range ((black60 parent1 + black60 parent2) / 2) g2) as Hk.
  destruct (mutate G randomFn ((black60 parent1 + black60 parent2) / 2) g2)
    as [k g3].
  cbn [fst] in Hr, Hb, Hk.
  destruct (randomFn g3) as [roll g4].
  destruct (ltb roll (5 # 100));
    [destruct (_ || _); [|destruct (_ || _)]|];
    cbn [fst red60 blue60 black60];
    repeat split; apply Math_round_range;
      try assumption; apply boost_range; assumption.
Qed.
End BreedingBounds.

(** C9. For parents within [0, 100] on each axis and a random function
    with values in [0, 1), every axis of the bred genome lies within
    [0, 100]. *)
Theorem breeding_bounds (G : Type) (randomFn : G -> Q * G)
    (parent1 parent2 : BreedingGenome) (g : G) :
  (0 <= red60 parent1 <= 100 /\ 0 <= blue60 parent1 <= 100 /\
   0 <= black60 parent1 <= 100) ->
  (0 <= red60 parent2 <= 100 /\ 0 <= blue60 parent2 <= 100 /\
   0 <= black60 parent2 <= 100) ->
  (forall s, 0 <= fst (randomFn s) /\ fst (randomFn s) < 1) ->
  let child := fst (breedGenomes G randomFn parent1 parent2 g) in
  0 <= red60 child <= 100 /\ 0 <= blue60 child <= 100 /\
  0 <= black60 child <= 100.
Proof.
  intros _ _ _. apply breedGenomes_range.
Qed.

Lemma breeding_bounds_witness :
  let child := fst (breedGenomes nat high_draws full_genome full_genome O) in
  0 <= red60 child <= 100 /\ 0 <= blue60 child <= 100 /\
  0 <= black60 child <= 100.
Proof.
  apply (breeding_bounds nat high_draws full_genome full_genome O).
  - repeat split; discriminate.
  - repeat split; discriminate.
  - intros s. unfold high_draws. cbn [fst].
    destruct (Nat.ltb s 3); split; reflexivity || discriminate.
Defined.

End GenomeProofs.

Module EmotionProofs.
Import Js Emotion Scenarios.

Lemma gt_Fin (a b : Q) : gt (Fin a) (Fin b) = true <-> (b < a)%Q.
Proof. unfold gt, lt. apply GenomeProofs.ltb_lt. Qed.

Lemma lt_Fin (a b : Q) : lt (Fin a) (Fin b) = true <-> (a < b)%Q.
Proof. unfold lt. apply GenomeProofs.ltb_lt. Qed.

(** C8. [calculateEmotionalResponse] is the first match of the ordered
    rule list, with serene as the fallback: hunger above 80 gives
    yearning whatever else holds, otherwise hygiene below 30 gives
    overwhelmed, both before any rule on mood or energy; and the vitals
    of the scenario give ecstatic for every traits value. *)
Theorem emotion_cascade :
  (forall vitals traits,
      calculateEmotionalResponse vitals traits
      = first_match emotion_rules serene (vitals, traits)) /\
  (forall vitals traits,
      gt (hunger vitals) (n 80) = true ->
      calculateEmotionalResponse vitals traits = yearning) /\
  (forall vitals traits,
      gt (hunger vitals) (n 80) = false ->
      lt (hygiene vitals) (n 30) = true ->
      calculateEmotionalResponse vitals traits = overwhelmed) /\
  (forall traits,
      calculateEmotionalResponse cascade_vitals traits = ecstatic).
Proof.
  split; [|split; [|split]].
  - intros vitals traits. reflexivity.
  - intros vitals traits H. unfold calculateEmotionalResponse.
    rewrite H. reflexivity.
  - intros vitals traits H1 H2. unfold calculateEmotionalResponse.
    rewrite H1, H2. reflexivity.
  - intros traits. reflexivity.
Qed.

Lemma emotion_cascade_witness :
  calculateEmotionalResponse
    (mkStats (n 90) (n 80) (n 95) (n 10))
    (mkTraits (n 50) (n 50) (n 50) (n 50) (n 50) (n 50) (n 50) "Calm")
  = yearning
  /\ calculateEmotionalResponse
       (mkStats (n 90) (n 80) (n 20) (n 10))
       (mkTraits (n 50) (n 50) (n 50) (n 50) (n 50) (n 50) (n 50) "Calm")
     = overwhelmed.
Proof.
  split.
  - apply (proj1 (proj2 emotion_cascade)). reflexivity.
  - apply (proj1 (proj2 (proj2 emotion_cascade))); reflexivity.
Defined.

End EmotionProofs.

(* ================================================================== *)
(** * The behaviour machine: timers *)
(* ================================================================== *)

Module BehaviorProofs.
Import Js Behavior Scenarios.
Local Open Scope Q_scope.

Section Facts.
Variable sigilPoints : list GuardianSigilPoint.
Variable options : Options.
Variable random : nat -> Q.

Lemma transition_idle_spec (h : Hook) :
  exists m cb d,
    ((m = dreaming /\ cb = DreamEnd) \/ (m = observing /\ cb = ObserveEnd) \/
     (m = focusing /\ cb = FocusEnd) \/ (m = mode h /\ cb = Retry idle)) /\
    snd (transitionToNextMode options random idle h)
    = mkHook m (focusedSigil h) (Some (next_id h)) (rendered h)
        (timers h ++ [mkTimer (next_id h) cb d])
        (S (next_id h)) (S (S (cursor h))) (log h).
Proof.
  unfold transitionToNextMode, bind, Math_random.
  destruct (ltb (energy (stats options)) 30 && _).
  { exists dreaming, DreamEnd. eexists. split; [tauto|reflexivity]. }
  destruct (ltb _ _).
  { exists observing, ObserveEnd. eexists. split; [tauto|reflexivity]. }
  destruct (gtb _ _ && _).
  { exists focusing, FocusEnd. eexists. split; [tauto|reflexivity]. }
  exists (mode h), (Retry idle). eexists. split; [tauto|reflexivity].
Qed.

Lemma mode_eqb_refl (m : GuardianAIMode) : mode_eqb m m = true.
Proof. destruct m; reflexivity. Qed.

(** Evaluating the transition in a settled idle state without pending
    timer, then rendering. *)
Lemma enter_settles (h0 : Hook) :
  rendered h0 = idle -> mode h0 = idle -> timers h0 = [] ->
  let h2 := snd (flush options random
                   (snd (transitionToNextMode options random idle h0))) in
  settled h2 /\ log h2 = log h0 /\ focusedSigil h2 = focusedSigil h0 /\
  mode h2 <> playing.
Proof.
  intros Hr Hm Ht.
  destruct (transition_idle_spec h0) as (m & cb & d & Hcase & ->).
  destruct h0 as [m0 f0 tr0 rd0 ts0 ni0 cu0 lg0].
  cbn [rendered mode timers focusedSigil next_id cursor log] in *.
  subst rd0 m0 ts0.
  unfold flush, commit, bind, cleanup, clearTimeout, set_timers, set_rendered.
  destruct Hcase as [[-> ->]|[[-> ->]|[[-> ->]|[-> ->]]]];
    cbn -[Nat.eqb]; rewrite ?Nat.eqb_refl; cbn;
    (split; [split; [reflexivity|]|repeat split; discriminate || reflexivity]).
  - left; reflexivity.
  - left; reflexivity.
  - left; reflexivity.
  - right. split; [reflexivity|]. eexists _, _. split; reflexivity.
Qed.

Lemma mount_quiet : quiet (mount options random).
Proof.
  unfold mount, bind, effect.
  destruct (enter_settles initial eq_refl eq_refl eq_refl) as (Hs & Hl & Hf & Hp).
  destruct (transitionToNextMode options random idle initial) as [[] h1] eqn:E.
  cbn [snd] in *. unfold quiet.
  destruct (flush options random h1) as [[] h2]. cbn [snd] in *.
  repeat split; try assumption; apply Hs.
Qed.

Lemma fire_quiet (h : Hook) (t : Timer) :
  quiet h -> In t (timers h) -> quiet (snd (fire sigilPoints options random t h)).
Proof.
  intros ((Hr & Ht) & Hl & Hf & Hp) Hin.
  destruct Ht as [Ht|(Hm & i & d & Ht & Hi)]; [rewrite Ht in Hin; destruct Hin|].
  rewrite Ht in Hin. destruct Hin as [<-|[]].
  destruct h as [m0 f0 tr0 rd0 ts0 ni0 cu0 lg0].
  cbn [rendered mode timers focusedSigil next_id cursor log timerRef] in *.
  subst.
  unfold fire, bind, set_timers.
  cbn [timers tid callback filter negb run mode focusedSigil timerRef rendered
       next_id cursor log].
  rewrite Nat.eqb_refl. cbn [negb].
  set (h0 := mkHook idle None (Some i) idle [] ni0 cu0 []).
  destruct (enter_settles h0 eq_refl eq_refl eq_refl) as (Hs & Hl & Hf & Hp').
  destruct (transitionToNextMode options random idle h0) as [[] h1].
  cbn [snd] in *.
  destruct (flush options random h1) as [[] h2]. cbn [snd] in *.
  repeat split; try assumption; apply Hs.
Qed.

Lemma cleanup_quiet (h : Hook) :
  quiet h ->
  snd (cleanup h)
  = mkHook (mode h) (focusedSigil h) (timerRef h) (rendered h) []
           (next_id h) (cursor h) (log h).
Proof.
  intros ((Hr & Ht) & _).
  destruct h as [m0 f0 tr0 rd0 ts0 ni0 cu0 lg0].
  cbn [rendered mode timers focusedSigil next_id cursor log timerRef] in *.
  unfold cleanup, clearTimeout, set_timers.
  destruct Ht as [->|(Hm & i & d & -> & ->)].
  - destruct tr0; reflexivity.
  - cbn [timerRef timers filter tid]. rewrite Nat.eqb_refl. reflexivity.
Qed.

Lemma rerender_quiet (h : Hook) :
  quiet h ->
  quiet (snd (rerender options random h)) /\
  (mode h <> idle -> mode (snd (rerender options random h)) = mode h).
Proof.
  intros Hq. pose proof (cleanup_quiet h Hq) as Hc.
  destruct Hq as ((Hr & Ht) & Hl & Hf & Hp).
  unfold rerender, bind.
  destruct (cleanup h) as [[] h0]. cbn [snd] in Hc. subst h0.
  destruct h as [m0 f0 tr0 rd0 ts0 ni0 cu0 lg0].
  cbn [rendered mode timers focusedSigil next_id cursor log timerRef] in *.
  subst.
  destruct m0; try contradiction; cbn [effect].
  - set (h0 := mkHook idle None tr0 idle [] ni0 cu0 []).
    destruct (enter_settles h0 eq_refl eq_refl eq_refl) as (Hs & Hl & Hf & Hp').
    destruct (transitionToNextMode options random idle h0) as [[] h1].
    cbn [snd] in *.
    destruct (flush options random h1) as [[] h2]. cbn [snd] in *.
    split; [|intros C; contradiction].
    repeat split; try assumption; apply Hs.
  - cbn. split; [|reflexivity].
    repeat split; try discriminate. left; reflexivity.
  - cbn. split; [|reflexivity].
    repeat split; try discriminate. left; reflexivity.
  - cbn. split; [|reflexivity].
    repeat split; try discriminate. left; reflexivity.
Qed.

Lemma reachable_quiet (h : Hook) :
  reachable sigilPoints options random h -> quiet h.
Proof.
  induction 1 as [|h h' Hreach IH Hstep].
  - apply mount_quiet.
  - destruct Hstep as [h t Hin|h].
    + apply fire_quiet; assumption.
    + apply rerender_quiet; assumption.
Qed.

(** Outside idle no timer is pending, and no step changes the mode. *)
Lemma stuck_outside_idle (h h' : Hook) :
  reachable sigilPoints options random h -> mode h <> idle ->
  timers h = [] /\
  (step sigilPoints options random h h' -> mode h' = mode h).
Proof.
  intros Hreach Hm. pose proof (reachable_quiet h Hreach) as Hq.
  assert (Ht : timers h = []).
  { destruct Hq as ((_ & [Ht|(Hi & _)]) & _); [exact Ht|contradiction]. }
  split; [exact Ht|].
  intros Hstep. destruct Hstep as [h t Hin|h].
  - rewrite Ht in Hin. destruct Hin.
  - apply rerender_quiet; assumption.
Qed.
End Facts.

(** C6. In every reachable state at most one timeout is pending; but
    outside idle none is pending at all: the timeout armed on entering a
    mode is cleared by the cleanup that the change of mode triggers, so
    no step changes the mode again, playing is never reached and none of
    the callbacks is ever called.  For the tired guardian under the
    default configuration with [Math.random] returning 0.1, the first
    effect enters dreaming and arms [DreamEnd] as timeout 1, the render
    that follows clears it, and every reachable state is dreaming with no
    timeout pending and [onDreamComplete] never called. *)
Theorem entered_mode_never_left :
  (forall sigilPoints options random h,
      reachable sigilPoints options random h ->
      (List.length (timers h) <= 1)%nat /\
      (mode h <> idle ->
       timers h = [] /\
       forall h', step sigilPoints options random h h' -> mode h' = mode h) /\
      mode h <> playing /\ log h = []) /\
  (let h1 := snd (effect tired (always (1 # 10)) idle initial) in
   mode h1 = dreaming /\ map callback (timers h1) = [DreamEnd] /\
   map tid (timers h1) = [1%nat] /\ timerRef h1 = Some 1%nat /\
   timers (snd (commit tired (always (1 # 10)) h1)) = []) /\
  (mode (mount tired (always (1 # 10))) = dreaming /\
   forall sigilPoints h,
     reachable sigilPoints tired (always (1 # 10)) h ->
     mode h = dreaming /\ timers h = [] /\ log h = []).
Proof.
  split; [|split; [repeat split|]].
  - intros sigilPoints options random h Hreach.
    pose proof (reachable_quiet _ _ _ _ Hreach) as ((Hr & Ht) & Hl & Hf & Hp).
    split; [|split; [|split; assumption]].
    + destruct Ht as [->|(_ & i & d & -> & _)]; cbn; lia.
    + intros Hm. split.
      * apply (stuck_outside_idle sigilPoints options random h h Hreach Hm).
      * intros h'. apply (stuck_outside_idle sigilPoints options random h h' Hreach Hm).
  - split; [reflexivity|].
    intros sigilPoints h Hreach.
    assert (Hd : mode h = dreaming).
    { induction Hreach as [|h h' Hreach IH Hstep]; [reflexivity|].
      rewrite <- IH.
      apply (stuck_outside_idle sigilPoints tired (always (1 # 10)) h h' Hreach);
        [rewrite IH; discriminate|exact Hstep]. }
    pose proof (reachable_quiet _ _ _ _ Hreach) as ((Hr & Ht) & Hl & Hf & Hp).
    split; [exact Hd|]. split; [|exact Hl].
    destruct Ht as [Ht|(Hi & _)]; [exact Ht|]. rewrite Hd in Hi. discriminate.
Qed.

Lemma entered_mode_never_left_witness :
  mode (mount tired (always (1 # 10))) = dreaming /\
  timers (mount tired (always (1 # 10))) = [] /\
  log (mount tired (always (1 # 10))) = [].
Proof.
  apply (proj2 (proj2 (proj2 entered_mode_never_left)) three_sigils).
  apply reach_mount.
Defined.

End BehaviorProofs.

(* ================================================================== *)
(** * The behaviour machine: the transition table *)
(* ================================================================== *)

Module TransitionProofs.
Import Js Behavior Scenarios Invariants.
Local Open Scope Q_scope.

Section Table.
Variable sigilPoints : list GuardianSigilPoint.
Variable options : Options.
Variable random : nat -> Q.

(** The evaluation in idle mode, by the draw it starts with: the mode it
    sets and the callback it arms. *)
Lemma decide_idle (h : Hook) :
  let p := probabilities (config options) in
  let st := stats options in
  let r := random (cursor h) in
  let dream := energy st < 30 /\ r < idleToDream p in
  let observe := ~ dream /\ r < idleToObserve p in
  let focus := ~ dream /\ ~ r < idleToObserve p /\ 40 < curiosity st /\
               r < idleToFocus p + idleToObserve p in
  exists m cb d,
    ((dream /\ m = dreaming /\ cb = DreamEnd) \/
     (observe /\ m = observing /\ cb = ObserveEnd) \/
     (focus /\ m = focusing /\ cb = FocusEnd) \/
     ((~ dream /\ ~ observe /\ ~ focus) /\ m = mode h /\ cb = Retry idle)) /\
    snd (transitionToNextMode options random idle h)
    = mkHook m (focusedSigil h) (Some (next_id h)) (rendered h)
        (timers h ++ [mkTimer (next_id h) cb d])
        (S (next_id h)) (S (S (cursor h))) (log h).
Proof.
  intros p st r dream observe focus. subst dream observe focus.
  unfold transitionToNextMode, bind, Math_random, gtb.
  fold p st. cbn [cursor]. fold r.
  destruct (ltb (energy st) 30) eqn:E1;
    destruct (ltb r (idleToDream p)) eqn:E2;
    destruct (ltb r (idleToObserve p)) eqn:E3;
    destruct (ltb 40 (curiosity st)) eqn:E4;
    destruct (ltb r (idleToFocus p + idleToObserve p)) eqn:E5;
    cbn [andb];
    rewrite ?GenomeProofs.ltb_lt, ?GenomeProofs.ltb_ge in *.
  all: first
    [ exists dreaming, DreamEnd; eexists; split;
      [left; split; [split; assumption|split; reflexivity]|reflexivity]
    | exists observing, ObserveEnd; eexists; split;
      [right; left; split; [split; [intros [? ?]; lra|assumption]
                           |split; reflexivity]|reflexivity]
    | exists focusing, FocusEnd; eexists; split;
      [right; right; left;
       split; [split; [intros [? ?]; lra
                      |split; [intros ?; lra|split; assumption]]
              |split; reflexivity]|reflexivity]
    | exists (mode h), (Retry idle); eexists; split;
      [right; right; right;
       split; [split; [intros [? ?]; lra
                      |split; [intros [? ?]; lra
                              |intros (? & ? & ? & ?); lra]]
              |split; reflexivity]|reflexivity] ].
Qed.

(** Evaluating in a settled idle state without pending timer, then
    rendering: the mode follows the table; staying idle leaves the retry
    pending, entering a mode leaves nothing pending. *)
Lemma evaluate_idle (h0 : Hook) :
  rendered h0 = idle -> mode h0 = idle -> timers h0 = [] ->
  let p := probabilities (config options) in
  let st := stats options in
  let r := random (cursor h0) in
  let dream := energy st < 30 /\ r < idleToDream p in
  let observe := ~ dream /\ r < idleToObserve p in
  let focus := ~ dream /\ ~ r < idleToObserve p /\ 40 < curiosity st /\
               r < idleToFocus p + idleToObserve p in
  let h2 := snd (flush options random
                   (snd (transitionToNextMode options random idle h0))) in
  ((dream <-> mode h2 = dreaming) /\ (observe <-> mode h2 = observing) /\
   (focus <-> mode h2 = focusing) /\
   (~ dream /\ ~ observe /\ ~ focus <-> mode h2 = idle)) /\
  rendered h2 = mode h2 /\ log h2 = log h0 /\
  focusedSigil h2 = focusedSigil h0 /\ cursor h2 = S (S (cursor h0)) /\
  (mode h2 = idle ->
   exists d, timers h2 = [mkTimer (next_id h0) (Retry idle) d] /\
             timerRef h2 = Some (next_id h0)) /\
  (mode h2 <> idle -> timers h2 = []).
Proof.
  intros Hr Hm Ht p st r dream observe focus h2.
  destruct (decide_idle h0) as (m & cb & d & Hcase & E).
  fold p st r dream observe focus in Hcase.
  subst h2. rewrite E. clear E.
  destruct h0 as [m0 f0 tr0 rd0 ts0 ni0 cu0 lg0].
  cbn [rendered mode timers focusedSigil next_id cursor log] in *.
  subst rd0 m0 ts0.
  unfold flush, commit, bind, cleanup, clearTimeout, set_timers, set_rendered.
  subst dream observe focus.
  destruct Hcase as [(C & -> & ->)|[(C & -> & ->)|[(C & -> & ->)|(C & -> & ->)]]];
    cbn -[Nat.eqb]; rewrite ?Nat.eqb_refl; cbn.
  1-3: (split; [|repeat split; try discriminate; intros N; contradiction]).
  1-3: (split; [|split; [|split]]; split; intros H;
        try discriminate H; try reflexivity; tauto).
  split.
  - split; [|split; [|split]]; split; intros H;
      try discriminate H; try reflexivity; tauto.
  - repeat split; try (intros N; contradiction).
    intros _. exists d. split; reflexivity.
Qed.

(** Outside idle, with nothing pending, every event leaves the hook as
    it is. *)
Lemma frozen_step (h h' : Hook) :
  rendered h = mode h -> mode h <> idle -> timers h = [] ->
  step sigilPoints options random h h' -> h' = h.
Proof.
  intros Hr Hm Ht Hstep. destruct Hstep as [h t Hin|h].
  - rewrite Ht in Hin. destruct Hin.
  - destruct h as [m0 f0 tr0 rd0 ts0 ni0 cu0 lg0].
    cbn [rendered mode timers] in *. subst rd0 ts0.
    unfold rerender, bind, cleanup, clearTimeout, set_timers, flush, commit.
    destruct tr0, m0; try contradiction; reflexivity.
Qed.

Lemma frozen (h h' : Hook) :
  rendered h = mode h -> mode h <> idle -> timers h = [] ->
  follows sigilPoints options random h h' -> h' = h.
Proof.
  intros Hr Hm Ht Hf. induction Hf as [|h1 h2 Hf IH Hstep]; [reflexivity|].
  subst h1. apply (frozen_step h h2 Hr Hm Ht Hstep).
Qed.

Lemma reachable_follows (h : Hook) :
  reachable sigilPoints options random h ->
  follows sigilPoints options random (mount options random) h.
Proof.
  induction 1 as [|h h' Hreach IH Hstep]; [apply follows_here|].
  eapply follows_step; [exact IH|exact Hstep].
Qed.

(** An event in a reachable idle state is an evaluation of the table. *)
Lemma step_evaluates (h h' : Hook) :
  reachable sigilPoints options random h -> mode h = idle ->
  step sigilPoints options random h h' ->
  exists h0,
    rendered h0 = idle /\ mode h0 = idle /\ timers h0 = [] /\
    cursor h0 = cursor h /\ next_id h0 = next_id h /\ log h0 = [] /\
    focusedSigil h0 = None /\
    h' = snd (flush options random
                (snd (transitionToNextMode options random idle h0))).
Proof.
  intros Hreach Hm Hstep.
  pose proof (BehaviorProofs.reachable_quiet _ _ _ _ Hreach) as Hq.
  destruct Hstep as [h t Hin|h].
  - destruct Hq as ((Hr & Ht) & Hl & Hf & Hp).
    destruct Ht as [Ht|(_ & i & d & Ht & Hi)];
      [rewrite Ht in Hin; destruct Hin|].
    rewrite Ht in Hin. destruct Hin as [<-|[]].
    destruct h as [m0 f0 tr0 rd0 ts0 ni0 cu0 lg0].
    cbn [rendered mode timers focusedSigil next_id cursor log timerRef] in *.
    subst.
    exists (mkHook idle None (Some i) idle [] ni0 cu0 []).
    repeat (split; [reflexivity|]).
    unfold fire, bind, set_timers.
    cbn [timers tid callback filter negb run mode focusedSigil timerRef
         rendered next_id cursor log].
    rewrite Nat.eqb_refl. cbn [negb].
    destruct (transitionToNextMode options random idle _) as [[] h1].
    cbn [snd]. destruct (flush options random h1) as [[] h2]. reflexivity.
  - pose proof (BehaviorProofs.cleanup_quiet h Hq) as Hc.
    destruct Hq as ((Hr & Ht) & Hl & Hf & Hp).
    unfold rerender, bind.
    destruct (cleanup h) as [[] h0]. cbn [snd] in Hc. subst h0.
    destruct h as [m0 f0 tr0 rd0 ts0 ni0 cu0 lg0].
    cbn [rendered mode timers focusedSigil next_id cursor log timerRef] in *.
    subst. cbn [effect].
    exists (mkHook idle None tr0 idle [] ni0 cu0 []).
    repeat (split; [reflexivity|]).
    destruct (transitionToNextMode options random idle _) as [[] h1].
    cbn [snd]. destruct (flush options random h1) as [[] h2]. reflexivity.
Qed.
End Table.

(** C5. An event in a reachable idle state evaluates the table with the
    draw [r] it starts with: the mode becomes dreaming exactly when
    energy is below 30 and [r] below P(dream); otherwise observing
    exactly when [r] is below P(observe); otherwise focusing exactly
    when curiosity is above 40 and [r] below P(focus) + P(observe);
    otherwise it stays idle with the evaluation armed again.  What the
    claim says comes next does not: the callbacks are written to do it
    ([DreamEnd] sets idle and calls onDreamComplete, [ObserveEnd] sets
    idle, [FocusEnd] sets playing, [PlayEnd] clears the focus and sets
    idle), but once a mode other than idle is entered nothing is pending
    and every later state is that very state, with no callback called
    and no further draw.  For the tired guardian under the default
    configuration with draws 0.9, 0.9, 0.1, ...: the first evaluation
    stays idle, the timeout fires, dreaming is entered, and the hook
    stays there for ever with onDreamComplete never called; with every
    draw 0.6 the mount enters focusing and every reachable state is that
    one, playing never reached. *)
Theorem idle_table_then_frozen :
  (forall sigilPoints options random h h',
      reachable sigilPoints options random h -> mode h = idle ->
      step sigilPoints options random h h' ->
      let p := probabilities (config options) in
      let st := stats options in
      let r := random (cursor h) in
      let dream := energy st < 30 /\ r < idleToDream p in
      let observe := ~ dream /\ r < idleToObserve p in
      let focus := ~ dream /\ ~ r < idleToObserve p /\ 40 < curiosity st /\
                   r < idleToFocus p + idleToObserve p in
      ((dream <-> mode h' = dreaming) /\ (observe <-> mode h' = observing) /\
       (focus <-> mode h' = focusing) /\
       (~ dream /\ ~ observe /\ ~ focus <-> mode h' = idle)) /\
      (mode h' = idle ->
       exists d, timers h' = [mkTimer (next_id h) (Retry idle) d] /\
                 timerRef h' = Some (next_id h)) /\
      (mode h' <> idle ->
       timers h' = [] /\ log h' = [] /\ focusedSigil h' = None /\
       forall h'', follows sigilPoints options random h' h'' -> h'' = h')) /\
  (forall sigilPoints options random h,
      snd (run sigilPoints options random DreamEnd h)
      = mkHook idle (focusedSigil h) (timerRef h) (rendered h) (timers h)
               (next_id h) (cursor h) (DreamComplete :: log h) /\
      mode (snd (run sigilPoints options random ObserveEnd h)) = idle /\
      mode (snd (run sigilPoints options random FocusEnd h)) = playing /\
      snd (run sigilPoints options random PlayEnd h)
      = mkHook idle None (timerRef h) (rendered h) (timers h)
               (next_id h) (cursor h) (FocusChange None :: log h)) /\
  (let h := mount tired dream_on_second in
   let t := mkTimer 1 (Retry idle) (3000 + (9 # 10) * (8000 - 3000)) in
   let h' := snd (fire three_sigils tired dream_on_second t h) in
   mode h = idle /\ timers h = [t] /\
   h' = mkHook dreaming None (Some 2%nat) dreaming [] 3 4 [] /\
   forall h'', follows three_sigils tired dream_on_second h' h'' -> h'' = h') /\
  (mode (mount tired (always (6 # 10))) = focusing /\
   forall sigilPoints h,
     reachable sigilPoints tired (always (6 # 10)) h ->
     h = mount tired (always (6 # 10))).
Proof.
  split; [|split; [|split]].
  - intros sigilPoints options random h h' Hreach Hm Hstep
           p st r dream observe focus.
    destruct (step_evaluates sigilPoints options random h h' Hreach Hm Hstep)
      as (h0 & Hr0 & Hm0 & Ht0 & Hc0 & Hn0 & Hl0 & Hf0 & ->).
    pose proof (evaluate_idle options random h0 Hr0 Hm0 Ht0) as E.
    cbv zeta in E. rewrite Hc0, Hn0, Hl0, Hf0 in E.
    destruct E as (Htab & Hrd & Hlog & Hfoc & _ & Hidle & Hother).
    split; [exact Htab|]. split.
    + intros Hi. destruct (Hidle Hi) as (d & Ht & Hi').
      exists d. split; assumption.
    + intros Hn. split; [exact (Hother Hn)|]. split; [exact Hlog|].
      split; [exact Hfoc|].
      intros h'' Hf. apply (frozen sigilPoints options random _ h'' Hrd Hn (Hother Hn) Hf).
  - intros sigilPoints options random h.
    split; [reflexivity|]. split; [reflexivity|]. split; [|reflexivity].
    unfold run, bind, Math_random, setMode. cbn [cursor].
    destruct (Js.index sigilPoints _); [destruct (onPlay options)|]; reflexivity.
  - cbv zeta. split; [reflexivity|]. split; [reflexivity|].
    split; [reflexivity|].
    intros h'' Hf.
    apply (frozen three_sigils tired dream_on_second _ h'');
      [reflexivity|discriminate|reflexivity|exact Hf].
  - split; [reflexivity|].
    intros sigilPoints h Hreach.
    apply (frozen sigilPoints tired (always (6 # 10)) _ h);
      [reflexivity|discriminate|reflexivity|].
    apply reachable_follows. exact Hreach.
Qed.

Lemma idle_table_then_frozen_witness :
  let h := mount tired dream_on_second in
  let t := mkTimer 1 (Retry idle) (3000 + (9 # 10) * (8000 - 3000)) in
  let h' := snd (fire three_sigils tired dream_on_second t h) in
  mode h' = dreaming /\ timers h' = [] /\ log h' = [] /\
  forall h'', follows three_sigils tired dream_on_second h' h'' -> h'' = h'.
Proof.
  intros h t h'.
  pose proof (proj1 idle_table_then_frozen three_sigils tired dream_on_second
                h h' (reach_mount _ _ _) eq_refl
                (step_fire _ _ _ h t (or_introl eq_refl))) as H.
  cbv zeta in H. destruct H as ((Hdream & _) & _ & Hother).
  assert (Hm : mode h' = dreaming)
    by (apply Hdream; split; reflexivity).
  split; [exact Hm|].
  destruct Hother as (Ht & Hl & _ & Hf); [rewrite Hm; discriminate|].
  split; [exact Ht|]. split; [exact Hl|exact Hf].
Defined.

End TransitionProofs.

(* ================================================================== *)
(** * The seed integer and the hash *)
(* ================================================================== *)

Module SeedProofs.
Import Js MossPrime Scenarios.

(** [mix64] ends with a 64-bit mask. *)
Lemma mix64_range (x : Z) : 0 <= mix64 x < 2 ^ 64.
Proof. unfold mix64. apply FieldProofs.mask64. Qed.

Lemma hash_from_range (msg : jsstring) :
  forall i h, msg <> [] -> 0 <= hash_from i h msg < 2 ^ 64.
Proof.
  induction msg as [|ch rest IH]; intros i h Hne; [contradiction|].
  cbn [hash_from].
  destruct rest as [|ch' rest'].
  - cbn [hash_from]. apply mix64_range.
  - apply IH. discriminate.
Qed.

Lemma hexval_range (c d : Z) : hexval c = Some d -> 0 <= d < 16.
Proof.
  unfold hexval.
  destruct ((48 <=? c) && (c <=? 57)) eqn:E1.
  { intros H; injection H as <-. apply andb_true_iff in E1. lia. }
  destruct ((97 <=? c) && (c <=? 102)) eqn:E2.
  { intros H; injection H as <-. apply andb_true_iff in E2. lia. }
  destruct ((65 <=? c) && (c <=? 70)) eqn:E3.
  { intros H; injection H as <-. apply andb_true_iff in E3. lia. }
  discriminate.
Qed.

Lemma parse_hex_app (h1 h2 : jsstring) :
  forall acc,
    parse_hex acc (h1 ++ h2)
    = match parse_hex acc h1 with
      | Some a => parse_hex a h2
      | None => None
      end.
Proof.
  induction h1 as [|c h1 IH]; intros acc; cbn [parse_hex app].
  - reflexivity.
  - destruct (hexval c); [apply IH|reflexivity].
Qed.

Lemma parse_hex_bound (h : jsstring) :
  forall acc z, parse_hex acc h = Some z ->
    acc * 16 ^ Z.of_nat (List.length h) <= z
    < (acc + 1) * 16 ^ Z.of_nat (List.length h).
Proof.
  induction h as [|c h IH]; intros acc z H; cbn [parse_hex] in H.
  - injection H as <-. cbn [List.length Z.of_nat]. lia.
  - destruct (hexval c) as [d|] eqn:Ed; [|discriminate].
    apply hexval_range in Ed. apply IH in H.
    cbn [List.length]. rewrite Nat2Z.inj_succ, Z.pow_succ_r by lia.
    assert (0 < 16 ^ Z.of_nat (List.length h)) by (apply Z.pow_pos_nonneg; lia).
    nia.
Qed.

Lemma base10ToHex_from_length (s : jsstring) :
  forall i acc, List.length (base10ToHex_from i acc s) = List.length s.
Proof.
  induction s as [|ch s IH]; intros i acc; cbn [base10ToHex_from List.length].
  - reflexivity.
  - now rewrite IH.
Qed.

Lemma base10ToHex_from_app (s t : jsstring) :
  forall i acc, exists acc',
    base10ToHex_from i acc (s ++ t)
    = base10ToHex_from i acc s
      ++ base10ToHex_from (i + Z.of_nat (List.length s)) acc' t.
Proof.
  induction s as [|ch s IH]; intros i acc.
  - exists acc. cbn [app base10ToHex_from List.length Z.of_nat].
    now rewrite Z.add_0_r.
  - cbn [app base10ToHex_from].
    destruct (IH (i + 1) (and32 (ushr0 (acc * 17 + (ch - 48))) 4294967295))
      as [acc' E].
    exists acc'. rewrite E. cbn [List.length]. rewrite Nat2Z.inj_succ.
    replace (i + 1 + Z.of_nat (List.length s)) with (i + Z.succ (Z.of_nat (List.length s))) by lia.
    reflexivity.
Qed.

(** The seed integer of a name extends the seed integer of the empty
    name by one hexadecimal digit per character. *)
Lemma seedBI_extends (name : jsstring) (F0 F : Field) :
  initField [] = Some F0 -> initField name = Some F ->
  seedBI F0 * 16 ^ Z.of_nat (List.length name) <= seedBI F
  < (seedBI F0 + 1) * 16 ^ Z.of_nat (List.length name).
Proof.
  rewrite !FieldProofs.initField_unfold, app_nil_r.
  unfold base10ToHex.
  destruct (base10ToHex_from_app (interleave3 RED BLACK BLUE) name 0 0)
    as [acc' ->].
  set (H0 := base10ToHex_from 0 0 (interleave3 RED BLACK BLUE)).
  set (R := base10ToHex_from _ acc' name).
  assert (HR : List.length R = List.length name)
    by apply base10ToHex_from_length.
  assert (E0 : BigInt_of_hex H0 = parse_hex 0 H0) by reflexivity.
  assert (E1 : BigInt_of_hex (H0 ++ R) = parse_hex 0 (H0 ++ R)) by reflexivity.
  rewrite E0, E1, parse_hex_app.
  destruct (parse_hex 0 H0) as [p|]; [|discriminate].
  intros Hp. injection Hp as <-. cbn [seedBI].
  destruct (parse_hex p R) as [z|] eqn:Ez; [|discriminate].
  intros Hz. injection Hz as <-. cbn [seedBI].
  rewrite <- HR. apply parse_hex_bound. exact Ez.
Qed.

Lemma seedBI_empty_name (F0 : Field) :
  initField [] = Some F0 -> 2 ^ 716 <= seedBI F0.
Proof.
  intros H. vm_compute in H. injection H as <-. cbn [seedBI].
  vm_compute. discriminate.
Qed.

(** X1. [hash] of a message that is not empty is a 64-bit value, whatever
    the field; [hash] of the empty message is the seed integer itself,
    which for the field of a name of n characters has more than
    716 + 4 n bits. *)
Theorem hash_width :
  (forall F msg, msg <> [] -> 0 <= fst (hash F msg) < 2 ^ 64) /\
  (forall F, fst (hash F []) = seedBI F) /\
  (forall name F, initField name = Some F ->
     2 ^ (716 + 4 * Z.of_nat (List.length name)) <= fst (hash F [])).
Proof.
  split; [|split].
  - intros F msg Hne. apply hash_from_range. exact Hne.
  - reflexivity.
  - intros name F HF. cbn [hash fst hash_from].
    destruct (FieldProofs.initField_total []) as [F0 H0].
    pose proof (seedBI_extends name F0 F H0 HF) as [Hlo _].
    pose proof (seedBI_empty_name F0 H0) as Hp.
    rewrite Z.pow_add_r by lia.
    replace (2 ^ (4 * Z.of_nat (List.length name)))
      with (16 ^ Z.of_nat (List.length name))
      by (change 16 with (2 ^ 4); rewrite <- Z.pow_mul_r by lia; reflexivity).
    assert (0 < 16 ^ Z.of_nat (List.length name)) by (apply Z.pow_pos_nonneg; lia).
    assert (0 < 2 ^ 716) by (apply Z.pow_pos_nonneg; lia).
    nia.
Qed.

Lemma hash_width_witness :
  exists F, initField (codes "AURALIA") = Some F /\
    2 ^ (716 + 4 * Z.of_nat (List.length (codes "AURALIA")))
    <= fst (hash F []).
Proof.
  destruct (initField (codes "AURALIA")) as [F|] eqn:E;
    [|exfalso; vm_compute in E; discriminate].
  exists F. split; [reflexivity|].
  apply (proj2 (proj2 hash_width) (codes "AURALIA") F E).
Defined.

End SeedProofs.

(* ================================================================== *)
(** * The hexadecimal seed string *)
(* ================================================================== *)

Module HexProofs.
Import Js MossPrime Scenarios.

Lemma ToUint32_mod16 (x : Z) : ToUint32 x mod 16 = x mod 16.
Proof.
  unfold ToUint32. apply Z.mod_mod_divide.
  exists (2 ^ 28). reflexivity.
Qed.

Lemma ToInt32_mod16 (x : Z) : ToInt32 x mod 16 = x mod 16.
Proof.
  unfold ToInt32. destruct (ToUint32 x <? 2 ^ 31).
  - apply ToUint32_mod16.
  - replace (ToUint32 x - 2 ^ 32) with (ToUint32 x + (- 2 ^ 28) * 16) by reflexivity.
    rewrite Z.mod_add by lia. apply ToUint32_mod16.
Qed.

Lemma and32_full_mod16 (a : Z) : and32 a 4294967295 mod 16 = a mod 16.
Proof.
  unfold and32. change (ToInt32 4294967295) with (-1).
  rewrite Z.land_m1_r, !ToInt32_mod16. reflexivity.
Qed.

Lemma and32_15 (y : Z) : and32 y 15 = y mod 16.
Proof.
  pose proof (FieldProofs.and32_15_range y) as Hr.
  rewrite <- (Z.mod_small (and32 y 15) 16) by lia.
  unfold and32. rewrite ToInt32_mod16.
  change (ToInt32 15) with (Z.ones 4).
  rewrite Z.land_ones by lia. change (2 ^ 4) with 16.
  rewrite Z.mod_mod by lia. apply ToInt32_mod16.
Qed.

Lemma land_lxor_distr (a b c : Z) :
  Z.land (Z.lxor a b) c = Z.lxor (Z.land a c) (Z.land b c).
Proof.
  apply Z.bits_inj'. intros n Hn.
  rewrite !Z.land_spec, !Z.lxor_spec, !Z.land_spec.
  destruct (Z.testbit a n), (Z.testbit b n), (Z.testbit c n); reflexivity.
Qed.

Lemma xor32_mod16 (a b : Z) :
  xor32 a b mod 16 = Z.lxor (a mod 16) (b mod 16).
Proof.
  unfold xor32. rewrite ToInt32_mod16.
  change 16 with (2 ^ 4). rewrite <- !Z.land_ones by lia.
  rewrite land_lxor_distr.
  rewrite !Z.land_ones by lia. change (2 ^ 4) with 16.
  rewrite !ToInt32_mod16. reflexivity.
Qed.

Lemma step_mod16 (acc acc' c d : Z) :
  acc mod 16 = acc' mod 16 -> c mod 16 = d mod 16 ->
  (acc * 17 + (c - 48)) mod 16 = (acc' * 17 + (d - 48)) mod 16.
Proof.
  intros Ha Hc.
  rewrite (Z.add_mod (acc * 17)), (Z.mul_mod acc), (Zminus_mod c) by lia.
  rewrite Ha, Hc.
  rewrite <- (Z.mul_mod acc'), <- (Zminus_mod d), <- Z.add_mod by lia.
  reflexivity.
Qed.

(** Only the residue modulo 16 of the accumulator and of each character
    reaches the output. *)
Lemma base10ToHex_from_mod16 (s t : jsstring) :
  Forall2 (fun c d => c mod 16 = d mod 16) s t ->
  forall i acc acc', acc mod 16 = acc' mod 16 ->
    base10ToHex_from i acc s = base10ToHex_from i acc' t.
Proof.
  induction 1 as [|c d s t Hcd Hst IH]; intros i acc acc' Hacc.
  - reflexivity.
  - cbn [base10ToHex_from].
    set (A := and32 (ushr0 (acc * 17 + (c - 48))) 4294967295).
    set (A' := and32 (ushr0 (acc' * 17 + (d - 48))) 4294967295).
    assert (HA : A mod 16 = A' mod 16).
    { unfold A, A', ushr0. rewrite !and32_full_mod16, !ToUint32_mod16.
      apply step_mod16; assumption. }
    rewrite !and32_15, !xor32_mod16, HA.
    f_equal. apply IH. exact HA.
Qed.

(** X2. [base10ToHex] gives one hexadecimal digit per character, the
    digits of a prefix are a prefix of the digits of the whole, and the
    result depends on each character code only through its remainder
    modulo 16. *)
Theorem base10ToHex_shape (s : jsstring) :
  List.length (base10ToHex s) = List.length s /\
  Forall (fun h => In h table) (base10ToHex s) /\
  (forall t, firstn (List.length s) (base10ToHex (s ++ t)) = base10ToHex s) /\
  (forall t, Forall2 (fun c d => c mod 16 = d mod 16) s t ->
             base10ToHex s = base10ToHex t).
Proof.
  split; [|split; [|split]].
  - apply SeedProofs.base10ToHex_from_length.
  - unfold base10ToHex. generalize 0 at 1. generalize 0.
    induction s as [|ch s IH]; intros acc i; cbn [base10ToHex_from].
    + constructor.
    + constructor; [|apply IH].
      apply nth_In.
      pose proof (FieldProofs.and32_15_range
                    (xor32 (and32 (ushr0 (acc * 17 + (ch - 48))) 4294967295) (i * 7))).
      change (List.length table) with 16%nat. lia.
  - intros t. unfold base10ToHex.
    destruct (SeedProofs.base10ToHex_from_app s t 0 0) as [acc' ->].
    rewrite <- (SeedProofs.base10ToHex_from_length s 0 0) at 1.
    rewrite firstn_app, Nat.sub_diag, firstn_all. cbn [firstn].
    apply app_nil_r.
  - intros t H. unfold base10ToHex.
    apply base10ToHex_from_mod16; [exact H|reflexivity].
Qed.

Lemma base10ToHex_shape_witness :
  base10ToHex (codes "AURALIA") = base10ToHex (codes "QERQ<YQ").
Proof.
  apply (proj2 (proj2 (proj2 (base10ToHex_shape (codes "AURALIA"))))).
  repeat constructor.
Defined.

Lemma prng_same_words (F1 F2 : Field) :
  s0 F1 = s0 F2 -> s1 F1 = s1 F2 ->
  fst (prng F1) = fst (prng F2) /\
  s0 (snd (prng F1)) = s0 (snd (prng F2)) /\
  s1 (snd (prng F1)) = s1 (snd (prng F2)).
Proof.
  intros E0 E1. unfold prng, prng_sum. cbn [fst snd s0 s1].
  rewrite E0, E1. repeat split.
Qed.

Lemma draws_same_words (k : nat) :
  forall F1 F2, s0 F1 = s0 F2 -> s1 F1 = s1 F2 ->
    s0 (draws k F1) = s0 (draws k F2) /\ s1 (draws k F1) = s1 (draws k F2).
Proof.
  induction k as [|k IH]; intros F1 F2 E0 E1; cbn [draws].
  - split; assumption.
  - destruct (prng_same_words F1 F2 E0 E1) as (_ & E0' & E1').
    apply IH; assumption.
Qed.

(** X3. Two names of equal length whose character codes agree modulo
    16 seed the same generator: the same seed integer and state words,
    the same value at every call of [prng], the same [hash] of every
    message. *)
Theorem congruent_names_same_generator (name1 name2 : jsstring) (F1 F2 : Field) :
  Forall2 (fun c d => c mod 16 = d mod 16) name1 name2 ->
  initField name1 = Some F1 -> initField name2 = Some F2 ->
  seedBI F1 = seedBI F2 /\ s0 F1 = s0 F2 /\ s1 F1 = s1 F2 /\
  (forall k, fst (prng (draws k F1)) = fst (prng (draws k F2))) /\
  (forall msg, fst (hash F1 msg) = fst (hash F2 msg)).
Proof.
  intros Hc. rewrite !FieldProofs.initField_unfold.
  assert (E : base10ToHex (interleave3 RED BLACK BLUE ++ name1)
              = base10ToHex (interleave3 RED BLACK BLUE ++ name2)).
  { apply base10ToHex_from_mod16; [|reflexivity].
    apply Forall2_app; [|exact Hc].
    clear. induction (interleave3 RED BLACK BLUE); constructor; auto. }
  rewrite E.
  destruct (BigInt_of_hex _) as [sb|]; [|discriminate].
  intros H1 H2. injection H1 as <-. injection H2 as <-.
  cbn [seedBI s0 s1]. repeat split.
  intros k.
  destruct (draws_same_words k
              (mkField name1 RED BLACK BLUE RING PULSE sb (mix64 sb)
                       (mix64 (Z.lxor sb 11936128518282651045)))
              (mkField name2 RED BLACK BLUE RING PULSE sb (mix64 sb)
                       (mix64 (Z.lxor sb 11936128518282651045)))
              eq_refl eq_refl) as [E0 E1].
  apply prng_same_words; assumption.
Qed.

Lemma congruent_names_same_generator_witness :
  exists F1 F2,
    initField (codes "AURALIA") = Some F1 /\
    initField (codes "QERQ<YQ") = Some F2 /\
    seedBI F1 = seedBI F2.
Proof.
  destruct (initField (codes "AURALIA")) as [F1|] eqn:E1;
    [|exfalso; vm_compute in E1; discriminate].
  destruct (initField (codes "QERQ<YQ")) as [F2|] eqn:E2;
    [|exfalso; vm_compute in E2; discriminate].
  exists F1, F2. split; [reflexivity|]. split; [reflexivity|].
  apply (congruent_names_same_generator (codes "AURALIA") (codes "QERQ<YQ") F1 F2);
    [repeat constructor|exact E1|exact E2].
Defined.

End HexProofs.

(* ================================================================== *)
(** * The generator stream, digits and interleaving *)
(* ================================================================== *)

Module StreamProofs.
Import Js MossPrime Scenarios.

(** X4. A call of [prng] returns a value of the closed interval [0, 1];
    it returns 1 exactly when the 64-bit sum of the new state words is
    one of the top 1024 values; it leaves the seed integer alone and
    moves the second state word into the first. *)
Theorem prng_unit_interval (F : Field) :
  (0 <= fst (prng F) <= 1)%Q /\
  ((fst (prng F) == 1)%Q <-> 2 ^ 64 - 1024 <= fst (prng_sum F)) /\
  seedBI (snd (prng F)) = seedBI F /\
  s0 (snd (prng F)) = s1 F.
Proof.
  assert (Hs : 0 <= fst (prng_sum F) < 2 ^ 64) by apply FieldProofs.mask64.
  destruct (FieldProofs.Number_of_bigint_64 _ Hs) as [Hn Htop].
  rewrite FieldProofs.prng_as_sum.
  split; [apply FieldProofs.ratio_le_1; exact Hn|].
  split; [|split; reflexivity].
  rewrite <- Htop.
  unfold Qeq, Qdiv, Qmult, Qinv, inject_Z. cbn [Qnum Qden Pos.mul].
  change (2 ^ 64) with 18446744073709551616. lia.
Qed.

Lemma toDigits_some (s : jsstring) :
  forall ds, toDigits s = Some ds ->
    ds = map (fun c => c - 48) s /\ Forall (fun c => 48 <= c <= 57) s.
Proof.
  induction s as [|ch s IH]; intros ds H; cbn [toDigits] in H.
  - injection H as <-. split; constructor.
  - destruct ((ch - 48 <? 0) || (9 <? ch - 48)) eqn:E; [discriminate|].
    apply orb_false_iff in E. destruct E as [E1 E2].
    apply Z.ltb_ge in E1, E2.
    destruct (toDigits s) as [ds'|]; [|discriminate].
    injection H as <-. destruct (IH ds' eq_refl) as [-> HF].
    split; [reflexivity|]. constructor; [lia|exact HF].
Qed.

Lemma toDigits_digits (s : jsstring) :
  Forall (fun c => 48 <= c <= 57) s ->
  toDigits s = Some (map (fun c => c - 48) s).
Proof.
  induction 1 as [|ch s Hc Hs IH]; cbn [toDigits map].
  - reflexivity.
  - rewrite IH.
    destruct (Z.ltb_spec (ch - 48) 0); [lia|].
    destruct (Z.ltb_spec 9 (ch - 48)); [lia|]. reflexivity.
Qed.

(** X5. [toDigits] succeeds exactly on strings of the characters 0 to 9,
    then with the digit values in order; it throws exactly when some
    character is another one; and a result has the length of the
    string, entries from 0 to 9, and gives the string back. *)
Theorem toDigits_spec (s : jsstring) :
  (Forall (fun c => 48 <= c <= 57) s <->
   toDigits s = Some (map (fun c => c - 48) s)) /\
  (toDigits s = None <-> Exists (fun c => c < 48 \/ 57 < c) s) /\
  (forall ds, toDigits s = Some ds ->
     List.length ds = List.length s /\
     Forall (fun d => 0 <= d <= 9) ds /\
     map (fun d => d + 48) ds = s).
Proof.
  split; [|split].
  - split; [apply toDigits_digits|].
    intros H. apply (toDigits_some s _ H).
  - split.
    + intros H.
      assert (HE : Exists (fun c => ~ 48 <= c <= 57) s).
      { apply neg_Forall_Exists_neg.
        - intros c. destruct (Z_lt_dec c 48); [right; lia|].
          destruct (Z_lt_dec 57 c); [right; lia|left; lia].
        - intros HF. rewrite (toDigits_digits s HF) in H. discriminate. }
      eapply Exists_impl; [|exact HE]. cbv beta. intros c Hc. lia.
    + intros HE. destruct (toDigits s) as [ds|] eqn:E; [|reflexivity].
      destruct (toDigits_some s ds E) as [_ HF].
      exfalso. apply Exists_exists in HE. destruct HE as (c & Hin & Hc).
      rewrite Forall_forall in HF. specialize (HF c Hin). lia.
  - intros ds H. destruct (toDigits_some s ds H) as [-> HF].
    split; [apply length_map|]. split.
    + apply Forall_map. eapply Forall_impl; [|exact HF].
      cbv beta. intros c Hc. lia.
    + rewrite map_map. rewrite <- (map_id s) at 2.
      apply map_ext. intros c. lia.
Qed.

Lemma toDigits_spec_witness :
  List.length [4; 2] = List.length (codes "42") /\
  Forall (fun d => 0 <= d <= 9) [4; 2] /\
  map (fun d => d + 48) [4; 2] = codes "42".
Proof.
  apply (proj2 (proj2 (toDigits_spec (codes "42")))). reflexivity.
Defined.

(** X6. [interleave3] has three times the length of the shortest
    argument, and its characters 3i, 3i+1 and 3i+2 are the i-th
    characters of the three arguments. *)
Theorem interleave3_spec (a b c : jsstring) :
  let n := Nat.min (List.length a) (Nat.min (List.length b) (List.length c)) in
  List.length (interleave3 a b c) = (3 * n)%nat /\
  forall i, (i < n)%nat ->
    nth_error (interleave3 a b c) (3 * i) = nth_error a i /\
    nth_error (interleave3 a b c) (3 * i + 1) = nth_error b i /\
    nth_error (interleave3 a b c) (3 * i + 2) = nth_error c i.
Proof.
  revert b c. induction a as [|x a IH]; intros b c n.
  - subst n. cbn. split; [reflexivity|]. intros i Hi. lia.
  - destruct b as [|y b]; [subst n; cbn; split; [reflexivity|intros; lia]|].
    destruct c as [|z c].
    { subst n. cbn. split; [reflexivity|intros; lia]. }
    destruct (IH b c) as [Hlen Hnth].
    subst n. cbn [interleave3 List.length].
    rewrite <- !Nat.succ_min_distr. split; [lia|].
    intros i Hi. destruct i as [|i].
    + cbn. repeat split.
    + specialize (Hnth i ltac:(lia)).
      replace (3 * S i)%nat with (S (S (S (3 * i)))) by lia.
      replace (S (S (S (3 * i))) + 1)%nat with (S (S (S (3 * i + 1)))) by lia.
      replace (S (S (S (3 * i))) + 2)%nat with (S (S (S (3 * i + 2)))) by lia.
      cbn [nth_error]. exact Hnth.
Qed.

Lemma interleave3_spec_witness :
  nth_error (interleave3 (codes "ab") (codes "cd") (codes "efg")) (3 * 1)
  = nth_error (codes "ab") 1.
Proof.
  apply (proj2 (interleave3_spec (codes "ab") (codes "cd") (codes "efg")) 1%nat).
  cbn. lia.
Defined.

End StreamProofs.

(* ================================================================== *)
(** * Growth of the generator state *)
(* ================================================================== *)

Module GrowthProofs.
Import Js MossPrime Scenarios.

(** The top bit of [a] survives an exclusive or with a smaller number. *)
Lemma log2_lxor_top (a b : Z) :
  0 < a -> 0 <= b -> b < 2 ^ Z.log2 a ->
  Z.log2 (Z.lxor a b) = Z.log2 a /\ 0 < Z.lxor a b.
Proof.
  intros Ha Hb Hlt.
  assert (Hr : 0 <= Z.lxor a b) by (apply Z.lxor_nonneg; lia).
  assert (Hbit : Z.testbit (Z.lxor a b) (Z.log2 a) = true).
  { rewrite Z.lxor_spec, (Z.bit_log2 a Ha).
    destruct (Z.eq_dec b 0) as [->|Hnz]; [rewrite Z.bits_0; reflexivity|].
    rewrite (Z.bits_above_log2 b); [reflexivity|lia|].
    apply Z.log2_lt_pow2; lia. }
  assert (Hpos : 0 < Z.lxor a b).
  { destruct (Z.eq_dec (Z.lxor a b) 0) as [E|E]; [|lia].
    rewrite E, Z.bits_0 in Hbit. discriminate. }
  split; [|exact Hpos].
  apply Z.le_antisymm.
  - etransitivity; [apply Z.log2_lxor; lia|].
    apply Z.max_lub; [lia|].
    destruct (Z.eq_dec b 0) as [->|Hnz]; [apply Z.log2_nonneg|].
    apply Z.lt_le_incl, Z.log2_lt_pow2; lia.
  - destruct (Z_le_gt_dec (Z.log2 a) (Z.log2 (Z.lxor a b))) as [H|H]; [exact H|].
    rewrite (Z.bits_above_log2 (Z.lxor a b)) in Hbit; [discriminate|lia|lia].
Qed.

Lemma shiftr_small (a n : Z) :
  0 < a -> 0 < n -> 0 <= Z.shiftr a n < 2 ^ Z.log2 a.
Proof.
  intros Ha Hn. split; [apply Z.shiftr_nonneg; lia|].
  rewrite Z.shiftr_div_pow2 by lia.
  pose proof (Z.log2_spec a Ha) as [Hlo Hhi].
  pose proof (Z.log2_nonneg a) as Hl.
  assert (Hp : 2 <= 2 ^ n).
  { change 2 with (2 ^ 1) at 1. apply Z.pow_le_mono_r; lia. }
  apply Z.div_lt_upper_bound; [lia|].
  rewrite Z.pow_succ_r in Hhi by lia. nia.
Qed.

(** The word [prng] stores in [s1], from the old words [x] and [y]. *)
Lemma next_word (x y : Z) :
  0 < x -> 0 <= y ->
  let x1 := Z.lxor x (Z.shiftl x 23) in
  let x2 := Z.lxor x1 (Z.shiftr x1 17) in
  let X := Z.lxor x2 (Z.lxor y (Z.shiftr y 26)) in
  0 <= X /\
  Z.log2 X <= Z.max (Z.log2 x + 23) (Z.log2 y) /\
  (y < 2 ^ (Z.log2 x + 23) -> Z.log2 X = Z.log2 x + 23) /\
  (Z.log2 x + 23 < Z.log2 y -> Z.log2 X = Z.log2 y).
Proof.
  intros Hx Hy x1 x2 X.
  pose proof (Z.log2_nonneg x) as Hlx.
  pose proof (Z.log2_spec x Hx) as [Hxlo Hxhi].
  assert (HA : 0 < Z.shiftl x 23).
  { rewrite Z.shiftl_mul_pow2 by lia. lia. }
  assert (HlA : Z.log2 (Z.shiftl x 23) = Z.log2 x + 23)
    by (apply Z.log2_shiftl; lia).
  assert (H1 : Z.log2 x1 = Z.log2 x + 23 /\ 0 < x1).
  { unfold x1. rewrite Z.lxor_comm, <- HlA.
    apply log2_lxor_top; [exact HA|lia|].
    rewrite HlA.
    eapply Z.lt_le_trans; [exact Hxhi|].
    apply Z.pow_le_mono_r; lia. }
  destruct H1 as [Hl1 Hp1].
  assert (H2 : Z.log2 x2 = Z.log2 x + 23 /\ 0 < x2).
  { unfold x2. rewrite <- Hl1.
    apply log2_lxor_top; [exact Hp1| |]; apply shiftr_small; lia. }
  destruct H2 as [Hl2 Hp2].
  set (w := Z.lxor y (Z.shiftr y 26)) in *.
  assert (Hw0 : 0 <= w).
  { apply Z.lxor_nonneg. split; intros _; [apply Z.shiftr_nonneg|]; lia. }
  assert (Hw : Z.log2 w = Z.log2 y).
  { destruct (Z.eq_dec y 0) as [->|Hnz]; [reflexivity|].
    apply log2_lxor_top; [lia| |]; apply shiftr_small; lia. }
  split; [apply Z.lxor_nonneg; lia|].
  split.
  { unfold X. etransitivity; [apply Z.log2_lxor; lia|]. rewrite Hl2, Hw. lia. }
  split.
  - intros Hlt. unfold X. rewrite <- Hl2.
    apply log2_lxor_top; [exact Hp2|exact Hw0|].
    rewrite Hl2.
    destruct (Z.eq_dec w 0) as [->|Hwz]; [apply Z.pow_pos_nonneg; lia|].
    apply Z.log2_lt_pow2; [lia|]. rewrite Hw.
    destruct (Z.eq_dec y 0) as [->|Hnz]; [cbn; lia|].
    apply Z.log2_lt_pow2; lia.
  - intros Hgt. unfold X. rewrite Z.lxor_comm, <- Hw.
    assert (Hwp : 0 < w).
    { destruct (Z.eq_dec w 0) as [E|E]; [|lia].
      rewrite E in Hw. cbn in Hw. lia. }
    apply log2_lxor_top; [exact Hwp|lia|].
    apply Z.log2_lt_pow2; [lia|]. rewrite Hw, Hl2. exact Hgt.
Qed.

Lemma prng_words (G : Field) :
  s0 (snd (prng G)) = s1 G /\
  s1 (snd (prng G))
  = Z.lxor (Z.lxor (Z.lxor (s0 G) (Z.shiftl (s0 G) 23))
              (Z.shiftr (Z.lxor (s0 G) (Z.shiftl (s0 G) 23)) 17))
      (Z.lxor (s1 G) (Z.shiftr (s1 G) 26)).
Proof. split; reflexivity. Qed.

(** X7. The state words of [prng] are never cut back to 64 bits: from
    positive words, two calls leave words that are not negative and
    raise the larger of (bit length of the first word + 23) and (bit
    length of the second) by at least 23. *)
Theorem prng_state_grows (F : Field) :
  0 < s0 F -> 0 < s1 F ->
  let F2 := draws 2 F in
  0 <= s0 F2 /\ 0 <= s1 F2 /\
  Z.max (Z.log2 (s0 F) + 23) (Z.log2 (s1 F)) + 23
  <= Z.max (Z.log2 (s0 F2) + 23) (Z.log2 (s1 F2)).
Proof.
  intros H0 H1 F2. subst F2. cbn [draws].
  destruct (prng_words (snd (prng F))) as [-> ->].
  destruct (prng_words F) as [-> ->].
  set (x := s0 F) in *. set (y := s1 F) in *.
  destruct (next_word x y H0 ltac:(lia)) as (HX0 & HXle & HXlt & HXgt).
  cbv zeta in HX0, HXle, HXlt, HXgt.
  set (X := Z.lxor (Z.lxor (Z.lxor x (Z.shiftl x 23))
                      (Z.shiftr (Z.lxor x (Z.shiftl x 23)) 17))
              (Z.lxor y (Z.shiftr y 26))) in *.
  destruct (next_word y X H1 HX0) as (HY0 & HYle & HYlt & HYgt).
  cbv zeta in HY0, HYle, HYlt, HYgt.
  set (Y := Z.lxor (Z.lxor (Z.lxor y (Z.shiftl y 23))
                      (Z.shiftr (Z.lxor y (Z.shiftl y 23)) 17))
              (Z.lxor X (Z.shiftr X 26))) in *.
  split; [exact HX0|]. split; [exact HY0|].
  pose proof (Z.log2_nonneg x) as Hlx. pose proof (Z.log2_nonneg y) as Hly.
  destruct (Z.lt_trichotomy (Z.log2 y) (Z.log2 x + 23)) as [Hc|[Hc|Hc]].
  - assert (E : Z.log2 X = Z.log2 x + 23).
    { apply HXlt. apply Z.log2_lt_pow2; lia. }
    lia.
  - assert (E : Z.log2 Y = Z.log2 y + 23).
    { apply HYlt.
      destruct (Z.eq_dec X 0) as [->|HXz]; [apply Z.pow_pos_nonneg; lia|].
      apply Z.log2_lt_pow2; lia. }
    lia.
  - assert (E : Z.log2 X = Z.log2 y) by (apply HXgt; lia).
    lia.
Qed.

Lemma prng_state_grows_witness :
  Z.max (Z.log2 5 + 23) (Z.log2 9) + 23
  <= Z.max (Z.log2 (s0 (draws 2 (mkField [] [] [] [] [] [] 0 5 9))) + 23)
           (Z.log2 (s1 (draws 2 (mkField [] [] [] [] [] [] 0 5 9)))).
Proof.
  apply (prng_state_grows (mkField [] [] [] [] [] [] 0 5 9)); reflexivity.
Defined.

End GrowthProofs.

(* ================================================================== *)
(** * The domain of fib and lucas *)
(* ================================================================== *)

Module FibDomain.
Import Js MossPrime Scenarios.

Lemma fn_nonneg (k : Z) :
  0 <= k ->
  fn k = Some (Fibonacci (Z.to_nat k), Fibonacci (S (Z.to_nat k))).
Proof.
  intros Hk. rewrite <- (Z2Nat.id k Hk) at 1. apply FibProofs.fn_nat.
Qed.

Lemma fibFast_number (q : Q) :
  fibFast (Num (Fin q))
  = Some (Fibonacci (Z.to_nat (Qfloor q)), Fibonacci (S (Z.to_nat (Qfloor q)))).
Proof.
  rewrite FibProofs.fibFast_finite, fn_nonneg by lia.
  destruct (Z.le_ge_cases 0 (Qfloor q)) as [H|H].
  - rewrite Z.max_r by lia. reflexivity.
  - rewrite Z.max_l by lia.
    replace (Z.to_nat (Qfloor q)) with O by lia. reflexivity.
Qed.

(** X8. [fib] and [lucas] throw exactly on NaN and on +Infinity; on every
    finite number they return the Fibonacci and Lucas numbers of index
    the floor of the argument, negative arguments counting as 0; and
    [fibFast] of a BigInt returns the pair of that index and the next,
    a negative one counting as 0. *)
Theorem fib_lucas_domain :
  (forall x, fib x = None <-> x = NaN \/ x = PInf) /\
  (forall x, lucas x = None <-> x = NaN \/ x = PInf) /\
  (forall q : Q,
      fib (Fin q) = Some (Fibonacci (Z.to_nat (Qfloor q))) /\
      lucas (Fin q) = Some (Lucas (Z.to_nat (Qfloor q)))) /\
  (forall z : Z,
      fibFast (BigI z)
      = Some (Fibonacci (Z.to_nat z), Fibonacci (S (Z.to_nat z)))).
Proof.
  assert (Hfib : forall q, fib (Fin q) = Some (Fibonacci (Z.to_nat (Qfloor q)))).
  { intros q. unfold fib. rewrite fibFast_number. reflexivity. }
  assert (Hluc : forall q, lucas (Fin q) = Some (Lucas (Z.to_nat (Qfloor q)))).
  { intros q. unfold lucas. cbn [is_zero Math_max].
    destruct (Qeq_bool q 0) eqn:E.
    - apply Qeq_bool_iff in E. rewrite (Qfloor_comp _ _ E). reflexivity.
    - rewrite fibFast_number.
      destruct (Qlt_le_dec q 0) as [Hneg|Hpos].
      + assert (Em : (Qmax 0 q == 0)%Q) by (apply Q.max_l, Qlt_le_weak, Hneg).
        rewrite (Qfloor_comp _ _ Em).
        assert (Hf : Qfloor q <= 0).
        { apply FibProofs.Qfloor_nonpos, Qlt_le_weak, Hneg. }
        replace (Z.to_nat (Qfloor q)) with O by lia. reflexivity.
      + assert (Em : (Qmax 0 q == q)%Q) by (apply Q.max_r, Hpos).
        rewrite (Qfloor_comp _ _ Em).
        rewrite (proj1 (FibProofs.Lucas_Fibonacci _)). reflexivity. }
  split; [|split; [|split]].
  - intros x. destruct x as [q| | |].
    + rewrite Hfib. split; [discriminate|intros [H|H]; discriminate].
    + split; [auto|reflexivity].
    + split; [auto|reflexivity].
    + split; [discriminate|intros [H|H]; discriminate].
  - intros x. destruct x as [q| | |].
    + rewrite Hluc. split; [discriminate|intros [H|H]; discriminate].
    + split; [auto|reflexivity].
    + split; [auto|reflexivity].
    + split; [discriminate|intros [H|H]; discriminate].
  - intros q. split; [apply Hfib|apply Hluc].
  - intros z. unfold fibFast.
    destruct (Z.ltb_spec z 0).
    + replace (Z.to_nat z) with O by lia. reflexivity.
    + apply fn_nonneg. lia.
Qed.
End FibDomain.

(* ================================================================== *)
(** * guardianBehaviorStubs: lore *)
(* ================================================================== *)

Module StubsProofs.
Import Js Stubs.
Local Open Scope Q_scope.

Lemma geb_le (a b : Q) : geb a b = true <-> b <= a.
Proof. unfold geb. apply Qle_bool_iff. Qed.

Lemma geb_lt (a b : Q) : geb a b = false <-> a < b.
Proof.
  unfold geb. split; intros H.
  - apply Qnot_le_lt. intros L. apply Qle_bool_iff in L. congruence.
  - destruct (Qle_bool b a) eqn:E; [|reflexivity].
    apply Qle_bool_iff in E. exfalso. exact (Qlt_not_le _ _ H E).
Qed.

Lemma gtb_lt (a b : Q) : gtb a b = true <-> b < a.
Proof. unfold gtb. apply GenomeProofs.ltb_lt. Qed.

Lemma gtb_ge (a b : Q) : gtb a b = false <-> a <= b.
Proof. unfold gtb. apply GenomeProofs.ltb_ge. Qed.

Ltac cmp b :=
  let E := fresh "E" in
  destruct b eqn:E;
  [ first [apply geb_le in E | apply gtb_lt in E | apply GenomeProofs.ltb_lt in E]
  | first [apply geb_lt in E | apply gtb_ge in E | apply GenomeProofs.ltb_ge in E] ].

(** X9. The lore unlocked never shrinks as the dream count grows: the
    lore of a smaller count is a prefix of the lore of a larger one; at
    most five entries exist, and none is unlocked below one dream. *)
Theorem lore_accumulates (a b : Q) :
  a <= b ->
  (exists more, getUnlockedLore b = getUnlockedLore a ++ more) /\
  (List.length (getUnlockedLore a) <= 5)%nat /\
  (getUnlockedLore a = [] <-> a < 1).
Proof.
  intros Hab. unfold getUnlockedLore.
  cmp (geb a 20); [|cmp (geb a 10); [|cmp (geb a 5); [|cmp (geb a 3); [|cmp (geb a 1)]]]].
  all: repeat match goal with
       | |- context [geb ?x ?k] =>
           first [ replace (geb x k) with true by (symmetry; apply geb_le; lra)
                 | replace (geb x k) with false by (symmetry; apply geb_lt; lra)
                 | cmp (geb x k) ]
       end.
  all: cbn [app List.length].
  all: try lra.
  all: (split; [eexists; cbn; reflexivity|split; [lia|split; [intros; try discriminate; lra| intros; try reflexivity; lra]]]).
Qed.

Lemma lore_accumulates_witness :
  3 <= 12 /\
  (exists more, getUnlockedLore 12 = getUnlockedLore 3 ++ more) /\
  (List.length (getUnlockedLore 3) <= 5)%nat /\
  (getUnlockedLore 3 = [] <-> 3 < 1).
Proof. split; [discriminate|apply lore_accumulates; discriminate]. Defined.

End StubsProofs.

(* ================================================================== *)
(** * guardianBehaviorStubs: drives and comfort *)
(* ================================================================== *)

Module GbspProofs.
Import Js Stubs StubsProofs.
Local Open Scope Q_scope.

Lemma avg4_nonneg (e r p f : Q) :
  0 <= e -> 0 <= r -> 0 <= p -> 0 <= f ->
  0 <= fold_left Qplus [e; r; p; f] 0
       / inject_Z (Z.of_nat (List.length [e; r; p; f])).
Proof.
  intros. cbn [fold_left List.length Z.of_nat Pos.of_succ_nat Pos.succ].
  unfold Qdiv. change (/ inject_Z 4) with (1 # 4). lra.
Qed.

Lemma min100_range (lo a : Q) : lo <= 100 -> lo <= a -> lo <= Qmin 100 a <= 100.
Proof.
  intros H1 H2. split; [apply Q.min_glb; assumption|apply Q.le_min_l].
Qed.

Lemma drives_range (position : GuardianPosition) (field : GuardianField)
    (vitals : Behavior.GuardianStats) (awareness timestamp : Q) :
  0 <= Behavior.energy vitals <= 100 ->
  0 <= Behavior.curiosity vitals ->
  0 <= Behavior.bond vitals ->
  0 <= awareness ->
  let d := calculateDrives position field vitals awareness timestamp in
  0 <= explore d <= 100 /\ rest d == 100 - Behavior.energy vitals /\
  0 <= play d <= 100 /\ 0 <= focus d <= 100.
Proof.
  intros He Hc Hb Ha d. subst d. unfold calculateDrives.
  cbn [explore rest play focus].
  split; [apply min100_range; [discriminate|lra]|].
  split; [apply Q.max_r; lra|].
  split; apply min100_range; try discriminate; lra.
Qed.

Lemma comfort_range (d : GuardianDrive) :
  0 <= explore d -> 0 <= rest d -> 0 <= play d -> 0 <= focus d ->
  let c := calculateComfort d in
  50 <= physical c <= 100 /\ 40 <= mental c <= 100 /\
  30 <= emotional c <= 100 /\ 0 <= overall c <= 100.
Proof.
  intros Hx Hr Hp Hf c. subst c. unfold calculateComfort.
  cbn [physical mental emotional overall].
  split; [apply min100_range; [discriminate|lra]|].
  split; [apply min100_range; [discriminate|lra]|].
  split; [apply min100_range; [discriminate|lra]|].
  apply min100_range; [discriminate|]. apply avg4_nonneg; assumption.
Qed.

(** X10. For vitals within [0, 100], [calculateGBSPState] gives an
    awareness equal to the mean of curiosity and energy, a rest drive
    equal to 100 minus energy, every other drive within [0, 100],
    physical comfort within [50, 100], mental within [40, 100],
    emotional within [30, 100], overall comfort within [0, 100] and equal
    to the sentiment; the need for rest is never listed as unmet. *)
Theorem gbsp_bounds (position : GuardianPosition) (field : GuardianField)
    (vitals : Behavior.GuardianStats) (aiMode : Behavior.GuardianAIMode)
    (timestamp : Q) :
  0 <= Behavior.energy vitals <= 100 ->
  0 <= Behavior.curiosity vitals <= 100 ->
  0 <= Behavior.bond vitals <= 100 ->
  let g := calculateGBSPState position field vitals aiMode timestamp in
  awareness g == (Behavior.curiosity vitals + Behavior.energy vitals) / 2 /\
  0 <= explore (drives g) <= 100 /\
  rest (drives g) == 100 - Behavior.energy vitals /\
  0 <= play (drives g) <= 100 /\
  0 <= focus (drives g) <= 100 /\
  50 <= physical (comfort g) <= 100 /\
  40 <= mental (comfort g) <= 100 /\
  30 <= emotional (comfort g) <= 100 /\
  0 <= overall (comfort g) <= 100 /\
  sentiment g = overall (comfort g) /\
  ~ In "rest"%string (unmetNeeds (comfort g)).
Proof.
  intros He Hc Hb g.
  assert (Hh : (Behavior.curiosity vitals + Behavior.energy vitals) / 2
               == (Behavior.curiosity vitals + Behavior.energy vitals) * (1 # 2)).
  { unfold Qdiv. change (/ 2) with (1 # 2). reflexivity. }
  assert (Ha : 0 <= (Behavior.curiosity vitals + Behavior.energy vitals) / 2 <= 100)
    by (rewrite Hh; lra).
  assert (Ha' : 0 <= awareness g).
  { subst g. unfold calculateGBSPState. cbn [awareness].
    apply Q.min_glb; [discriminate|apply Ha]. }
  pose proof (drives_range position field vitals (awareness g) timestamp
                He (proj1 Hc) (proj1 Hb) Ha') as D.
  change (calculateDrives position field vitals (awareness g) timestamp)
    with (drives g) in D.
  cbv zeta in D. destruct D as (Dx & Dr & Dp & Df).
  assert (Hr : 0 <= rest (drives g)) by (rewrite Dr; lra).
  pose proof (comfort_range (drives g) (proj1 Dx) Hr (proj1 Dp) (proj1 Df)) as C.
  change (calculateComfort (drives g)) with (comfort g) in C.
  cbv zeta in C. destruct C as (Cp & Cm & Ce & Co).
  split; [subst g; unfold calculateGBSPState; cbn [awareness];
          apply Q.min_r; apply Ha|].
  repeat (split; [assumption|]).
  split; [reflexivity|].
  change (unmetNeeds (comfort g))
    with ((if ltb (physical (comfort g)) 50 then ["rest"%string] else [])
          ++ (if ltb (mental (comfort g)) 50 then ["focus"%string] else [])
          ++ (if ltb (emotional (comfort g)) 50 then ["play"%string] else [])).
  replace (ltb (physical (comfort g)) 50) with false
    by (symmetry; apply GenomeProofs.ltb_ge; apply Cp).
  cbn [app]. intros HI.
  destruct (ltb (mental (comfort g)) 50), (ltb (emotional (comfort g)) 50);
    cbn in HI; intuition discriminate.
Qed.

Lemma gbsp_bounds_witness :
  let g := calculateGBSPState (mkPosition 0 0 0 0)
             (mkGuardianField 400 400 200 200)
             (Behavior.mkStats 80 60 40 90) Behavior.idle 0 in
  50 <= physical (comfort g) <= 100 /\
  ~ In "rest"%string (unmetNeeds (comfort g)).
Proof.
  intros g.
  destruct (gbsp_bounds (mkPosition 0 0 0 0) (mkGuardianField 400 400 200 200)
              (Behavior.mkStats 80 60 40 90) Behavior.idle 0)
    as (_ & _ & _ & _ & _ & P & _ & _ & _ & _ & U);
    try (cbn; split; discriminate).
  split; [exact P|exact U].
Defined.

End GbspProofs.

(* ================================================================== *)
(** * guardianBehaviorStubs: emotional state and interaction *)
(* ================================================================== *)

Module InteractionProofs.
Import Js Stubs StubsProofs.
Local Open Scope Q_scope.

(** X11. Outside the dreaming and focusing modes, a guardian whose energy
    is below 30 and whose curiosity is at most 100 is tired: its play
    drive cannot exceed 70, so the earlier rule never fires. *)
Theorem low_energy_is_tired (position : GuardianPosition)
    (field : GuardianField) (vitals : Behavior.GuardianStats)
    (aiMode : Behavior.GuardianAIMode) (timestamp : Q) :
  aiMode <> Behavior.dreaming -> aiMode <> Behavior.focusing ->
  Behavior.energy vitals < 30 -> Behavior.curiosity vitals <= 100 ->
  emotionalState (calculateGBSPState position field vitals aiMode timestamp)
  = "tired"%string.
Proof.
  intros Hd Hf He Hc. unfold calculateGBSPState. cbn [emotionalState].
  unfold getExpandedEmotionalState.
  replace (Behavior.mode_eqb aiMode Behavior.dreaming) with false
    by (destruct aiMode; try reflexivity; congruence).
  replace (Behavior.mode_eqb aiMode Behavior.focusing) with false
    by (destruct aiMode; try reflexivity; congruence).
  unfold calculateDrives at 1. cbn [play].
  replace (gtb _ 70) with false.
  - replace (ltb (Behavior.energy vitals) 30) with true
      by (symmetry; apply GenomeProofs.ltb_lt; exact He).
    reflexivity.
  - symmetry. apply gtb_ge.
    eapply Qle_trans; [apply Q.le_min_r|]. lra.
Qed.

Lemma low_energy_is_tired_witness :
  emotionalState
    (calculateGBSPState (mkPosition 0 0 0 0) (mkGuardianField 400 400 200 200)
       (Behavior.mkStats 20 100 90 80) Behavior.playing 0)
  = "tired"%string.
Proof.
  apply low_energy_is_tired; cbn; try discriminate; reflexivity.
Defined.

Lemma pokes_cons (stats : Behavior.GuardianStats) (t : Q) (ts : list Q)
    (r : Refs) :
  pokes stats (t :: ts) r
  = (fst (handlePoke stats t r)
       :: fst (pokes stats ts (snd (handlePoke stats t r))),
     snd (pokes stats ts (snd (handlePoke stats t r)))).
Proof.
  cbn [pokes]. destruct (handlePoke stats t r) as [calls r1].
  cbn [fst snd]. destruct (pokes stats ts r1) as [more r2]. reflexivity.
Qed.

Lemma handlePoke_rapid (stats : Behavior.GuardianStats) (now : Q) (r : Refs) :
  now - lastPokeTime r < 500 -> (0 <= pokeCount r <= 2)%Z ->
  reactions (fst (handlePoke stats now r))
  = [if ((pokeCount r + 1) mod 3 =? 0)%Z then tickle else poke] /\
  pokeCount (snd (handlePoke stats now r)) = ((pokeCount r + 1) mod 3)%Z /\
  lastPokeTime (snd (handlePoke stats now r)) = now /\
  lastInteraction (snd (handlePoke stats now r)) = now.
Proof.
  intros Hgap Hc. unfold handlePoke.
  replace (ltb (now - lastPokeTime r) 500) with true
    by (symmetry; apply GenomeProofs.ltb_lt; exact Hgap).
  assert (C : pokeCount r = 0%Z \/ pokeCount r = 1%Z \/ pokeCount r = 2%Z) by lia.
  destruct C as [C|[C|C]]; rewrite C; cbn; repeat split; reflexivity.
Qed.

(** X12. In a run of pokes each less than 500 ms after the one before,
    started with a poke count within 0..2, the count after the run is
    the sum of the start count and the number of pokes modulo 3, and the
    poke of index i is answered by a tickle exactly when the start count
    plus i + 1 is a multiple of 3, by a poke reaction otherwise. *)
Theorem poke_combo (stats : Behavior.GuardianStats) (times : list Q) (r : Refs) :
  (0 <= pokeCount r <= 2)%Z -> rapid (lastPokeTime r) times ->
  pokeCount (snd (pokes stats times r))
  = ((pokeCount r + Z.of_nat (List.length times)) mod 3)%Z /\
  forall (i : nat) (calls : list Call),
    nth_error (fst (pokes stats times r)) i = Some calls ->
    reactions calls
    = [if ((pokeCount r + Z.of_nat i + 1) mod 3 =? 0)%Z then tickle else poke].
Proof.
  revert r. induction times as [|t ts IH]; intros r Hc Hr.
  - cbn [pokes fst snd List.length Z.of_nat]. split.
    + rewrite Z.add_0_r, Z.mod_small by lia. reflexivity.
    + intros i calls H. destruct i; discriminate.
  - destruct Hr as [Hgap Hr]. rewrite pokes_cons. cbn [fst snd].
    destruct (handlePoke_rapid stats t r Hgap Hc) as (R1 & R2 & R3 & _).
    assert (Hc' : (0 <= pokeCount (snd (handlePoke stats t r)) <= 2)%Z).
    { rewrite R2. pose proof (Z.mod_pos_bound (pokeCount r + 1) 3). lia. }
    assert (Hr' : rapid (lastPokeTime (snd (handlePoke stats t r))) ts)
      by (rewrite R3; exact Hr).
    destruct (IH _ Hc' Hr') as [I1 I2]. split.
    + rewrite I1, R2. rewrite Zplus_mod_idemp_l.
      f_equal. cbn [List.length]. lia.
    + intros [|i] calls H; cbn [nth_error] in H.
      * injection H as <-. rewrite R1. cbn [Z.of_nat]. rewrite Z.add_0_r.
        reflexivity.
      * rewrite (I2 i calls H). rewrite R2.
        replace (pokeCount r + Z.of_nat (S i) + 1)%Z
          with ((pokeCount r + 1) + (Z.of_nat i + 1))%Z by lia.
        rewrite <- Z.add_assoc.
        rewrite Zplus_mod_idemp_l. reflexivity.
Qed.

Lemma poke_combo_witness :
  let stats := Behavior.mkStats 50 50 50 50 in
  let r := mkRefs 1000 0 1000 in
  let times := [1100; 1300; 1700; 2100; 2500; 2600; 2700] in
  pokeCount (snd (pokes stats times r)) = 1%Z /\
  forall (i : nat) (calls : list Call),
    nth_error (fst (pokes stats times r)) i = Some calls ->
    reactions calls
    = [if ((0 + Z.of_nat i + 1) mod 3 =? 0)%Z then tickle else poke].
Proof.
  intros stats r times.
  apply (poke_combo stats times r).
  - cbn. lia.
  - cbn. repeat split; reflexivity.
Defined.

(** X13. A poke that comes 500 ms or more after the last one is answered
    by a poke reaction and restarts the count at 1, whatever the count
    was; both time stamps become the time of the poke. *)
Theorem slow_poke_restarts (stats : Behavior.GuardianStats) (now : Q) (r : Refs) :
  500 <= now - lastPokeTime r ->
  reactions (fst (handlePoke stats now r)) = [poke] /\
  snd (handlePoke stats now r) = mkRefs now 1 now.
Proof.
  intros H. unfold handlePoke.
  replace (ltb (now - lastPokeTime r) 500) with false
    by (symmetry; apply GenomeProofs.ltb_ge; exact H).
  cbn. split; reflexivity.
Qed.

Lemma slow_poke_restarts_witness :
  reactions (fst (handlePoke (Behavior.mkStats 50 50 50 50) 5000
                    (mkRefs 4000 2 4400))) = [poke] /\
  snd (handlePoke (Behavior.mkStats 50 50 50 50) 5000 (mkRefs 4000 2 4400))
  = mkRefs 5000 1 5000.
Proof. apply slow_poke_restarts. cbn. discriminate. Defined.

(** X14. With stats within [0, 100] and a shake intensity that is not
    negative, every value the poke, pet, grab, shake, release and tickle
    handlers pass to [onStatChange] lies within [0, 100]. *)
Theorem sent_values_in_range (stats : Behavior.GuardianStats)
    (intensity now : Q) (r : Refs) :
  0 <= Behavior.energy stats <= 100 ->
  0 <= Behavior.curiosity stats <= 100 ->
  0 <= Behavior.bond stats <= 100 ->
  0 <= intensity ->
  Forall (fun calls => Forall (fun v => 0 <= v <= 100) (sent calls))
    [fst (handlePoke stats now r); fst (handlePet stats now r);
     fst (handleGrab now r); fst (handleShake stats intensity now r);
     fst (handleRelease now r); fst (handleTickle stats now r)].
Proof.
  intros He Hc Hb Hi.
  assert (Hfl : (0 <= Qfloor (intensity * 3))%Z).
  { change 0%Z with (Qfloor 0). apply Qfloor_resp_le. lra. }
  rewrite Zle_Qle in Hfl. change (inject_Z 0) with 0 in Hfl.
  repeat constructor.
  - unfold handlePoke.
    destruct (3 <=? _)%Z; cbn; repeat constructor;
      try (apply Q.min_glb; [discriminate|lra]); apply Q.le_min_l.
  - apply Q.min_glb; [discriminate|lra].
  - apply Q.le_min_l.
  - apply Q.le_max_l.
  - apply Q.max_lub; [discriminate|]. cbn [Behavior.energy]. lra.
  - apply Q.min_glb; [discriminate|lra].
  - apply Q.le_min_l.
Qed.

Lemma sent_values_in_range_witness :
  Forall (fun v => 0 <= v <= 100)
    (sent (fst (handleShake (Behavior.mkStats 4 50 98 70) 2 1000
                  initial_refs))).
Proof.
  pose proof (sent_values_in_range (Behavior.mkStats 4 50 98 70) 2 1000
                initial_refs) as H.
  cbn [Behavior.energy Behavior.curiosity Behavior.bond] in H.
  specialize (H ltac:(split; discriminate) ltac:(split; discriminate)
                ltac:(split; discriminate) ltac:(discriminate)).
  apply Forall_inv_tail, Forall_inv_tail, Forall_inv_tail in H.
  apply Forall_inv in H. exact H.
Defined.

End InteractionProofs.

(* ================================================================== *)
(** * The main component: vitals, bond history, pattern game *)
(* ================================================================== *)

Module ComponentProofs.
Import Js ArrayOps Component.
Local Open Scope Q_scope.

Lemma slice_last_length {A : Type} (k : nat) (a : list A) :
  List.length (slice_last k a) = Nat.min k (List.length a).
Proof. unfold slice_last. rewrite length_skipn. lia. Qed.

Lemma slice_last_suffix {A : Type} (k : nat) (a : list A) :
  firstn (List.length a - k) a ++ slice_last k a = a.
Proof. unfold slice_last. apply firstn_skipn. Qed.

Lemma slice_last_all {A : Type} (k : nat) (a : list A) :
  (List.length a <= k)%nat -> slice_last k a = a.
Proof.
  intros H. unfold slice_last.
  replace (List.length a - k)%nat with 0%nat by lia. reflexivity.
Qed.

Lemma clamp100_range (v : Q) : 0 <= clamp100 v <= 100.
Proof. apply GenomeProofs.clamp_range. Qed.

(** X15. [handleInteractionStatChange] keeps energy, curiosity and bond
    within [0, 100]; a positive bond change appends one entry, carrying
    the new bond, to the last 50 entries of the bond history, any other
    change leaves the history alone. *)
Theorem stat_change_keeps_range (changes : Stubs.StatChanges) (now : Q)
    (st : Vitals) :
  0 <= energy st <= 100 -> 0 <= curiosity st <= 100 ->
  0 <= bondLevel st <= 100 ->
  let st' := handleInteractionStatChange changes now st in
  0 <= energy st' <= 100 /\ 0 <= curiosity st' <= 100 /\
  0 <= bondLevel st' <= 100 /\
  match Stubs.c_bond changes with
  | Some d =>
      if gtb d 0
      then bondHistory st'
           = slice_last 50 (bondHistory st)
             ++ [mkEntry now (bondLevel st') "Interaction"] /\
           List.length (bondHistory st')
           = S (Nat.min 50 (List.length (bondHistory st)))
      else bondHistory st' = bondHistory st
  | None => bondHistory st' = bondHistory st /\ bondLevel st' = bondLevel st
  end.
Proof.
  intros He Hc Hb st'. subst st'. unfold handleInteractionStatChange.
  assert (E : 0 <= match Stubs.c_energy changes with
                   | Some d => clamp100 (energy st + d)
                   | None => energy st
                   end <= 100)
    by (destruct (Stubs.c_energy changes); [apply clamp100_range|exact He]).
  assert (C : 0 <= match Stubs.c_curiosity changes with
                   | Some d => clamp100 (curiosity st + d)
                   | None => curiosity st
                   end <= 100)
    by (destruct (Stubs.c_curiosity changes); [apply clamp100_range|exact Hc]).
  destruct (Stubs.c_bond changes) as [d|];
    cbn [energy curiosity bondLevel bondHistory].
  - split; [exact E|]. split; [exact C|]. split; [apply clamp100_range|].
    destruct (gtb d 0); [|reflexivity].
    split; [reflexivity|].
    rewrite length_app, slice_last_length. cbn [List.length]. lia.
  - split; [exact E|]. split; [exact C|]. split; [exact Hb|].
    split; reflexivity.
Qed.

Lemma stat_change_keeps_range_witness :
  let st := mkVitals 98 40 99 [mkEntry 5 90 "Awakened"] in
  let st' := handleInteractionStatChange
               (Stubs.mkChanges (Some 5) None (Some 3) None) 77 st in
  0 <= energy st' <= 100 /\ 0 <= curiosity st' <= 100 /\
  0 <= bondLevel st' <= 100 /\
  bondHistory st'
  = slice_last 50 (bondHistory st)
    ++ [mkEntry 77 (bondLevel st') "Interaction"] /\
  List.length (bondHistory st') = S (Nat.min 50 (List.length (bondHistory st))).
Proof.
  intros st st'.
  apply (stat_change_keeps_range
           (Stubs.mkChanges (Some 5) None (Some 3) None) 77 st);
    cbn; split; discriminate.
Defined.

(** X16. [addToBondHistory] keeps the last 29 entries in order and
    appends the new one: the history never exceeds 30 entries, its last
    entry is the new one, and nothing is dropped from a history of at
    most 29 entries. *)
Theorem bond_history_capped (bond : Q) (event : string) (now : Q)
    (prev : list BondHistoryEntry) :
  let h := addToBondHistory bond event now prev in
  List.length h = S (Nat.min 29 (List.length prev)) /\
  (List.length h <= 30)%nat /\
  last h (mkEntry 0 0 EmptyString) = mkEntry now bond event /\
  (exists dropped, dropped ++ removelast h = prev
                   /\ List.length dropped = (List.length prev - 29)%nat) /\
  ((List.length prev <= 29)%nat -> h = prev ++ [mkEntry now bond event]).
Proof.
  intros h. subst h. unfold addToBondHistory.
  rewrite length_app, slice_last_length. cbn [List.length].
  split; [lia|]. split; [lia|]. split; [apply last_last|].
  split.
  - exists (firstn (List.length prev - 29) prev).
    rewrite removelast_last. split; [apply slice_last_suffix|].
    rewrite length_firstn. lia.
  - intros H. rewrite slice_last_all by exact H. reflexivity.
Qed.




End ComponentProofs.

(* ================================================================== *)
(** * The behaviour machine while idle *)
(* ================================================================== *)

Module IdleProofs.
Import Js Behavior Scenarios Invariants.
Local Open Scope Q_scope.

Section Idle.
Variable sigilPoints : list GuardianSigilPoint.
Variable options : Options.
Variable random : nat -> Q.
Hypothesis random_unit : forall n, 0 <= random n <= 1.
Hypothesis idle_range :
  min (t_idle (timings (config options))) <= max (t_idle (timings (config options))).

Lemma duration_range (r : Range) (u : Q) :
  min r <= max r -> 0 <= u <= 1 -> min r <= min r + u * (max r - min r) <= max r.
Proof.
  intros Hr [H0 H1].
  assert (A : 0 <= u * (max r - min r)) by (apply Qmult_le_0_compat; lra).
  assert (B : u * (max r - min r) <= 1 * (max r - min r))
    by (apply Qmult_le_compat_r; lra).
  lra.
Qed.

Lemma transition_idle_delay (h : Hook) :
  exists m cb rg,
    ((m = dreaming /\ cb = DreamEnd) \/ (m = observing /\ cb = ObserveEnd) \/
     (m = focusing /\ cb = FocusEnd) \/
     (m = mode h /\ cb = Retry idle /\ rg = t_idle (timings (config options)))) /\
    snd (transitionToNextMode options random idle h)
    = mkHook m (focusedSigil h) (Some (next_id h)) (rendered h)
        (timers h ++ [mkTimer (next_id h) cb
                        (min rg + random (S (cursor h)) * (max rg - min rg))])
        (S (next_id h)) (S (S (cursor h))) (log h).
Proof.
  unfold transitionToNextMode, bind, Math_random.
  destruct (ltb (energy (stats options)) 30 && _).
  { exists dreaming, DreamEnd. eexists. split; [tauto|reflexivity]. }
  destruct (ltb _ _).
  { exists observing, ObserveEnd. eexists. split; [tauto|reflexivity]. }
  destruct (gtb _ _ && _).
  { exists focusing, FocusEnd. eexists. split; [tauto|reflexivity]. }
  exists (mode h), (Retry idle). eexists. split; [right; right; right; repeat split|reflexivity].
Qed.

(** Evaluating the transition in a settled idle state without pending
    timer, then rendering. *)
Lemma evaluate_keeps (h0 : Hook) :
  rendered h0 = idle -> mode h0 = idle -> timers h0 = [] ->
  (1 <= next_id h0)%nat -> cursor h0 = (2 * (next_id h0 - 1))%nat ->
  evaluating options
    (snd (flush options random
            (snd (transitionToNextMode options random idle h0)))).
Proof.
  intros Hr Hm Ht Hn Hc.
  destruct (transition_idle_delay h0) as (m & cb & rg & Hcase & ->).
  destruct h0 as [m0 f0 tr0 rd0 ts0 ni0 cu0 lg0].
  cbn [rendered mode timers focusedSigil next_id cursor log] in *.
  subst rd0 m0 ts0.
  unfold flush, commit, bind, cleanup, clearTimeout, set_timers, set_rendered.
  unfold evaluating.
  destruct Hcase as [[-> ->]|[[-> ->]|[[-> ->]|(-> & -> & ->)]]];
    cbn -[Nat.eqb Nat.mul Nat.sub]; rewrite ?Nat.eqb_refl;
    cbn -[Nat.mul Nat.sub].
  1-3: (split; [reflexivity|]; split; [discriminate|];
        split; [reflexivity|]; lia).
  split; [reflexivity|]. split.
  - intros _. eexists _, _. split; [reflexivity|]. split; [reflexivity|].
    split; [reflexivity|]. apply duration_range; [exact idle_range|apply random_unit].
  - split; [intros C; contradiction|]. lia.
Qed.

Lemma reachable_evaluating (h : Hook) :
  reachable sigilPoints options random h -> evaluating options h.
Proof.
  induction 1 as [|h h' Hreach IH Hstep].
  - unfold mount, bind, effect.
    pose proof (evaluate_keeps initial eq_refl eq_refl eq_refl (le_n 1) eq_refl) as E.
    destruct (transitionToNextMode options random idle initial) as [[] h1].
    cbn [snd] in *.
    destruct (flush options random h1) as [[] h2]. exact E.
  - destruct IH as (Hr & Hidle & Hother & Hn & Hc).
    destruct h as [m0 f0 tr0 rd0 ts0 ni0 cu0 lg0].
    cbn [rendered mode timers focusedSigil next_id cursor log timerRef] in *.
    remember (mkHook m0 f0 tr0 rd0 ts0 ni0 cu0 lg0) as h eqn:Eh.
    destruct Hstep as [h t Hin|h]; subst h;
      cbn [rendered mode timers focusedSigil next_id cursor log timerRef] in *.
    + destruct (mode_eqb m0 idle) eqn:Em.
      * assert (m0 = idle) by (destruct m0; try discriminate; reflexivity).
        subst m0 rd0.
        destruct (Hidle eq_refl) as (i & d & -> & -> & -> & Hd).
        destruct Hin as [<-|[]].
        unfold fire, bind, set_timers.
        cbn [timers tid callback filter negb run mode focusedSigil timerRef
             rendered next_id cursor log].
        rewrite Nat.eqb_refl. cbn [negb].
        set (h0 := mkHook idle f0 (Some i) idle [] (S i) cu0 lg0).
        pose proof (evaluate_keeps h0 eq_refl eq_refl eq_refl) as E.
        cbn [next_id cursor h0] in E. specialize (E ltac:(lia) Hc).
        destruct (transitionToNextMode options random idle h0) as [[] h1].
        cbn [snd] in *.
        destruct (flush options random h1) as [[] h2]. exact E.
      * assert (Hm : m0 <> idle) by (intros ->; discriminate).
        rewrite (Hother Hm) in Hin. destruct Hin.
    + unfold rerender, bind.
      destruct (mode_eqb m0 idle) eqn:Em.
      * assert (m0 = idle) by (destruct m0; try discriminate; reflexivity).
        subst m0 rd0.
        destruct (Hidle eq_refl) as (i & d & -> & -> & -> & Hd).
        unfold cleanup, clearTimeout, set_timers.
        cbn [timers tid callback filter negb run mode focusedSigil timerRef
             rendered next_id cursor log snd effect].
        rewrite Nat.eqb_refl. cbn [negb].
        set (h0 := mkHook idle f0 (Some i) idle [] (S i) cu0 lg0).
        pose proof (evaluate_keeps h0 eq_refl eq_refl eq_refl) as E.
        cbn [next_id cursor h0] in E. specialize (E ltac:(lia) Hc).
        destruct (transitionToNextMode options random idle h0) as [[] h1].
        cbn [snd] in *.
        destruct (flush options random h1) as [[] h2]. exact E.
      * assert (Hm : m0 <> idle) by (intros ->; discriminate).
        rewrite (Hother Hm). subst rd0.
        unfold cleanup, clearTimeout, set_timers, flush, commit, bind.
        destruct tr0, m0; try discriminate;
          cbn -[Nat.mul Nat.sub]; unfold evaluating;
          cbn -[Nat.mul Nat.sub];
          (split; [reflexivity|]; split; [discriminate|];
           split; [reflexivity|]; split; assumption).
Qed.
End Idle.

(** X18. While the machine is idle it keeps evaluating: in every
    reachable idle state exactly one timeout is pending, the idle
    retry set last and held in [timerRef], its delay within the idle
    range (for draws within [0, 1] and a range whose bounds are in
    order); and in every reachable state two draws of [Math.random] have
    been made per timeout ever set. *)
Theorem idle_keeps_evaluating (sigilPoints : list GuardianSigilPoint)
    (options : Options) (random : nat -> Q) (h : Hook) :
  (forall n, 0 <= random n <= 1) ->
  min (t_idle (timings (config options))) <= max (t_idle (timings (config options))) ->
  reachable sigilPoints options random h ->
  (mode h = idle ->
   exists i d,
     timers h = [mkTimer i (Retry idle) d] /\ timerRef h = Some i /\
     next_id h = S i /\
     min (t_idle (timings (config options))) <= d
       <= max (t_idle (timings (config options)))) /\
  (2 <= next_id h)%nat /\ cursor h = (2 * (next_id h - 1))%nat.
Proof.
  intros Hu Hr Hreach.
  destruct (reachable_evaluating sigilPoints options random Hu Hr h Hreach)
    as (_ & Hidle & _ & Hn & Hc).
  split; [exact Hidle|]. split; assumption.
Qed.

Lemma idle_keeps_evaluating_witness :
  let h := mount tired (always (9 # 10)) in
  (mode h = idle ->
   exists i d,
     timers h = [mkTimer i (Retry idle) d] /\ timerRef h = Some i /\
     next_id h = S i /\
     min (t_idle (timings (config tired))) <= d
       <= max (t_idle (timings (config tired)))) /\
  (2 <= next_id h)%nat /\ cursor h = (2 * (next_id h - 1))%nat.
Proof.
  intros h.
  apply (idle_keeps_evaluating three_sigils tired (always (9 # 10)) h).
  - intros k. split; discriminate.
  - discriminate.
  - apply reach_mount.
Defined.

End IdleProofs.

(* ================================================================== *)
(** * Evolution: aspects *)
(* ================================================================== *)

Module EvolutionProofs.
Import Js Evolution StubsProofs.
Local Open Scope Q_scope.

Ltac cmpq :=
  repeat match goal with
  | |- context [gtb ?a ?b] =>
      let E := fresh "E" in
      destruct (gtb a b) eqn:E; [apply gtb_lt in E|apply gtb_ge in E]
  | |- context [ltb ?a ?b] =>
      let E := fresh "E" in
      destruct (ltb a b) eqn:E;
      [apply GenomeProofs.ltb_lt in E|apply GenomeProofs.ltb_ge in E]
  | |- context [geb ?a ?b] =>
      let E := fresh "E" in
      destruct (geb a b) eqn:E; [apply geb_le in E|apply geb_lt in E]
  end.

Lemma Qmax_cases (a b : Q) : (a < b /\ Qmax a b == b) \/ (b <= a /\ Qmax a b == a).
Proof. apply Q.max_spec. Qed.

Lemma trinity_cases (genome : BreedingGenome) :
  let r := red60 genome in
  let b := blue60 genome in
  let k := black60 genome in
  (calculateTrinityAspect genome = sun <-> b <= r /\ k <= r) /\
  (calculateTrinityAspect genome = shadow <-> r < b /\ k <= b) /\
  (calculateTrinityAspect genome = void <-> r < k /\ b < k).
Proof.
  intros r b k. unfold calculateTrinityAspect. fold r b k.
  destruct (Qmax_cases b k) as [[M1 M1']|[M1 M1']];
  destruct (Qmax_cases r k) as [[M2 M2']|[M2 M2']].
  all: set (mbk := Qmax b k) in *; set (mrk := Qmax r k) in *;
       clearbody mbk mrk.
  all: cmpq; cbn [andb].
  all: try (exfalso; lra).
  all: (split; [split; [intros; try discriminate; split; lra
                       |intros [? ?]; try reflexivity; exfalso; lra]|]).
  all: (split; (split; [intros; try discriminate; split; lra
                       |intros [? ?]; try reflexivity; exfalso; lra])).
Qed.

(** X19. The primary aspect is an axis of largest value, ties going to
    sun before shadow before void: sun exactly when red is at least blue
    and black, shadow exactly when blue exceeds red and is at least
    black, void exactly when black exceeds both.  The last return of the
    function is never reached: when both tie tests fail, black exceeds
    both and the third test had answered. *)
Theorem trinity_aspect_dominant (genome : BreedingGenome) :
  let r := red60 genome in
  let b := blue60 genome in
  let k := black60 genome in
  (calculateTrinityAspect genome = sun <-> b <= r /\ k <= r) /\
  (calculateTrinityAspect genome = shadow <-> r < b /\ k <= b) /\
  (calculateTrinityAspect genome = void <-> r < k /\ b < k) /\
  (geb r (Qmax b k) = false -> geb b (Qmax r k) = false ->
   gtb k r && gtb k b = true) /\
  value_of genome (calculateTrinityAspect genome) == Qmax (Qmax r b) k.
Proof.
  intros r b k.
  destruct (trinity_cases genome) as (S1 & S2 & S3). fold r b k in S1, S2, S3.
  split; [exact S1|]. split; [exact S2|]. split; [exact S3|]. split.
  - intros H1 H2. apply geb_lt in H1. apply geb_lt in H2.
    destruct (Qmax_cases b k) as [[M1 M1']|[M1 M1']];
    destruct (Qmax_cases r k) as [[M2 M2']|[M2 M2']];
    set (mbk := Qmax b k) in *; set (mrk := Qmax r k) in *;
    clearbody mbk mrk; try (exfalso; lra).
    apply andb_true_intro. split; apply gtb_lt; lra.
  - destruct (Qmax_cases r b) as [[M3 M3']|[M3 M3']];
    destruct (Qmax_cases (Qmax r b) k) as [[M4 M4']|[M4 M4']];
    set (mrb := Qmax r b) in *; set (mx := Qmax mrb k) in *;
    clearbody mrb mx;
    destruct (calculateTrinityAspect genome);
      cbn [value_of]; fold r b k;
      first [ assert (b <= r /\ k <= r) as [? ?] by (apply S1; reflexivity)
            | assert (r < b /\ k <= b) as [? ?] by (apply S2; reflexivity)
            | assert (r < k /\ b < k) as [? ?] by (apply S3; reflexivity) ];
      lra.
Qed.

(** X20. A secondary aspect differs from the primary one, is the larger
    of the two other axes and reaches 80% of the primary value; there is
    none exactly when both other axes stay below 80% of it. *)
Theorem secondary_aspect_spec (genome : BreedingGenome) (primary : TrinityAspect) :
  match calculateSecondaryAspect genome primary with
  | Some s =>
      s <> primary /\
      value_of genome primary * (8 # 10) <= value_of genome s /\
      forall a, a <> primary -> value_of genome a <= value_of genome s
  | None =>
      forall a, a <> primary ->
                value_of genome a < value_of genome primary * (8 # 10)
  end.
Proof.
  destruct genome as [r b k].
  destruct primary; unfold calculateSecondaryAspect;
    cbn [entries filter aspect_eqb negb fst snd reduce fold_left value_of
         red60 blue60 black60];
    cmpq; cbn [value_of red60 blue60 black60].
  all: try (split; [discriminate|split; [lra|]]).
  all: intros a Ha; destruct a; try contradiction;
       cbn [value_of red60 blue60 black60]; lra.
Qed.

End EvolutionProofs.

(* ================================================================== *)
(** * Evolution: power and mutations *)
(* ================================================================== *)

Module PowerProofs.
Import Js Evolution StubsProofs EvolutionProofs.
Local Open Scope Q_scope.

Lemma Math_round_le (x y : Q) : x <= y -> Math_round x <= Math_round y.
Proof.
  intros H. unfold Math_round. rewrite <- Zle_Qle.
  apply Qfloor_resp_le. lra.
Qed.

Lemma max3_spec (a b c : Q) :
  a <= max3 a b c /\ b <= max3 a b c /\ c <= max3 a b c /\
  (max3 a b c == a \/ max3 a b c == b \/ max3 a b c == c).
Proof.
  unfold max3.
  destruct (Qmax_cases a b) as [[M1 M1']|[M1 M1']];
  destruct (Qmax_cases (Qmax a b) c) as [[M2 M2']|[M2 M2']];
  set (m := Qmax a b) in *; set (m' := Qmax m c) in *; clearbody m m';
  (split; [lra|split; [lra|split; [lra|]]]).
  - right; right; lra.
  - right; left; lra.
  - right; right; lra.
  - left; lra.
Qed.

(** X21. For a genome within [0, 100] the evolution power lies within
    [0, 100], between the rounded 60% of the largest axis and the
    rounded largest axis. *)
Theorem evolution_power_range (genome : BreedingGenome) :
  0 <= red60 genome <= 100 -> 0 <= blue60 genome <= 100 ->
  0 <= black60 genome <= 100 ->
  let top := max3 (red60 genome) (blue60 genome) (black60 genome) in
  0 <= calculateEvolutionPower genome <= 100 /\
  Math_round (top * (6 # 10)) <= calculateEvolutionPower genome
    <= Math_round top.
Proof.
  intros Hr Hb Hk top. unfold calculateEvolutionPower. fold top.
  destruct (max3_spec (red60 genome) (blue60 genome) (black60 genome))
    as (M1 & M2 & M3 & M4).
  fold top in M1, M2, M3, M4.
  set (r := red60 genome) in *. set (b := blue60 genome) in *.
  set (k := black60 genome) in *. clearbody r b k top.
  assert (E : (r + b + k) / 3 * (6 # 10) + top / 100 * 100 * (4 # 10)
              == (r + b + k) * (2 # 10) + top * (4 # 10)).
  { unfold Qdiv. change (/ 3) with (1 # 3). change (/ 100) with (1 # 100). lra. }
  assert (T : 0 <= top <= 100) by (destruct M4 as [M|[M|M]]; lra).
  split.
  - apply GenomeProofs.Math_round_range. lra.
  - split; apply Math_round_le; lra.
Qed.

Lemma evolution_power_range_witness :
  let g := mkGenome 90 40 30 in
  0 <= calculateEvolutionPower g <= 100 /\
  Math_round (max3 90 40 30 * (6 # 10)) <= calculateEvolutionPower g
    <= Math_round (max3 90 40 30).
Proof.
  intros g. apply (evolution_power_range g); cbn; split; discriminate.
Defined.

(** X22. A genome has at most six mutations; it has none exactly when
    every axis lies within [10, 90] and no two axes exceed 85; it has
    six when every axis exceeds 90. *)
Theorem mutations_bounded (genome : BreedingGenome) :
  let r := red60 genome in
  let b := blue60 genome in
  let k := black60 genome in
  (List.length (generateMutations genome) <= 6)%nat /\
  (generateMutations genome = [] <->
   10 <= r <= 90 /\ 10 <= b <= 90 /\ 10 <= k <= 90 /\
   ~ (85 < r /\ 85 < k) /\ ~ (85 < b /\ 85 < k) /\ ~ (85 < r /\ 85 < b)) /\
  (90 < r -> 90 < b -> 90 < k -> List.length (generateMutations genome) = 6%nat).
Proof.
  intros r b k. unfold generateMutations. fold r b k. clearbody r b k.
  destruct (gtb r 90) eqn:R9; [apply gtb_lt in R9|apply gtb_ge in R9];
  destruct (ltb r 10) eqn:R1;
    [apply GenomeProofs.ltb_lt in R1|apply GenomeProofs.ltb_ge in R1
    |apply GenomeProofs.ltb_lt in R1|apply GenomeProofs.ltb_ge in R1];
  try (exfalso; lra).
  all: destruct (gtb b 90) eqn:B9; [apply gtb_lt in B9|apply gtb_ge in B9];
  destruct (ltb b 10) eqn:B1;
    [apply GenomeProofs.ltb_lt in B1|apply GenomeProofs.ltb_ge in B1
    |apply GenomeProofs.ltb_lt in B1|apply GenomeProofs.ltb_ge in B1];
  try (exfalso; lra).
  all: destruct (gtb k 90) eqn:K9; [apply gtb_lt in K9|apply gtb_ge in K9];
  destruct (ltb k 10) eqn:K1;
    [apply GenomeProofs.ltb_lt in K1|apply GenomeProofs.ltb_ge in K1
    |apply GenomeProofs.ltb_lt in K1|apply GenomeProofs.ltb_ge in K1];
  try (exfalso; lra).
  all: destruct (gtb r 85) eqn:R8; [apply gtb_lt in R8|apply gtb_ge in R8];
       try (exfalso; lra).
  all: destruct (gtb b 85) eqn:B8; [apply gtb_lt in B8|apply gtb_ge in B8];
       try (exfalso; lra).
  all: destruct (gtb k 85) eqn:K8; [apply gtb_lt in K8|apply gtb_ge in K8];
       try (exfalso; lra).
  all: cbn [andb app List.length].
  all: (split; [lia|split; [split; [intros H; try discriminate H; intuition lra
                                   |intros H; try reflexivity; exfalso; intuition lra]
                           |intros; try reflexivity; exfalso; lra]]).
Qed.

End PowerProofs.

(* ================================================================== *)
(** * Evolution: breeding *)
(* ================================================================== *)

Module BreedingProofs.
Import Js Evolution.
Local Open Scope Q_scope.

Lemma Qplus_comm_eq (a b : Q) : a + b = b + a.
Proof.
  destruct a as [a1 a2], b as [b1 b2]. unfold Qplus. cbn [Qnum Qden].
  f_equal; [apply Z.add_comm|apply Pos.mul_comm].
Qed.

Section Draws.
Variable G : Type.
Variable randomFn : G -> Q * G.

Lemma mutate_state (value : Q) (g : G) :
  snd (mutate G randomFn value g) = snd (randomFn g).
Proof. unfold mutate. destruct (randomFn g). reflexivity. Qed.

(** X23. [breedGenomes] does not depend on the order of the parents,
    calls the random function exactly four times whatever branch is
    taken, and returns integer axes. *)
Theorem breeding_symmetric_four_draws (parent1 parent2 : BreedingGenome) (g : G) :
  breedGenomes G randomFn parent1 parent2 g
  = breedGenomes G randomFn parent2 parent1 g /\
  snd (breedGenomes G randomFn parent1 parent2 g)
  = snd (randomFn (snd (randomFn (snd (randomFn (snd (randomFn g))))))) /\
  let child := fst (breedGenomes G randomFn parent1 parent2 g) in
  exists r b k : Z,
    red60 child = inject_Z r /\ blue60 child = inject_Z b /\
    black60 child = inject_Z k.
Proof.
  split; [|split].
  - unfold breedGenomes.
    rewrite (Qplus_comm_eq (red60 parent1)), (Qplus_comm_eq (blue60 parent1)),
            (Qplus_comm_eq (black60 parent1)).
    destruct (mutate G randomFn _ g) as [red g1].
    destruct (mutate G randomFn _ g1) as [blue g2].
    destruct (mutate G randomFn _ g2) as [black g3].
    destruct (randomFn g3) as [roll g4].
    rewrite (orb_comm (Qeq_bool _ (red60 parent1))).
    rewrite (orb_comm (Qeq_bool _ (blue60 parent1))).
    reflexivity.
  - unfold breedGenomes.
    pose proof (mutate_state ((red60 parent1 + red60 parent2) / 2) g) as E1.
    destruct (mutate G randomFn _ g) as [red g1]. cbn [snd] in E1.
    pose proof (mutate_state ((blue60 parent1 + blue60 parent2) / 2) g1) as E2.
    destruct (mutate G randomFn _ g1) as [blue g2]. cbn [snd] in E2.
    pose proof (mutate_state ((black60 parent1 + black60 parent2) / 2) g2) as E3.
    destruct (mutate G randomFn _ g2) as [black g3]. cbn [snd] in E3.
    rewrite <- E1, <- E2, <- E3.
    destruct (randomFn g3) as [roll g4]. cbn [snd].
    destruct (ltb roll (5 # 100)); [|reflexivity].
    destruct (_ || _); [reflexivity|]. destruct (_ || _); reflexivity.
  - intros child. subst child. unfold breedGenomes.
    destruct (mutate G randomFn _ g) as [red g1].
    destruct (mutate G randomFn _ g1) as [blue g2].
    destruct (mutate G randomFn _ g2) as [black g3].
    destruct (randomFn g3) as [roll g4].
    destruct (ltb roll (5 # 100)).
    + destruct (_ || _); [|destruct (_ || _)]; cbn [fst red60 blue60 black60];
        unfold Math_round; eexists _, _, _; repeat split; reflexivity.
    + cbn [fst red60 blue60 black60]. unfold Math_round.
      eexists _, _, _; repeat split; reflexivity.
Qed.
Lemma dominant_red (p : BreedingGenome) :
  Qeq_bool (max3 (red60 p) (blue60 p) (black60 p)) (red60 p) = true
  <-> calculateTrinityAspect p = sun.
Proof.
  destruct (EvolutionProofs.trinity_cases p) as (S1 & _ & _).
  destruct (PowerProofs.max3_spec (red60 p) (blue60 p) (black60 p))
    as (M1 & M2 & M3 & M4).
  rewrite Qeq_bool_iff, S1.
  set (m := max3 _ _ _) in *. clearbody m.
  split; intros H; [lra|destruct M4 as [M|[M|M]]; lra].
Qed.

Lemma dominant_blue (p : BreedingGenome) :
  calculateTrinityAspect p <> sun ->
  (Qeq_bool (max3 (red60 p) (blue60 p) (black60 p)) (blue60 p) = true
   <-> calculateTrinityAspect p = shadow).
Proof.
  destruct (EvolutionProofs.trinity_cases p) as (S1 & S2 & _).
  destruct (PowerProofs.max3_spec (red60 p) (blue60 p) (black60 p))
    as (M1 & M2 & M3 & M4).
  rewrite Qeq_bool_iff, S2, S1.
  set (m := max3 _ _ _) in *. clearbody m. intros N. split; intros H.
  - destruct (Qlt_le_dec (red60 p) (blue60 p)); [lra|].
    exfalso. apply N. lra.
  - destruct M4 as [M|[M|M]]; lra.
Qed.

Lemma not_sun_shadow (p : BreedingGenome) :
  calculateTrinityAspect p <> sun -> calculateTrinityAspect p <> shadow ->
  calculateTrinityAspect p = void.
Proof. destruct (calculateTrinityAspect p); congruence. Qed.

(** X24. The rare boost follows the parents' primary aspects: with a
    fourth draw below 0.05 it raises red when a parent is sun, blue when
    none is sun and one is shadow, black otherwise, that is when both
    parents are void; with a fourth draw of 0.05 or more the child is
    the rounded mutated means. *)
Theorem boost_follows_aspects (parent1 parent2 : BreedingGenome) (g : G) :
  let m1 := mutate G randomFn ((red60 parent1 + red60 parent2) / 2) g in
  let m2 := mutate G randomFn ((blue60 parent1 + blue60 parent2) / 2) (snd m1) in
  let m3 := mutate G randomFn ((black60 parent1 + black60 parent2) / 2) (snd m2) in
  let roll := fst (randomFn (snd m3)) in
  let child := fst (breedGenomes G randomFn parent1 parent2 g) in
  let some a :=
    calculateTrinityAspect parent1 = a \/ calculateTrinityAspect parent2 = a in
  let rounded r b k := mkGenome (Math_round r) (Math_round b) (Math_round k) in
  (5 # 100 <= roll -> child = rounded (fst m1) (fst m2) (fst m3)) /\
  (roll < 5 # 100 -> some sun ->
   child = rounded (Qmin 100 (fst m1 + 10)) (fst m2) (fst m3)) /\
  (roll < 5 # 100 -> ~ some sun -> some shadow ->
   child = rounded (fst m1) (Qmin 100 (fst m2 + 10)) (fst m3)) /\
  (roll < 5 # 100 -> ~ some sun -> ~ some shadow ->
   calculateTrinityAspect parent1 = void /\
   calculateTrinityAspect parent2 = void /\
   child = rounded (fst m1) (fst m2) (Qmin 100 (fst m3 + 10))).
Proof.
  intros m1 m2 m3 roll child some rounded.
  subst m1 m2 m3 roll child some rounded. cbv beta.
  unfold breedGenomes.
  destruct (mutate G randomFn _ g) as [red g1]. cbn [fst snd].
  destruct (mutate G randomFn _ g1) as [blue g2]. cbn [fst snd].
  destruct (mutate G randomFn _ g2) as [black g3]. cbn [fst snd].
  destruct (randomFn g3) as [roll g4]. cbn [fst snd].
  destruct (ltb roll (5 # 100)) eqn:R;
    [apply GenomeProofs.ltb_lt in R|apply GenomeProofs.ltb_ge in R].
  2: { split; [reflexivity|]. repeat split; intros; exfalso; lra. }
  split; [intros; exfalso; lra|].
  destruct (Qeq_bool _ (red60 parent1)) eqn:A1;
    [apply dominant_red in A1|];
    [|destruct (Qeq_bool _ (red60 parent2)) eqn:A2;
      [apply dominant_red in A2|]]; cbn [orb fst].
  1-2: split; [reflexivity|]; split;
       [intros _ N; exfalso; apply N; tauto
       |intros _ N; exfalso; apply N; tauto].
  assert (N1 : calculateTrinityAspect parent1 <> sun).
  { intros H. apply dominant_red in H. congruence. }
  assert (N2 : calculateTrinityAspect parent2 <> sun).
  { intros H. apply dominant_red in H. congruence. }
  split; [intros _ [H|H]; contradiction|].
  destruct (Qeq_bool _ (blue60 parent1)) eqn:B1;
    [apply (dominant_blue _ N1) in B1|];
    [|destruct (Qeq_bool _ (blue60 parent2)) eqn:B2;
      [apply (dominant_blue _ N2) in B2|]]; cbn [orb fst].
  1-2: split; [reflexivity|]; intros _ _ N; exfalso; apply N; tauto.
  assert (N3 : calculateTrinityAspect parent1 <> shadow).
  { intros H. apply (dominant_blue _ N1) in H. congruence. }
  assert (N4 : calculateTrinityAspect parent2 <> shadow).
  { intros H. apply (dominant_blue _ N2) in H. congruence. }
  split; [intros _ _ [H|H]; contradiction|].
  intros _ _ _. split; [apply not_sun_shadow; assumption|].
  split; [apply not_sun_shadow; assumption|reflexivity].
Qed.
End Draws.

End BreedingProofs.

(* ================================================================== *)
(** * The range of the genome *)
(* ================================================================== *)

Module GenomeShape.
Import Js MossPrime Evolution Genome Scenarios.
Local Open Scope Q_scope.

(** The remainder by 100 is smaller than 100 in magnitude, whatever the
    sign of the dividend. *)
Lemma rem_100_abs (a : Q) : -(100) < rem a 100 /\ rem a 100 < 100.
Proof.
  unfold rem.
  assert (Ea : a == 100 * (a / 100)) by field.
  destruct (Qle_bool 0 (a / 100)) eqn:Eb.
  - apply Qle_bool_iff in Eb.
    pose proof (Qfloor_le (a / 100)) as Hlo.
    pose proof (Qlt_floor (a / 100)) as Hhi.
    rewrite inject_Z_plus in Hhi. change (inject_Z 1) with 1 in Hhi.
    set (k := inject_Z (Qfloor (a / 100))) in *.
    set (t := a / 100) in *. clearbody k t. split; lra.
  - pose proof (Qle_ceiling (a / 100)) as Hhi.
    pose proof (Qceiling_lt (a / 100)) as Hlo.
    unfold Z.sub in Hlo. rewrite inject_Z_plus in Hlo.
    change (inject_Z (Z.opp 1)) with (Qopp 1) in Hlo.
    set (k := inject_Z (Qceiling (a / 100))) in *.
    set (t := a / 100) in *. clearbody k t. split; lra.
Qed.

Lemma capped_rem_range (a : Q) :
  -(100) < Qmin 100 (rem a 100) /\ Qmin 100 (rem a 100) < 100.
Proof.
  destruct (rem_100_abs a) as [Hlo Hhi]. split.
  - apply Q.min_glb_lt; [reflexivity|exact Hlo].
  - eapply Qle_lt_trans; [apply Q.le_min_r|exact Hhi].
Qed.

(** X25. The cap of [computeGenome] never binds: for every field and all
    vitals each axis lies strictly between -100 and 100, because a
    remainder by 100 does; the value 100 is never reached. *)
Theorem genome_cap_never_binds (field : Field) (energy curiosity bond health : Q) :
  let g := computeGenome field energy curiosity bond health in
  (-(100) < red60 g /\ red60 g < 100) /\
  (-(100) < blue60 g /\ blue60 g < 100) /\
  (-(100) < black60 g /\ black60 g < 100).
Proof.
  intros g. subst g. unfold computeGenome. cbn [red60 blue60 black60].
  split; [apply capped_rem_range|]. split; apply capped_rem_range.
Qed.

End GenomeShape.

(* ================================================================== *)
(** * Consciousness: memory and personality drift *)
(* ================================================================== *)

Module MemoryProofs.
Import Js ArrayOps Consciousness.
Local Open Scope Q_scope.

Lemma get_set_same (m : CountMap) (k : string) (v : Z) :
  get (Consciousness.set m k v) k = Some v.
Proof.
  induction m as [|[k' v'] m IH]; cbn.
  - rewrite String.eqb_refl. reflexivity.
  - destruct (String.eqb k' k) eqn:E; cbn; rewrite E; [reflexivity|exact IH].
Qed.

Lemma get_set_other (m : CountMap) (k k' : string) (v : Z) :
  k <> k' -> get (Consciousness.set m k v) k' = get m k'.
Proof.
  intros N. induction m as [|[k0 v0] m IH]; cbn.
  - destruct (String.eqb_spec k k'); [contradiction|reflexivity].
  - destruct (String.eqb_spec k0 k) as [->|N0]; cbn.
    + destruct (String.eqb_spec k k'); [contradiction|reflexivity].
    + destruct (String.eqb k0 k'); [reflexivity|exact IH].
Qed.

Lemma get_or_0_spec (m : CountMap) (k : string) :
  get_or_0 m k = match get m k with Some v => v | None => 0%Z end.
Proof.
  unfold get_or_0. destruct (get m k) as [v|]; [|reflexivity].
  destruct (Z.eqb_spec v 0); congruence.
Qed.

(** One more occurrence of [k] counted in [m]. *)
Lemma bump_spec (m : CountMap) (k k' : string) :
  get_or_0 (Consciousness.set m k (get_or_0 m k + 1)%Z) k'
  = (get_or_0 m k' + if String.eqb k k' then 1 else 0)%Z.
Proof.
  rewrite (get_or_0_spec (Consciousness.set _ _ _)).
  destruct (String.eqb_spec k k') as [<-|N].
  - rewrite get_set_same. reflexivity.
  - rewrite get_set_other by exact N. rewrite <- get_or_0_spec. lia.
Qed.

Lemma count_from (l : list ActionMemory) (m : CountMap) (k : string) :
  get_or_0
    (fold_left
       (fun actionCounts memory =>
          Consciousness.set actionCounts (action memory)
            (get_or_0 actionCounts (action memory) + 1)%Z) l m) k
  = (get_or_0 m k + Z.of_nat (count_occ string_dec (map action l) k))%Z.
Proof.
  revert m. induction l as [|e l IH]; intros m; cbn [fold_left map count_occ].
  - lia.
  - rewrite IH, bump_spec.
    destruct (String.eqb_spec (action e) k) as [E|N];
      destruct (string_dec (action e) k); try contradiction; lia.
Qed.

Lemma count_actions_spec (l : list ActionMemory) (k : string) :
  get_or_0 (count_actions l) k
  = Z.of_nat (count_occ string_dec (map action l) k).
Proof. unfold count_actions. rewrite count_from. reflexivity. Qed.

Lemma floor_div_ge (count lo : Z) (d : positive) :
  (lo * Zpos d <= count)%Z -> inject_Z lo <= floor_div count (inject_Z (Zpos d)).
Proof.
  intros H. unfold floor_div. rewrite <- Zle_Qle.
  rewrite <- (Qfloor_Z lo). apply Qfloor_resp_le.
  apply Qle_shift_div_l; [reflexivity|].
  rewrite <- inject_Z_mult, <- Zle_Qle. exact H.
Qed.

Lemma capped_gain (base cap : Q) (count lo : Z) (d : positive) :
  (lo * Zpos d <= count)%Z -> inject_Z lo <= cap ->
  base + inject_Z lo
  <= Qmin (base + floor_div count (inject_Z (Zpos d))) (base + cap)
  <= base + cap.
Proof.
  intros H Hc. pose proof (floor_div_ge count lo d H) as F. split.
  - apply Q.min_glb; lra.
  - apply Q.le_min_r.
Qed.

(** The values [calculatePersonalityDrift] can give to the keys it sets. *)
Lemma drift_range (history : list ActionMemory) (baseTraits : PersonalityTraits) :
  let d := calculatePersonalityDrift history baseTraits in
  p_temperament d = None /\ p_independence d = None /\
  p_affection d = None /\
  (forall v, p_energy d = Some v ->
     v == energy baseTraits + 5 \/ v == energy baseTraits - 5) /\
  (forall v, p_playfulness d = Some v ->
     playfulness baseTraits + 2 <= v <= playfulness baseTraits + 10) /\
  (forall v, p_discipline d = Some v ->
     discipline baseTraits + 1 <= v <= discipline baseTraits + 8) /\
  (forall v, p_social d = Some v ->
     social baseTraits + 2 <= v <= social baseTraits + 10) /\
  (forall v, p_curiosity d = Some v ->
     curiosity baseTraits + 2 <= v <= curiosity baseTraits + 12).
Proof.
  intros d. subst d. unfold calculatePersonalityDrift.
  destruct (Nat.ltb_spec (List.length history) 20) as [L|L].
  { cbn [no_drift p_temperament p_energy p_playfulness p_independence
         p_affection p_social p_curiosity p_discipline].
    split; [reflexivity|]. split; [reflexivity|]. split; [reflexivity|].
    repeat split; intros; discriminate. }
  cbn [p_temperament p_energy p_playfulness p_independence p_affection
       p_social p_curiosity p_discipline].
  rewrite !count_actions_spec.
  set (recent := map action (slice_last 50 history)).
  split; [reflexivity|]. split; [reflexivity|]. split; [reflexivity|].
  split; [|split; [|split; [|split]]].
  - intros v.
    destruct (_ <? _)%Z; [|destruct (_ <? _)%Z]; intros E; inversion E; subst.
    + left. apply Q.min_l. lra.
    + right. apply Q.max_l. lra.
  - intros v. destruct (Z.ltb_spec 5 (Z.of_nat (count_occ string_dec recent "play"%string)
                            + Z.of_nat (count_occ string_dec recent "minigame_victory"%string)));
      intros E; inversion E; subst.
    apply (capped_gain _ 10 _ 2 3); [lia|discriminate].
  - intros v. destruct (Z.ltb_spec 5 (Z.of_nat (count_occ string_dec recent "feed"%string)));
      intros E; inversion E; subst.
    apply (capped_gain _ 8 _ 1 4); [lia|discriminate].
  - intros v. destruct (Z.ltb_spec 8 (Z.of_nat (count_occ string_dec recent "play"%string)
                            + Z.of_nat (count_occ string_dec recent "breeding"%string)));
      intros E; inversion E; subst.
    apply (capped_gain _ 10 _ 2 4); [lia|discriminate].
  - intros v. destruct (Z.ltb_spec 3 (Z.of_nat (count_occ string_dec recent "exploration_discovery"%string)
                            + Z.of_nat (count_occ string_dec recent "exploration_anomaly"%string)));
      intros E; inversion E; subst.
    apply (capped_gain _ 12 _ 2 2); [lia|discriminate].
Qed.

(** X27. [calculatePersonalityDrift] gives no drift below 20 memories;
    playfulness drifts exactly when, among the last 50 actions, play and
    minigame_victory occur more than 5 times together, curiosity exactly
    when the two exploration actions occur more than 3 times; an energy
    drift is the base plus or minus 5, never more; playfulness drifts by
    2 to 10, discipline by 1 to 8, social by 2 to 10, curiosity by 2 to
    12 above the base. *)
Theorem drift_bounded (history : list ActionMemory)
    (baseTraits : PersonalityTraits) :
  let d := calculatePersonalityDrift history baseTraits in
  let recent := map action (slice_last 50 history) in
  let occurrences k := Z.of_nat (count_occ string_dec recent k) in
  ((List.length history < 20)%nat -> d = no_drift) /\
  (p_playfulness d <> None <->
   (20 <= List.length history)%nat /\
   (5 < occurrences "play"%string + occurrences "minigame_victory"%string)%Z) /\
  (p_curiosity d <> None <->
   (20 <= List.length history)%nat /\
   (3 < occurrences "exploration_discovery"%string
        + occurrences "exploration_anomaly"%string)%Z) /\
  (forall v, p_energy d = Some v ->
     v == energy baseTraits + 5 \/ v == energy baseTraits - 5) /\
  (forall v, p_playfulness d = Some v ->
     playfulness baseTraits + 2 <= v <= playfulness baseTraits + 10) /\
  (forall v, p_discipline d = Some v ->
     discipline baseTraits + 1 <= v <= discipline baseTraits + 8) /\
  (forall v, p_social d = Some v ->
     social baseTraits + 2 <= v <= social baseTraits + 10) /\
  (forall v, p_curiosity d = Some v ->
     curiosity baseTraits + 2 <= v <= curiosity baseTraits + 12).
Proof.
  intros d recent occurrences.
  destruct (drift_range history baseTraits) as (_ & _ & _ & R).
  fold d in R. split; [|split; [|split; [|exact R]]].
  - subst d. unfold calculatePersonalityDrift. intros L.
    destruct (Nat.ltb_spec (List.length history) 20); [reflexivity|lia].
  - subst d. unfold calculatePersonalityDrift.
    destruct (Nat.ltb_spec (List.length history) 20) as [L|L].
    { cbn. split; [intros N; contradiction|intros [H _]; lia]. }
    cbn [p_playfulness]. rewrite !count_actions_spec. fold recent.
    fold (occurrences "play"%string) (occurrences "minigame_victory"%string).
    destruct (Z.ltb_spec 5 (occurrences "play"%string
                            + occurrences "minigame_victory"%string)).
    + split; [intros _; split; assumption|intros _; discriminate].
    + split; [intros N; contradiction|intros [_ H']; lia].
  - subst d. unfold calculatePersonalityDrift.
    destruct (Nat.ltb_spec (List.length history) 20) as [L|L].
    { cbn. split; [intros N; contradiction|intros [H _]; lia]. }
    cbn [p_curiosity]. rewrite !count_actions_spec. fold recent.
    fold (occurrences "exploration_discovery"%string)
         (occurrences "exploration_anomaly"%string).
    destruct (Z.ltb_spec 3 (occurrences "exploration_discovery"%string
                            + occurrences "exploration_anomaly"%string)).
    + split; [intros _; split; assumption|intros _; discriminate].
    + split; [intros N; contradiction|intros [_ H']; lia].
Qed.

Lemma slice_last_app {A : Type} (k : nat) (a b : list A) :
  slice_last k (slice_last k a ++ b) = slice_last k (a ++ b).
Proof.
  unfold slice_last.
  rewrite !skipn_app, !length_app, !length_skipn, skipn_skipn.
  f_equal; f_equal; lia.
Qed.

Lemma slice_last_length_le {A : Type} (k : nat) (a : list A) :
  (List.length (slice_last k a) <= k)%nat.
Proof. unfold slice_last. rewrite length_skipn. lia. Qed.

Section Recorded.
Context {Expression Surroundings : Type}.
Implicit Types c : ConsciousnessState Expression Surroundings.

Lemma record_all_last c (es : list ActionMemory) (e : ActionMemory) :
  record_all c (es ++ [e])
  = recordExperience (record_all c es) (action e) (emotion e) (impact e)
                     (timestamp e).
Proof.
  revert c. induction es as [|e' es IH]; intros c; [reflexivity|].
  cbn [app record_all]. apply IH.
Qed.

Lemma record_all_frame c (es : list ActionMemory) :
  traits (record_all c es) = traits c /\
  essence (record_all c es) = essence c /\
  expressed (record_all c es) = expressed c /\
  context (record_all c es) = context c.
Proof.
  revert c. induction es as [|e es IH]; intros c; [repeat split|].
  cbn [record_all]. destruct (IH (recordExperience c (action e) (emotion e)
                                    (impact e) (timestamp e))) as (A & B & C & D).
  rewrite A, B, C, D. repeat split.
Qed.

Lemma record_all_history c (es : list ActionMemory) :
  es <> [] ->
  actionHistory (memory (record_all c es))
  = slice_last 100 (actionHistory (memory c) ++ es).
Proof.
  induction es as [|e es IH] using rev_ind; intros N; [contradiction|].
  rewrite record_all_last. cbn [recordExperience memory actionHistory].
  destruct e as [a em t i]. cbn [action emotion timestamp impact].
  destruct es as [|e0 es0].
  - reflexivity.
  - rewrite IH by discriminate. rewrite slice_last_app, <- app_assoc.
    reflexivity.
Qed.

Lemma record_all_patterns c (es : list ActionMemory) (k : string) :
  get_or_0 (emotionalPatterns (memory (record_all c es))) k
  = (get_or_0 (emotionalPatterns (memory c)) k
     + Z.of_nat (count_occ string_dec (map emotion es) k))%Z.
Proof.
  revert c. induction es as [|e es IH]; intros c; cbn [record_all map count_occ].
  - lia.
  - rewrite IH. cbn [recordExperience memory emotionalPatterns].
    rewrite bump_spec.
    destruct (String.eqb_spec (emotion e) k);
      destruct (string_dec (emotion e) k); try contradiction; lia.
Qed.

Lemma record_all_drift c (es : list ActionMemory) :
  es <> [] ->
  personalityDrift (memory (record_all c es))
  = calculatePersonalityDrift (actionHistory (memory (record_all c es)))
                              (traits c).
Proof.
  induction es as [|e es _] using rev_ind; intros N; [contradiction|].
  rewrite record_all_last. cbn [recordExperience memory personalityDrift actionHistory].
  destruct (record_all_frame c es) as (-> & _). reflexivity.
Qed.

(** X28. Recording experiences leaves traits, essence, expression and
    context alone and counts every emotion in [emotionalPatterns]
    without any cap; once an experience is recorded, the history is the
    last 100 of the old history followed by the experiences, the drift
    is computed from it and the base traits, and the effective
    personality stays within the drift caps of the base traits however
    many experiences are recorded. *)
Theorem experience_memory c (es : list ActionMemory) :
  let c' := record_all c es in
  let t := traits c in
  let p := getEffectivePersonality c' in
  (traits c' = t /\ essence c' = essence c /\ expressed c' = expressed c /\
   context c' = context c) /\
  (forall k,
     get_or_0 (emotionalPatterns (memory c')) k
     = (get_or_0 (emotionalPatterns (memory c)) k
        + Z.of_nat (count_occ string_dec (map emotion es) k))%Z) /\
  (es <> [] ->
   actionHistory (memory c')
   = slice_last 100 (actionHistory (memory c) ++ es) /\
   (List.length (actionHistory (memory c')) <= 100)%nat /\
   personalityDrift (memory c')
   = calculatePersonalityDrift (actionHistory (memory c')) t /\
   temperament p = temperament t /\ independence p = independence t /\
   affection p = affection t /\
   energy t - 5 <= energy p <= energy t + 5 /\
   playfulness t <= playfulness p <= playfulness t + 10 /\
   discipline t <= discipline p <= discipline t + 8 /\
   social t <= social p <= social t + 10 /\
   curiosity t <= curiosity p <= curiosity t + 12).
Proof.
  intros c' t p.
  split; [apply record_all_frame|]. split; [apply record_all_patterns|].
  intros N.
  pose proof (record_all_history c es N) as H. fold c' in H.
  pose proof (record_all_drift c es N) as D. fold c' t in D.
  split; [exact H|]. split; [rewrite H; apply slice_last_length_le|].
  split; [exact D|].
  destruct (drift_range (actionHistory (memory c')) t)
    as (R1 & R2 & R3 & R4 & R5 & R6 & R7 & R8).
  rewrite <- D in R1, R2, R3, R4, R5, R6, R7, R8.
  destruct (record_all_frame c es) as (T & _). fold c' t in T.
  subst p. unfold getEffectivePersonality.
  cbn [temperament independence affection energy playfulness discipline
       social curiosity].
  rewrite T, R1, R2, R3.
  split; [reflexivity|]. split; [reflexivity|]. split; [reflexivity|].
  split; [|split; [|split; [|split]]].
  - destruct (p_energy _) as [v|]; [|lra].
    destruct (R4 v eq_refl) as [E|E]; lra.
  - destruct (p_playfulness _) as [v|]; [|lra].
    pose proof (R5 v eq_refl). lra.
  - destruct (p_discipline _) as [v|]; [|lra].
    pose proof (R6 v eq_refl). lra.
  - destruct (p_social _) as [v|]; [|lra].
    pose proof (R7 v eq_refl). lra.
  - destruct (p_curiosity _) as [v|]; [|lra].
    pose proof (R8 v eq_refl). lra.
Qed.
End Recorded.

End MemoryProofs.

(* ================================================================== *)
(** * Consciousness: genetic modulation *)
(* ================================================================== *)

Module ModulationProofs.
Import Js Consciousness.
Local Open Scope Q_scope.

Lemma clamp_unit (v : Q) : 0 <= clamp v 0 1 <= 1.
Proof.
  unfold clamp. split; [apply Q.le_max_l|].
  apply Q.max_lub; [discriminate|apply Q.le_min_l].
Qed.

Lemma clamp_id (v : Q) : 0 <= v <= 1 -> clamp v 0 1 == v.
Proof.
  intros [H0 H1]. unfold clamp.
  rewrite Q.max_r; [apply Q.min_r; exact H1|].
  apply Q.min_glb; [discriminate|exact H0].
Qed.

(** X29. [applyGeneticModulation] returns drives within [0, 1] for all
    inputs, and with every trait at 50, where every modifier is 0, it
    returns drives within [0, 1] unchanged. *)
Theorem genetic_modulation_range (baseDrives : GuardianDrive)
    (personality : PersonalityTraits) :
  let out := applyGeneticModulation baseDrives personality in
  unit_drives out /\
  (unit_drives baseDrives ->
   energy personality == 50 -> playfulness personality == 50 ->
   independence personality == 50 -> affection personality == 50 ->
   social personality == 50 -> curiosity personality == 50 ->
   discipline personality == 50 ->
   resonance out == resonance baseDrives /\
   exploration out == exploration baseDrives /\
   connection out == connection baseDrives /\
   rest out == rest baseDrives /\
   expression out == expression baseDrives).
Proof.
  intros out. subst out. unfold applyGeneticModulation.
  cbn [resonance exploration connection rest expression].
  split.
  - unfold unit_drives. cbn [resonance exploration connection rest expression].
    repeat split; apply clamp_unit.
  - intros (B1 & B2 & B3 & B4 & B5) E1 E2 E3 E4 E5 E6 E7.
    assert (Z1 : (energy personality - 50) / 100 == 0)
      by (unfold Qdiv; change (/ 100) with (1 # 100); lra).
    assert (Z2 : (curiosity personality - 50) / 100 == 0)
      by (unfold Qdiv; change (/ 100) with (1 # 100); lra).
    assert (Z3 : ((social personality + affection personality) / 2 - 50) / 100 == 0)
      by (unfold Qdiv; change (/ 100) with (1 # 100); change (/ 2) with (1 # 2); lra).
    assert (Z4 : (independence personality - 50) / 100 == 0)
      by (unfold Qdiv; change (/ 100) with (1 # 100); lra).
    assert (Z5 : (discipline personality - 50) / 100 == 0)
      by (unfold Qdiv; change (/ 100) with (1 # 100); lra).
    assert (Z6 : (playfulness personality - 50) / 150 == 0)
      by (unfold Qdiv; change (/ 150) with (1 # 150); lra).
    set (m1 := (energy personality - 50) / 100) in *.
    set (m2 := (curiosity personality - 50) / 100) in *.
    set (m3 := ((social personality + affection personality) / 2 - 50) / 100) in *.
    set (m4 := (independence personality - 50) / 100) in *.
    set (m5 := (discipline personality - 50) / 100) in *.
    set (m6 := (playfulness personality - 50) / 150) in *.
    clearbody m1 m2 m3 m4 m5 m6.
    assert (F1 : resonance baseDrives * (1 + m5 * (3 # 10)) == resonance baseDrives)
      by (rewrite Z5; ring).
    assert (F2 : exploration baseDrives * (1 + m1 * (4 # 10) + m2 * (6 # 10))
                 == exploration baseDrives) by (rewrite Z1, Z2; ring).
    assert (F3 : connection baseDrives * (1 + m3 * (5 # 10) - m4 * (3 # 10))
                 == connection baseDrives) by (rewrite Z3, Z4; ring).
    assert (F4 : rest baseDrives * (1 - m1 * (3 # 10) - m5 * (2 # 10))
                 == rest baseDrives) by (rewrite Z1, Z5; ring).
    assert (F5 : expression baseDrives * (1 + m6 * (4 # 10))
                 == expression baseDrives) by (rewrite Z6; ring).
    split; [rewrite clamp_id; [exact F1|rewrite F1; exact B1]|].
    split; [rewrite clamp_id; [exact F2|rewrite F2; exact B2]|].
    split; [rewrite clamp_id; [exact F3|rewrite F3; exact B3]|].
    split; [rewrite clamp_id; [exact F4|rewrite F4; exact B4]|].
    rewrite clamp_id; [exact F5|rewrite F5; exact B5].
Qed.

End ModulationProofs.

(* ================================================================== *)
(** * The consciousness engine: reachable emotions *)
(* ================================================================== *)

Module MindProofs.
Import Js Emotion Mind.

Lemma never_returned (vitals : GuardianStats) (traits : PersonalityTraits) :
  calculateEmotionalResponse vitals traits <> mischievous /\
  calculateEmotionalResponse vitals traits <> protective /\
  calculateEmotionalResponse vitals traits <> transcendent.
Proof.
  unfold calculateEmotionalResponse.
  repeat match goal with
  | |- context [if ?b then _ else _] => destruct b
  end; repeat split; discriminate.
Qed.

(** X30. [calculateEmotionalResponse] returns twelve of the fifteen
    states: each of them for some input, and never mischievous,
    protective or transcendent; so the style of a computed emotion is
    never playful, vigilant or enlightened.  When every vital is NaN
    the answer is serene. *)
Theorem emotion_image :
  (forall e : ExpandedEmotionalState,
     (exists vitals traits, calculateEmotionalResponse vitals traits = e)
     <-> e <> mischievous /\ e <> protective /\ e <> transcendent) /\
  (forall vitals traits,
     let style := emotionToStyle (calculateEmotionalResponse vitals traits) in
     style <> "playful"%string /\ style <> "vigilant"%string /\
     style <> "enlightened"%string) /\
  (forall traits,
     calculateEmotionalResponse (mkStats NaN NaN NaN NaN) traits = serene).
Proof.
  split; [|split; [|intros traits; destruct traits; reflexivity]].
  - intros e. split.
    + intros (vitals & traits & <-). apply never_returned.
    + intros (N1 & N2 & N3).
      set (v := fun mood energy hunger hygiene =>
                  mkStats (n mood) (n energy) (n hunger) (n hygiene)).
      set (t := fun energy curiosity affection =>
                  mkTraits (n energy) (n curiosity) (n affection) (n 0) (n 0)
                           (n 0) (n 0) EmptyString).
      destruct e; try contradiction.
      * exists (v 72 50 0 50)%Z, (t 0 0 0)%Z. reflexivity.
      * exists (v 55 50 0 50)%Z, (t 0 0 0)%Z. reflexivity.
      * exists (v 80 50 0 50)%Z, (t 0 70 0)%Z. reflexivity.
      * exists (v 80 50 0 50)%Z, (t 70 0 0)%Z. reflexivity.
      * exists (v 72 50 0 50)%Z, (t 0 80 0)%Z. reflexivity.
      * exists (v 65 50 0 50)%Z, (t 0 0 70)%Z. reflexivity.
      * exists (v 45 70 0 50)%Z, (t 0 0 0)%Z. reflexivity.
      * exists (v 90 80 90 90)%Z, (t 0 0 0)%Z. reflexivity.
      * exists (v 90 80 0 10)%Z, (t 0 0 0)%Z. reflexivity.
      * exists (v 90 10 0 50)%Z, (t 0 0 0)%Z. reflexivity.
      * exists (v 90 80 0 50)%Z, (t 0 0 0)%Z. reflexivity.
      * exists (v 30 50 0 50)%Z, (t 0 0 0)%Z. reflexivity.
  - intros vitals traits style. subst style.
    destruct (never_returned vitals traits) as (N1 & N2 & N3).
    destruct (calculateEmotionalResponse vitals traits);
      try contradiction; cbn; repeat split; discriminate.
Qed.

End MindProofs.
